(** * Session-resilience layer of the Selenium ad testers

    A shallow embedding of the window reconciliation, overlay dismissal,
    ad detection and result aggregation code of

      - [edge_ad_render_tester.py]
      - [monetag_ad_tester.py]
      - [monetag_nav_click_tester.py]
      - [monetag_play_button_tester.py]

    The browser is an external collaborator.  It is modelled by a [World]
    (the part of the session the driver commands read and change) and an
    [Env] (what the browser, the page and the network do on their own at
    every command).  The Python code is written in a state-and-exception
    monad over that world, one driver call per command. *)

From Stdlib Require Import List String Ascii Bool Arith NArith Lia DecimalString
  Permutation.
Import ListNotations.
Local Open Scope string_scope.
Local Open Scope list_scope.

Set Implicit Arguments.

(* ================================================================= *)
(** ** Data *)

(** A window handle is an opaque string owned by the browser. *)
Definition Handle := string.

(** [selenium.webdriver.common.by.By], the strategies the sources use. *)
Inductive By := XPATH | CSS_SELECTOR | TAG_NAME | LINK_TEXT.

Definition Locator := (By * string)%type.

Definition By_eqb (a b : By) : bool :=
  match a, b with
  | XPATH, XPATH | CSS_SELECTOR, CSS_SELECTOR
  | TAG_NAME, TAG_NAME | LINK_TEXT, LINK_TEXT => true
  | _, _ => false
  end.

Definition Locator_eqb (a b : Locator) : bool :=
  By_eqb (fst a) (fst b) && String.eqb (snd a) (snd b).

(** [By.XPATH] and the others are these strings. *)
Definition By_str (b : By) : string :=
  match b with
  | XPATH => "xpath"
  | CSS_SELECTOR => "css selector"
  | TAG_NAME => "tag name"
  | LINK_TEXT => "link text"
  end.

(** The exceptions of [selenium.common.exceptions] the sources meet,
    all subclasses of [WebDriverException]; [OtherWebDriverError] stands for
    any other error of the session (intercepted click, stale element, lost
    connection). *)
Inductive SessionError :=
| Timeout
| NoSuchWindow
| NoSuchElement
| OtherWebDriverError.

(** What Python can raise in the modelled code: a Selenium exception of
    the driver or the library, the [IndexError] of indexing an empty list,
    a Selenium exception the program raises itself with a message of its
    own, and the errors of the path operations. *)
Inductive Exn :=
| Selenium (e : SessionError)
| IndexError
| Explicit (e : SessionError) (msg : string)
| RuntimeError
| OSError.

Abbreviation TimeoutException := (Selenium Timeout).
Abbreviation NoSuchWindowException := (Selenium NoSuchWindow).
Abbreviation NoSuchElementException := (Selenium NoSuchElement).
Abbreviation WebDriverException := (Selenium OtherWebDriverError).

(** [isinstance(e, WebDriverException)] and [isinstance(e, TimeoutException)]. *)
Definition is_webdriver (e : Exn) : bool :=
  match e with
  | Selenium _ | Explicit _ _ => true
  | IndexError | RuntimeError | OSError => false
  end.

Definition is_timeout (e : Exn) : bool :=
  match e with
  | TimeoutException | Explicit Timeout _ => true
  | _ => false
  end.

(** The line feed that ends the text of a Selenium exception. *)
Definition LF : string := String (ascii_of_nat 10) EmptyString.

(** [str(exc)].  For an exception raised with a message, Selenium gives the
    message after [Message: ], and a line feed. *)
Definition Exn_str (e : Exn) : string :=
  match e with
  | TimeoutException => "Message: timeout"
  | NoSuchWindowException => "Message: no such window"
  | NoSuchElementException => "Message: no such element"
  | WebDriverException => "Message: unknown error"
  | IndexError => "list index out of range"
  | Explicit _ msg => "Message: " ++ msg ++ LF
  | RuntimeError => "Could not determine home directory."
  | OSError => "[Errno 13] Permission denied"
  end.

(** Durations and clock readings are in milliseconds: [2.5] seconds of the
    source is [2500]. *)
Definition Millis := N.

(** A [WebElement] as the code uses it: its attributes and its two state
    flags.  [el_by] is the locator that found it. *)
Record WebElement := {
  el_by : Locator;
  el_attr : string -> option string;
  el_displayed : bool;
  el_enabled : bool
}.

(** The document of the focused window as one command sees it. *)
Record Page := {
  matches : Locator -> list WebElement;   (* find_elements(by, value) *)
  current_url : string;
  title : string
}.

(** What happens outside the program, by command number, and what the
    interpreter leaves open: the order in which it iterates a set, and its
    tables of letter case.  A Python [str] is held as its UTF-8 bytes. *)
Record Env := {
  fault : nat -> option SessionError;  (* the error command [n] dies with *)
  opens : nat -> list Handle;      (* windows the browser opens during it *)
  page : nat -> Page;              (* the document it sees *)
  latency : nat -> Millis;         (* the time it takes *)
  set_order : list Handle -> list Handle;  (* iteration order of a set *)
  lowercase : string -> string     (* str.lower() *)
}.

(* ----------------------------------------------------------------- *)
(** *** The event log *)

Inductive Cond :=
| element_to_be_clickable (l : Locator)
| presence_of_element_located (l : Locator)
| visibility_of_element_located (l : Locator)
| element_is_enabled (l : Locator).

Inductive Script :=
| scrollIntoView (l : Locator)
| js_click (l : Locator).

Inductive Cmd :=
| CmdLaunch
| CmdQuit
| CmdGet (url : string)
| CmdRefresh
| CmdCurrentWindowHandle
| CmdWindowHandles
| CmdSwitchTo (h : Handle)
| CmdClose
| CmdTitle
| CmdCurrentUrl
| CmdWait (c : Cond) (timeout : Millis)
| CmdFindElement (l : Locator)
| CmdFindElements (l : Locator)
| CmdClick (l : Locator)
| CmdIsDisplayed (l : Locator)
| CmdIsEnabled (l : Locator)
| CmdGetAttribute (l : Locator) (name : string)
| CmdExecuteScript (s : Script)
| CmdOffsetClick
| CmdSleep (d : Millis).

Inductive Level := DEBUG | INFO | WARNING | ERROR.

(** A driver command with the exception it raised (if any), or a line
    written to the log. *)
Inductive Event :=
| Issued (c : Cmd) (r : option Exn)
| Logged (lvl : Level) (msg : string)
| Printed (msg : string).

(** The session. *)
Record World := {
  window_handles : list Handle;   (* enumeration order *)
  focus : Handle;                 (* the window commands go to *)
  tick : nat;                     (* commands issued so far *)
  now : Millis;                   (* time.time() *)
  trace : list Event              (* most recent last *)
}.

(* ================================================================= *)
(** ** The monad *)

Inductive Outcome (A : Type) :=
| Normal (a : A)
| Raise (e : Exn).
Arguments Normal {A} a.
Arguments Raise {A} e.

Definition M (A : Type) := Env -> World -> Outcome A * World.

Definition ret {A} (a : A) : M A := fun _ w => (Normal a, w).

Definition bind {A B} (c : M A) (k : A -> M B) : M B :=
  fun env w =>
    match c env w with
    | (Normal a, w') => k a env w'
    | (Raise e, w') => (Raise e, w')
    end.

Definition raise {A} (e : Exn) : M A := fun _ w => (Raise e, w).

(** [try: c  except <e matching>: h e]. *)
Definition catch {A} (c : M A) (h : Exn -> M A) : M A :=
  fun env w =>
    match c env w with
    | (Normal a, w') => (Normal a, w')
    | (Raise e, w') => h e env w'
    end.

(** [with contextlib.suppress(WebDriverException): c]. *)
Definition suppress (c : M unit) : M unit :=
  catch c (fun e => if is_webdriver e then ret tt else raise e).

(** [try: c  finally: f]. *)
Definition finally {A} (c : M A) (f : M unit) : M A :=
  fun env w =>
    match c env w with
    | (r, w') =>
        match f env w' with
        | (Normal _, w'') => (r, w'')
        | (Raise e, w'') => (Raise e, w'')
        end
    end.

Declare Scope monad_scope.
Delimit Scope monad_scope with monad.
Notation "x <- c ;; k" := (bind c (fun x => k))
  (at level 100, c at next level, right associativity) : monad_scope.
Notation "c ;; k" := (bind c (fun _ => k))
  (at level 100, right associativity) : monad_scope.
Local Open Scope monad_scope.

Definition emit (ev : Event) : M unit := fun _ w =>
  (Normal tt,
   {| window_handles := window_handles w; focus := focus w;
      tick := tick w; now := now w; trace := trace w ++ [ev] |}).

Definition logger (lvl : Level) (msg : string) : M unit :=
  emit (Logged lvl msg).

Definition print (msg : string) : M unit :=
  emit (Printed msg).

(* ----------------------------------------------------------------- *)
(** *** Driver commands *)

Definition In_b (h : Handle) (hs : list Handle) : bool :=
  existsb (String.eqb h) hs.

Definition remove_handle (h : Handle) (hs : list Handle) : list Handle :=
  filter (fun x => negb (String.eqb h x)) hs.

(** The exception of an outcome, for the log. *)
Definition exn_of {A} (r : Outcome A) : option Exn :=
  match r with Raise e => Some e | Normal _ => None end.

(** One command: the fault of the environment wins; otherwise [sem] gives
    the result, the new window list and focus, and the extra time spent.
    Whatever happens the command is logged, the clock and the command
    counter advance and the windows opened meanwhile join the end of the
    enumeration. *)
Definition command {A} (c : Cmd)
    (sem : Page -> World -> Outcome A * list Handle * Handle * Millis) : M A :=
  fun env w =>
    let n := tick w in
    let '(r, hs, f, dt) :=
      match fault env n with
      | Some e => (Raise (Selenium e), window_handles w, focus w, 0%N)
      | None => sem (page env n) w
      end in
    (r,
     {| window_handles := hs ++ opens env n;
        focus := f;
        tick := S n;
        now := (now w + latency env n + dt)%N;
        trace := trace w ++ [Issued c (exn_of r)] |}).

(** A command that leaves the windows alone. *)
Definition query {A} (c : Cmd) (f : Page -> World -> Outcome A) : M A :=
  command c (fun p w => (f p w, window_handles w, focus w, 0%N)).

(** A command addressed to the document of the focused window: it needs
    that window to exist. *)
Definition on_page {A} (c : Cmd) (f : Page -> Outcome A) : M A :=
  query c (fun p w =>
    if In_b (focus w) (window_handles w) then f p
    else Raise NoSuchWindowException).

Definition get_window_handles : M (list Handle) :=
  query CmdWindowHandles (fun _ w => Normal (window_handles w)).

Definition current_window_handle : M Handle :=
  query CmdCurrentWindowHandle (fun _ w =>
    if In_b (focus w) (window_handles w) then Normal (focus w)
    else Raise NoSuchWindowException).

Definition switch_to_window (h : Handle) : M unit :=
  command (CmdSwitchTo h) (fun _ w =>
    if In_b h (window_handles w)
    then (Normal tt, window_handles w, h, 0%N)
    else (Raise NoSuchWindowException, window_handles w, focus w, 0%N)).

(** [driver.close()] closes the focused window; the focus stays on the
    closed handle until the next switch. *)
Definition close : M unit :=
  command CmdClose (fun _ w =>
    if In_b (focus w) (window_handles w)
    then (Normal tt, remove_handle (focus w) (window_handles w), focus w, 0%N)
    else (Raise NoSuchWindowException, window_handles w, focus w, 0%N)).

Definition get_title : M string :=
  on_page CmdTitle (fun p => Normal (title p)).

Definition get_current_url : M string :=
  on_page CmdCurrentUrl (fun p => Normal (current_url p)).

Definition get (url : string) : M unit :=
  on_page (CmdGet url) (fun _ => Normal tt).

Definition refresh : M unit :=
  on_page CmdRefresh (fun _ => Normal tt).

Definition launch : M unit :=
  query CmdLaunch (fun _ _ => Normal tt).

Definition quit : M unit :=
  query CmdQuit (fun _ _ => Normal tt).

Definition find_element (l : Locator) : M WebElement :=
  on_page (CmdFindElement l) (fun p =>
    match matches p l with
    | e :: _ => Normal e
    | [] => Raise NoSuchElementException
    end).

Definition find_elements (l : Locator) : M (list WebElement) :=
  on_page (CmdFindElements l) (fun p => Normal (matches p l)).

Definition click (e : WebElement) : M unit :=
  on_page (CmdClick (el_by e)) (fun _ => Normal tt).

Definition is_displayed (e : WebElement) : M bool :=
  on_page (CmdIsDisplayed (el_by e)) (fun _ => Normal (el_displayed e)).

Definition is_enabled (e : WebElement) : M bool :=
  on_page (CmdIsEnabled (el_by e)) (fun _ => Normal (el_enabled e)).

Definition get_attribute (e : WebElement) (name : string) : M (option string) :=
  on_page (CmdGetAttribute (el_by e) name) (fun _ => Normal (el_attr e name)).

Definition execute_script (s : Script) : M unit :=
  on_page (CmdExecuteScript s) (fun _ => Normal tt).

(** [ActionChains(driver).move_by_offset(10, 10).click().perform()]. *)
Definition offset_click : M unit :=
  on_page CmdOffsetClick (fun _ => Normal tt).

(** [time.sleep(d)] is no driver command and cannot fail, but time passes
    and the browser goes on meanwhile. *)
Definition sleep (d : Millis) : M unit := fun env w =>
  let n := tick w in
  (Normal tt,
   {| window_handles := window_handles w ++ opens env n;
      focus := focus w;
      tick := S n;
      now := (now w + latency env n + d)%N;
      trace := trace w ++ [Issued (CmdSleep d) None] |}).

Definition time_time : M Millis := fun _ w => (Normal (now w), w).

(** [list(s)] for a set [s] of handles, given without duplicates: its
    elements in the order the interpreter iterates them. *)
Definition list_of_set (s : list Handle) : M (list Handle) :=
  fun env w => (Normal (set_order env s), w).

(** [s.lower()]. *)
Definition str_lower (s : string) : M string :=
  fun env w => (Normal (lowercase env s), w).

(** What a call into the file system gives, as a computation. *)
Definition of_outcome {A} (r : Outcome A) : M A := fun _ w => (r, w).

(** What an expected condition evaluates to on a document. *)
Definition first_match (p : Page) (l : Locator) (ok : WebElement -> bool)
  : option WebElement :=
  match matches p l with
  | e :: _ => if ok e then Some e else None
  | [] => None
  end.

Definition cond_holds (p : Page) (c : Cond) : option WebElement :=
  match c with
  | presence_of_element_located l => first_match p l (fun _ => true)
  | visibility_of_element_located l => first_match p l el_displayed
  | element_to_be_clickable l =>
      first_match p l (fun e => el_displayed e && el_enabled e)
  | element_is_enabled l => first_match p l el_enabled
  end.

(** [WebDriverWait(driver, timeout).until(cond)]: the element once the
    condition holds, [TimeoutException] after [timeout]. *)
Definition wait_until (timeout : Millis) (c : Cond) : M WebElement :=
  command (CmdWait c timeout) (fun p w =>
    if In_b (focus w) (window_handles w) then
      match cond_holds p c with
      | Some e => (Normal e, window_handles w, focus w, 0%N)
      | None => (Raise TimeoutException, window_handles w, focus w, timeout)
      end
    else (Raise NoSuchWindowException, window_handles w, focus w, 0%N)).

(** [WebDriverWait(driver, timeout).until(lambda d: button.is_enabled())]. *)
Definition wait_until_enabled (timeout : Millis) (e : WebElement) : M unit :=
  command (CmdWait (element_is_enabled (el_by e)) timeout) (fun _ w =>
    if In_b (focus w) (window_handles w) then
      if el_enabled e then (Normal tt, window_handles w, focus w, 0%N)
      else (Raise TimeoutException, window_handles w, focus w, timeout)
    else (Raise NoSuchWindowException, window_handles w, focus w, 0%N)).

(** Python's [x or y] on strings that may be [None]. *)
Definition truthy (s : option string) : bool :=
  match s with
  | Some (String _ _) => true
  | _ => false
  end.

Definition or_else (s : option string) (d : string) : string :=
  match s with
  | Some (String c r) => String c r
  | _ => d
  end.

(* ----------------------------------------------------------------- *)
(** *** Strings and lists *)

Definition nonempty {A} (l : list A) : bool :=
  match l with [] => false | _ => true end.

(** What [str.lower()] does to the ASCII letters, every other byte being
    kept: the table of letter case of the example sessions. *)
Definition lower_ascii (c : ascii) : ascii :=
  let n := nat_of_ascii c in
  if ((65 <=? n)%nat && (n <=? 90)%nat)%bool then ascii_of_nat (n + 32) else c.

Fixpoint lower (s : string) : string :=
  match s with
  | EmptyString => EmptyString
  | String c r => String (lower_ascii c) (lower r)
  end.

(** [s[:n]]: the first [n] characters.  In UTF-8 the bytes 128 to 191
    continue the character before them. *)
Definition is_continuation (c : ascii) : bool :=
  let n := nat_of_ascii c in ((128 <=? n)%nat && (n <? 192)%nat)%bool.

Fixpoint take_chars (n : nat) (s : string) : string :=
  match s with
  | EmptyString => EmptyString
  | String c r =>
      if is_continuation c then String c (take_chars n r)
      else match n with
           | O => EmptyString
           | S n' => String c (take_chars n' r)
           end
  end.


(** [str(n)] for a count. *)
Definition str_of_nat (n : nat) : string :=
  NilZero.string_of_uint (Nat.to_uint n).

(** [str(b)] for a Boolean. *)
Definition str_of_bool (b : bool) : string :=
  if b then "True" else "False".

(** [sep.join(parts)] *)
Definition join (sep : string) (parts : list string) : string :=
  String.concat sep parts.

(** [keyword in s]. *)
Fixpoint contains (keyword s : string) : bool :=
  prefix keyword s ||
  match s with
  | EmptyString => false
  | String _ r => contains keyword r
  end.

(* ================================================================= *)
(** ** Window reconciliation *)

Module Edge.

(** [edge_ad_render_tester.close_unexpected_windows], the loop over the
    snapshot [current_handles]. *)
Fixpoint close_unexpected_loop (main_handle : Handle) (hs : list Handle)
  : M unit :=
  match hs with
  | [] => ret tt
  | handle :: rest =>
      (if String.eqb handle main_handle then ret tt
       else
         switch_to_window handle ;;
         t <- get_title ;;
         logger INFO ("Closing unexpected window: " ++
                      (if truthy (Some t) then t else "untitled")) ;;
         close) ;;
      close_unexpected_loop main_handle rest
  end.

Definition close_unexpected_windows (main_handle : Handle) : M Handle :=
  current_handles <- get_window_handles ;;
  close_unexpected_loop main_handle current_handles ;;
  hs1 <- get_window_handles ;;
  changed <-
    (if negb (In_b main_handle hs1)
     then hs2 <- get_window_handles ;;
          ret (match hs2 with [] => false | _ => true end)
     else ret false) ;;
  if changed : bool then
    hs3 <- get_window_handles ;;
    match hs3 with
    | [] => raise IndexError
    | first :: _ =>
        switch_to_window first ;;
        logger WARNING
          ("Main window changed; switched control to handle " ++ first) ;;
        ret first
    end
  else
    switch_to_window main_handle ;;
    ret main_handle.

(* ----------------------------------------------------------------- *)
(** *** The popup dismisser of the Edge tester *)

Definition popup_locators : list Locator :=
  [ (XPATH, "/html/body/div[3]/div/div[2]/span");
    (XPATH, "/html/body/div/div");
    (XPATH, "//span[normalize-space()='Закрыть']") ].

Definition locator_str (l : Locator) : string :=
  "('" ++ By_str (fst l) ++ "', '" ++ snd l ++ "')".

(** The loop of [close_ad_popup_if_present] over the locators; [true] where
    the source returns [True]. *)
Fixpoint close_popup_by_locator (locators : list Locator) : M bool :=
  match locators with
  | [] => ret false
  | locator :: rest =>
      closed <-
        catch
          (candidate <- wait_until 2000%N (element_to_be_clickable locator) ;;
           execute_script (scrollIntoView (el_by candidate)) ;;
           click candidate ;;
           logger INFO ("Closed ad popup using locator " ++ locator_str locator) ;;
           ret true)
          (fun exc =>
             if is_timeout exc then ret false
             else if is_webdriver exc then
               logger DEBUG ("Attempt to close popup with locator "
                             ++ locator_str locator ++ " failed: "
                             ++ Exn_str exc) ;;
               ret false
             else raise exc) ;;
      if closed : bool then ret true else close_popup_by_locator rest
  end.

(** [for button in fallback_buttons: if displayed and enabled: click; return True]. *)
Fixpoint click_first_usable (buttons : list WebElement) : M bool :=
  match buttons with
  | [] => ret false
  | button :: rest =>
      d <- is_displayed button ;;
      usable <- (if d : bool then is_enabled button else ret false) ;;
      if usable : bool then
        click button ;;
        logger INFO "Closed ad popup via fallback close button search" ;;
        ret true
      else click_first_usable rest
  end.

Definition close_ad_popup_if_present : M bool :=
  closed <- close_popup_by_locator popup_locators ;;
  if closed : bool then ret true else
  catch
    (fallback_buttons <- find_elements
       (XPATH, "//span[contains(@class, 'close') and contains(translate(text(),'ЗАКРЫТЬ','закрыть'),'закрыть')]") ;;
     click_first_usable fallback_buttons)
    (fun exc =>
       if is_webdriver exc then
         logger DEBUG ("Fallback popup close search failed: " ++ Exn_str exc) ;;
         ret false
       else raise exc).

(* ----------------------------------------------------------------- *)
(** *** The ad signal detector *)

Definition ad_keywords : list string :=
  [ "ads"; "advert"; "doubleclick"; "googlesyndication"; "adservice";
    "adnxs"; "taboola"; "outbrain" ].

(** [(get_attribute("src") or get_attribute("outerHTML") or "").lower()] *)
Definition descriptor_of (e : WebElement) : M string :=
  src <- get_attribute e "src" ;;
  if truthy src then str_lower (or_else src "")
  else
    html <- get_attribute e "outerHTML" ;;
    str_lower (or_else html "").

(** One of the two loops that fill [found_elements]. *)
Fixpoint scan_tags (kind : string) (tags : list WebElement)
    (found_elements : list (string * string)) : M (list (string * string)) :=
  match tags with
  | [] => ret found_elements
  | tag :: rest =>
      descriptor <- descriptor_of tag ;;
      scan_tags kind rest
        (if existsb (fun keyword => contains keyword descriptor) ad_keywords
         then found_elements ++ [(kind, take_chars 160 descriptor)]
         else found_elements)
  end.

Definition collect_ad_elements : M (list (string * string)) :=
  scripts <- find_elements (TAG_NAME, "script") ;;
  found_elements <- scan_tags "script" scripts [] ;;
  iframes <- find_elements (TAG_NAME, "iframe") ;;
  scan_tags "iframe" iframes found_elements.

Fixpoint log_detected (found_elements : list (string * string)) : M unit :=
  match found_elements with
  | [] => ret tt
  | (element_type, detail) :: rest =>
      logger INFO ("Detected " ++ element_type ++ " with ad signature: "
                   ++ detail) ;;
      log_detected rest
  end.

Definition inspect_for_ad_elements : M bool :=
  found_elements <- collect_ad_elements ;;
  if nonempty found_elements then
    log_detected found_elements ;;
    ret true
  else
    logger WARNING
      "Did not detect any ad-related elements on the current view" ;;
    ret false.

(* ----------------------------------------------------------------- *)
(** *** The driver path *)

(** The loop of [resolve_driver_path] over the candidates.  The file
    system is a parameter: [resolve p] stands for
    [Path(p).expanduser().resolve()], which raises [RuntimeError] when the
    home directory of a path that starts with a tilde cannot be found,
    and [path_exists] for [Path.exists]; either may die with an
    [OSError]. *)
Fixpoint resolve_driver_loop (resolve : string -> Outcome string)
    (path_exists : string -> Outcome bool) (candidates : list (option string))
  : M (option string) :=
  match candidates with
  | [] =>
      logger INFO "No explicit driver path provided; Selenium Manager will resolve the driver" ;;
      ret None
  | candidate :: rest =>
      if negb (truthy candidate)
      then resolve_driver_loop resolve path_exists rest
      else
        driver_path <- of_outcome (resolve (or_else candidate "")) ;;
        found <- of_outcome (path_exists driver_path) ;;
        if found : bool then
          logger INFO ("Using configured Edge driver at " ++ driver_path) ;;
          ret (Some driver_path)
        else
          logger WARNING ("Configured driver path " ++ driver_path
                          ++ " was not found") ;;
          resolve_driver_loop resolve path_exists rest
  end.

(** [resolve_driver_path(cli_driver_path, logger)]; [environ name] stands
    for [os.environ.get(name)]. *)
Definition resolve_driver_path (environ : string -> option string)
    (resolve : string -> Outcome string) (path_exists : string -> Outcome bool)
    (cli_driver_path : option string) : M (option string) :=
  resolve_driver_loop resolve path_exists
    [ cli_driver_path;
      environ "EDGE_WEBDRIVER";
      environ "EDGE_DRIVER_PATH";
      environ "MS_EDGE_DRIVER_PATH" ].

(* ----------------------------------------------------------------- *)
(** *** The two clicks of an iteration *)

(** [wait] is the timeout of the [WebDriverWait] the caller passes. *)
Definition interact_with_sushi_card (wait : Millis) : M unit :=
  let sushi_card_locator :=
    (CSS_SELECTOR, "div.row[role='option'][data-id='53065']") in
  sushi_card <- wait_until wait (element_to_be_clickable sushi_card_locator) ;;
  execute_script (scrollIntoView (el_by sushi_card)) ;;
  click sushi_card ;;
  logger INFO "Clicked Sushi recipe card".

Definition toggle_sushi_favourite (wait : Millis) : M unit :=
  let fav_button_locator :=
    (CSS_SELECTOR, "div.row[role='option'][data-id='53065'] button.fav") in
  favourite_button <-
    wait_until wait (element_to_be_clickable fav_button_locator) ;;
  execute_script (scrollIntoView (el_by favourite_button)) ;;
  click favourite_button ;;
  logger INFO "Clicked Sushi favourite button".

(** The first [try] of an iteration of [run_ad_navigation_test]: the click
    on the card and the clean-up after it.  The value is [main_handle]
    after the statement. *)
Definition visit_sushi_card (main_handle : Handle) : M Handle :=
  catch
    (interact_with_sushi_card 20000%N ;;
     sleep 2000%N ;;
     close_ad_popup_if_present ;;
     close_unexpected_windows main_handle)
    (fun exc =>
       if is_timeout exc then
         logger ERROR "Timed out waiting for Sushi recipe card; continuing" ;;
         ret main_handle
       else if is_webdriver exc then
         logger ERROR ("Error while clicking Sushi recipe card: "
                       ++ Exn_str exc) ;;
         ret main_handle
       else raise exc).

(** The second [try] of an iteration: the click on the favourite button. *)
Definition mark_sushi_favourite (main_handle : Handle) : M Handle :=
  catch
    (toggle_sushi_favourite 20000%N ;;
     sleep 1000%N ;;
     close_ad_popup_if_present ;;
     close_unexpected_windows main_handle)
    (fun exc =>
       if is_timeout exc then
         logger ERROR "Timed out waiting for Sushi favourite button; continuing" ;;
         ret main_handle
       else if is_webdriver exc then
         logger ERROR ("Error while clicking Sushi favourite button: "
                       ++ Exn_str exc) ;;
         ret main_handle
       else raise exc).

End Edge.

Module Monetag.

Fixpoint close_additional_loop (primary_handle : Handle) (hs : list Handle)
  : M unit :=
  match hs with
  | [] => ret tt
  | handle :: rest =>
      (if String.eqb handle primary_handle then ret tt
       else suppress (switch_to_window handle ;; close)) ;;
      close_additional_loop primary_handle rest
  end.

(** [monetag_ad_tester.close_additional_windows]; it returns [None]. *)
Definition close_additional_windows : M unit :=
  r <- catch (h <- current_window_handle ;; ret (Some h))
             (fun e => if is_webdriver e then ret None else raise e) ;;
  match r with
  | None => ret tt
  | Some primary_handle =>
      hs <- get_window_handles ;;
      close_additional_loop primary_handle hs ;;
      suppress (switch_to_window primary_handle)
  end.

(* ----------------------------------------------------------------- *)
(** *** Overlay dismissal and the ad wait *)

Definition HOME_URL := "https://logovobezdelnikov.com/".

Definition AD_IDENTIFIERS : list Locator :=
  [ (CSS_SELECTOR, "iframe[src*='monetag']");
    (CSS_SELECTOR, "script[src*='monetag']") ].

Definition WAIT_TIMEOUT : Millis := 12000%N.

Definition CLOSE_BUTTON_LOCATORS : list Locator :=
  [ (XPATH, "//*[@id='root']/div/div[2]/div/button");
    (XPATH, "//button[@aria-label='Close']");
    (XPATH, "/html/body/div/div/div[2]/div/button");
    (CSS_SELECTOR, "button[aria-label='Close']");
    (XPATH, "//button[contains(normalize-space(.),'âœ•')]") ].

Definition OVERLAY_WAIT : Millis := 6000%N.

(** The first pass of [dismiss_initial_overlay] over the locators; [true]
    when a button was clicked, where the source returns. *)
Fixpoint click_close_button (label : string) (locators : list Locator)
  : M bool :=
  match locators with
  | [] => ret false
  | (locator_by, locator_value) :: rest =>
      closed <-
        catch
          (button <- wait_until OVERLAY_WAIT
                       (element_to_be_clickable (locator_by, locator_value)) ;;
           click button ;;
           print (label ++ " Closed via locator " ++ By_str locator_by
                        ++ " => " ++ locator_value) ;;
           ret true)
          (fun exc =>
             if is_timeout exc then
               print (label ++ " Locator timed out: " ++ By_str locator_by
                            ++ " => " ++ locator_value) ;;
               ret false
             else if is_webdriver exc then
               print (label ++ " Locator click failed: " ++ By_str locator_by
                            ++ " => " ++ locator_value
                            ++ " (" ++ Exn_str exc ++ ")") ;;
               ret false
             else raise exc) ;;
      if closed : bool then ret true else click_close_button label rest
  end.

(** [for handle in new_handles: with suppress(...): switch; log; close]. *)
Fixpoint close_new_windows (label : string) (new_handles : list Handle)
  : M unit :=
  match new_handles with
  | [] => ret tt
  | handle :: rest =>
      suppress
        (switch_to_window handle ;;
         url <- get_current_url ;;
         print (label ++ " Closing new window: " ++ url) ;;
         close) ;;
      close_new_windows label rest
  end.

(** The last loop of [dismiss_initial_overlay]: a direct [find_element] and
    click per locator, returning on the first that works. *)
Fixpoint retry_close_button (label : string) (locators : list Locator)
  : M unit :=
  match locators with
  | [] => ret tt
  | (locator_by, locator_value) :: rest =>
      closed <-
        catch
          (button <- find_element (locator_by, locator_value) ;;
           click button ;;
           print (label ++ " Closed after retry via " ++ By_str locator_by
                        ++ ".") ;;
           ret true)
          (fun exc =>
             if is_webdriver exc then
               print (label ++ " Retry close failed for " ++ By_str locator_by
                            ++ ": " ++ Exn_str exc) ;;
               ret false
             else raise exc) ;;
      if closed : bool then ret tt else retry_close_button label rest
  end.

(** [after_handles - before_handles], the set of the handles of [after]
    that are not in [before], as a list without duplicates. *)
Definition new_windows (after before : list Handle) : list Handle :=
  nodup string_dec (filter (fun h => negb (In_b h before)) after).

(** What [dismiss_initial_overlay] does once the synthetic click went
    through (its lines from [after_handles = ...] to the end). *)
Definition reconcile_and_retry (label : string) (primary_handle : Handle)
    (current_url : string) (before_handles : list Handle) : M unit :=
  after_handles <- get_window_handles ;;
  new_handles <- list_of_set (new_windows after_handles before_handles) ;;
  close_new_windows label new_handles ;;
  suppress (switch_to_window primary_handle) ;;
  (if nonempty new_handles then
     print (label ++ " Reloading page after closing popup(s).") ;;
     suppress (get current_url ;; sleep 800%N)
   else ret tt) ;;
  retry_close_button label CLOSE_BUTTON_LOCATORS.

Definition dismiss_initial_overlay (debug_label : string) : M unit :=
  let label :=
    if nonempty (list_ascii_of_string debug_label)
    then ("[overlay " ++ debug_label ++ "]")%string else "[overlay]" in
  r <- catch (h <- current_window_handle ;; ret (Some h))
             (fun e => if is_webdriver e then ret None else raise e) ;;
  match r with
  | None => ret tt
  | Some primary_handle =>
      closed <- click_close_button label CLOSE_BUTTON_LOCATORS ;;
      if closed : bool then ret tt else
      current_url <- get_current_url ;;
      before_handles <- get_window_handles ;;
      print (label ++ " Attempting body click to dismiss blocking overlay.") ;;
      clicked <-
        catch
          (body <- find_element (TAG_NAME, "body") ;;
           click body ;;
           sleep 500%N ;;
           ret true)
          (fun exc =>
             if is_webdriver exc then
               print (label ++ " Body click failed: " ++ Exn_str exc
                            ++ "; trying offset click.") ;;
               catch
                 (offset_click ;; sleep 500%N ;; ret true)
                 (fun nested_exc =>
                    if is_webdriver nested_exc then
                      print (label ++ " Offset click failed: "
                                   ++ Exn_str nested_exc) ;;
                      ret false
                    else raise nested_exc)
             else raise exc) ;;
      if negb clicked then ret tt else
      reconcile_and_retry label primary_handle current_url before_handles
  end.

Fixpoint wait_for_ads_loop (timeout : Millis) (locators : list Locator)
  : M bool :=
  match locators with
  | [] => ret false
  | locator :: rest =>
      found <-
        catch (wait_until timeout (presence_of_element_located locator) ;;
               ret true)
              (fun exc => if is_timeout exc then ret false else raise exc) ;;
      if found : bool then ret true else wait_for_ads_loop timeout rest
  end.

(** [wait_for_ads(driver, timeout)]; the source's default is
    [WAIT_TIMEOUT]. *)
Definition wait_for_ads (timeout : Millis) : M bool :=
  wait_for_ads_loop timeout AD_IDENTIFIERS.

(* ----------------------------------------------------------------- *)
(** *** The view loop of [monetag_ad_tester] *)

Definition DEFAULT_VIEW_COUNT : nat := 3.
Definition DEFAULT_VIEW_DELAY : Millis := 5000%N.

Record ViewResult := {
  number : nat;
  ads_detected : bool;
  error : option string
}.

Definition simulate_view (view_number : nat) (url : string)
    (dwell_seconds : Millis) : M ViewResult :=
  catch
    (get url ;;
     sleep 1000%N ;;
     close_additional_windows ;;
     dismiss_initial_overlay ("view " ++ str_of_nat view_number) ;;
     ads_visible <- wait_for_ads WAIT_TIMEOUT ;;
     sleep (N.max dwell_seconds 0) ;;
     ret {| number := view_number; ads_detected := ads_visible;
            error := None |})
    (fun exc =>
       if is_webdriver exc then
         ret {| number := view_number; ads_detected := false;
                error := Some (Exn_str exc) |}
       else raise exc).

(** [with managed_driver(...) as driver: body]: the driver is quit on every
    way out of [body], and not at all when it could not be built. *)
Definition managed_driver {A} (body : M A) : M A :=
  launch ;;
  finally body quit.

Fixpoint view_loop (views : nat) (numbers : list nat)
    (dwell_seconds : Millis) (results : list ViewResult)
  : M (list ViewResult) :=
  match numbers with
  | [] => ret results
  | view_number :: rest =>
      result <- simulate_view view_number HOME_URL dwell_seconds ;;
      (if truthy (error result) then
         print ("[!] View " ++ str_of_nat view_number ++ ": error -> "
                ++ or_else (error result) "")
       else
         print ("[+] View " ++ str_of_nat view_number ++ ": ads "
                ++ (if ads_detected result then "found" else "missing"))) ;;
      (if negb (view_number =? views)%nat then refresh else ret tt) ;;
      view_loop views rest dwell_seconds (results ++ [result])
  end.

Definition perform_test_cycle (views : nat) (dwell_seconds : Millis)
  : M (list ViewResult) :=
  managed_driver (view_loop views (seq 1 views) dwell_seconds []).

(** The views [main] counts as failures. *)
Definition failures (results : list ViewResult) : list ViewResult :=
  filter (fun result => truthy (error result) || negb (ads_detected result))
         results.

Definition main : M nat :=
  r <- catch (results <- perform_test_cycle DEFAULT_VIEW_COUNT
                                            DEFAULT_VIEW_DELAY ;;
              ret (Some results))
             (fun exc =>
                if is_webdriver exc then
                  print ("Failed to initialise Edge WebDriver: "
                         ++ Exn_str exc) ;;
                  ret None
                else raise exc) ;;
  match r with
  | None => ret 1
  | Some results =>
      if nonempty (failures results) then
        print ("Completed with " ++ str_of_nat (List.length (failures results))
               ++ " issue(s) detected.") ;;
        ret 2
      else
        print "All views detected Monetag ad activity." ;;
        ret 0
  end.

End Monetag.

(* ================================================================= *)
(** ** [monetag_nav_click_tester] *)

Module NavClick.
Import Monetag.

Definition TOGGLE_ITERATIONS : nat := 16.
Definition POST_CLICK_WAIT : Millis := 2500%N.
Definition POPUP_SETTLE_WAIT : Millis := 3000%N.

Definition NAV_BUTTONS : list (string * Locator) :=
  [ ("Home", (XPATH, "//*[@id='root']/div/div/div/nav/a[1]"));
    ("Games", (XPATH, "//*[@id='root']/div/div/div/nav/a[2]")) ].

(** [NAV_BUTTONS[i]]; the index is always in range. *)
Definition NAV_BUTTONS_at (i : nat) : string * Locator :=
  nth i NAV_BUTTONS ("", (XPATH, "")).

Record ClickResult := {
  iteration : nat;
  clicked_label : string;
  href : string;
  ads_detected : bool;
  both_buttons_visible : bool;
  popup_urls : list string;
  error : option string;
  debug_notes : option string
}.

Definition are_both_buttons_visible (timeout : Millis) : M bool :=
  catch
    (home <- wait_until timeout
               (visibility_of_element_located (snd (NAV_BUTTONS_at 0))) ;;
     games <- wait_until timeout
                (visibility_of_element_located (snd (NAV_BUTTONS_at 1))) ;;
     d <- is_displayed home ;;
     if d : bool then is_displayed games else ret false)
    (fun exc => if is_timeout exc then ret false else raise exc).

Definition prepare_main_view (iteration_label : string) : M unit :=
  close_additional_windows ;;
  dismiss_initial_overlay iteration_label.

(** The locals the popup loop updates. *)
Definition PopupState := (list string * bool * list string)%type.

(** [for handle in new_handles: try: ... except ...: ... finally: close]. *)
Fixpoint inspect_popups (label : string) (new_handles : list Handle)
    (st : PopupState) : M PopupState :=
  match new_handles with
  | [] => ret st
  | handle :: rest =>
      let '(popup_urls, ads_detected, debug_notes) := st in
      st' <-
        finally
          (r <- catch
                  (switch_to_window handle ;;
                   u0 <- get_current_url ;;
                   print ("[" ++ label ++ "] Popup window detected: " ++ u0) ;;
                   sleep POPUP_SETTLE_WAIT ;;
                   u <- get_current_url ;;
                   ret (inl u))
                  (fun exc =>
                     if is_webdriver exc then ret (inr exc) else raise exc) ;;
           match r with
           | inr exc =>
               ret (popup_urls, ads_detected,
                    debug_notes ++ [("popup handling error: " ++ Exn_str exc)%string])
           | inl u =>
               r2 <- catch (b <- wait_for_ads 3000%N ;; ret (inl b))
                           (fun exc =>
                              if is_webdriver exc then ret (inr exc)
                              else raise exc) ;;
               match r2 with
               | inl true =>
                   ret (popup_urls ++ [u], true,
                        debug_notes ++ ["popup contained Monetag elements"])
               | inl false => ret (popup_urls ++ [u], ads_detected, debug_notes)
               | inr exc =>
                   ret (popup_urls ++ [u], ads_detected,
                        debug_notes
                          ++ [("popup handling error: " ++ Exn_str exc)%string])
               end
           end)
          (suppress close) ;;
      inspect_popups label rest st'
  end.

(** The body of the [try] of one iteration, up to the record it appends. *)
Definition navigation_attempt (main_handle : Handle) (iteration : nat)
    (target : string * Locator) : M ClickResult :=
  let label := ("iteration " ++ str_of_nat iteration)%string in
  let '(target_label, target_locator) := target in
  print ("[" ++ label ++ "] Clicking '" ++ target_label ++ "'.") ;;
  button <- wait_until 5000%N (element_to_be_clickable target_locator) ;;
  href_attr <- get_attribute button "href" ;;
  let href := or_else href_attr "" in
  before_handles <- get_window_handles ;;
  click button ;;
  sleep POST_CLICK_WAIT ;;
  both_buttons_visible <- are_both_buttons_visible 2500%N ;;
  print ("[" ++ label ++ "] Both buttons visible after click: "
         ++ str_of_bool both_buttons_visible ++ ".") ;;
  after_handles <- get_window_handles ;;
  new_handles <- list_of_set (new_windows after_handles before_handles) ;;
  let debug_notes :=
    if nonempty new_handles
    then [("new handles: " ++ str_of_nat (List.length new_handles))%string] else [] in
  st <- inspect_popups label new_handles ([], false, debug_notes) ;;
  let '(popup_urls, ads_detected, debug_notes) := st in
  suppress (switch_to_window main_handle) ;;
  vn <-
    (if nonempty new_handles then
       get HOME_URL ;;
       sleep 1200%N ;;
       prepare_main_view label ;;
       v <- are_both_buttons_visible 4000%N ;;
       ret (v, debug_notes
               ++ ["returned to main handle after popup(s)";
                   ("buttons visible after reload: " ++ str_of_bool v)%string])
     else ret (both_buttons_visible, debug_notes)) ;;
  let '(both_buttons_visible, debug_notes) := vn in
  vn <-
    (if negb both_buttons_visible then
       dismiss_initial_overlay label ;;
       v <- are_both_buttons_visible 3000%N ;;
       ret (v, debug_notes
               ++ ["buttons missing, retrying overlay dismissal";
                   ("buttons visible after overlay retry: " ++ str_of_bool v)%string])
     else ret (both_buttons_visible, debug_notes)) ;;
  let '(both_buttons_visible, debug_notes) := vn in
  let ads_detected := ads_detected || negb both_buttons_visible in
  an <-
    (if negb ads_detected then
       found <- wait_for_ads 2000%N ;;
       if found : bool
       then ret (true, debug_notes ++ ["Monetag elements detected on main page"])
       else ret (ads_detected, debug_notes)
     else ret (ads_detected, debug_notes)) ;;
  let '(ads_detected, debug_notes) := an in
  ret {| iteration := iteration;
         clicked_label := target_label;
         href := href;
         ads_detected := ads_detected;
         both_buttons_visible := both_buttons_visible;
         popup_urls := popup_urls;
         error := None;
         debug_notes :=
           if nonempty debug_notes then Some (join "; " debug_notes)
           else None |}.

(** The iterations of [exercise_navigation]; [except Exception] records the
    failure and goes back to the home page. *)
Fixpoint navigation_loop (main_handle : Handle) (iterations : list nat)
    (button_index : nat) (results : list ClickResult)
  : M (list ClickResult) :=
  match iterations with
  | [] => ret results
  | iteration :: rest =>
      let label := ("iteration " ++ str_of_nat iteration)%string in
      let target := NAV_BUTTONS_at button_index in
      let button_index := (button_index + 1) mod (List.length NAV_BUTTONS) in
      results <-
        catch
          (r <- navigation_attempt main_handle iteration target ;;
           print (if ads_detected r
                  then ("[+] " ++ label ++ ": ad activity observed (clicked='"
                        ++ clicked_label r ++ "', popups="
                        ++ str_of_nat (List.length (popup_urls r)) ++ ")")%string
                  else ("[-] " ++ label ++ ": no ad activity (clicked='"
                        ++ clicked_label r ++ "')")%string) ;;
           ret (results ++ [r]))
          (fun exc =>
             print ("[!] " ++ label ++ ": error -> " ++ Exn_str exc) ;;
             suppress (switch_to_window main_handle) ;;
             get HOME_URL ;;
             sleep 1500%N ;;
             prepare_main_view (label ++ " recovery") ;;
             ret (results ++
                  [ {| iteration := iteration;
                       clicked_label := "<unknown>";
                       href := "";
                       ads_detected := false;
                       both_buttons_visible := false;
                       popup_urls := [];
                       error := Some (Exn_str exc);
                       debug_notes := None |} ])) ;;
      navigation_loop main_handle rest button_index results
  end.

Definition exercise_navigation (iterations : nat) : M (list ClickResult) :=
  managed_driver
    (get HOME_URL ;;
     sleep 1500%N ;;
     main_handle <- current_window_handle ;;
     prepare_main_view "initial load" ;;
     navigation_loop main_handle (seq 1 iterations) 0 []).

Definition main : M nat :=
  r <- catch (results <- exercise_navigation TOGGLE_ITERATIONS ;;
              ret (Some results))
             (fun exc =>
                if is_webdriver exc then
                  print ("Failed to initialise Edge WebDriver: "
                         ++ Exn_str exc) ;;
                  ret None
                else raise exc) ;;
  match r with
  | None => ret 1
  | Some results =>
      let issues := filter (fun result => truthy (error result)) results in
      (if nonempty issues then
         print ("Completed with " ++ str_of_nat (List.length issues)
                ++ " error(s).")
       else
         let detected := filter ads_detected results in
         print (str_of_nat (List.length detected) ++ " of "
                ++ str_of_nat (List.length results)
                ++ " interactions surfaced Monetag ad activity.")) ;;
      ret 0
  end.

End NavClick.

(* ================================================================= *)
(** ** [monetag_play_button_tester] *)

Module PlayButton.
Import Monetag.

Definition INITIAL_WAIT : Millis := 5000%N.
Definition RETRY_WAIT : Millis := 7000%N.
Definition POST_CLICK_WAIT : Millis := 3500%N.
Definition POPUP_SETTLE_WAIT : Millis := 3500%N.
Definition ATTEMPTS : nat := 12.

Definition HOME_LOCATORS : list Locator :=
  [ (XPATH, "//*[@id='root']/div/div/div/nav/a[1]");
    (XPATH, "/html/body/div/div/div/div/nav/a[1]");
    (CSS_SELECTOR, "nav[aria-label='Main navigation'] a[href='/']") ].

Definition GAMES_LOCATORS : list Locator :=
  [ (XPATH, "//*[@id='root']/div/div/div/nav/a[2]");
    (XPATH, "/html/body/div/div/div/div/nav/a[2]");
    (CSS_SELECTOR, "nav[aria-label='Main navigation'] a[href='/game']");
    (LINK_TEXT, "Games") ].

Record PlayAttemptResult := {
  attempt : nat;
  href : string;
  ads_detected : bool;
  buttons_visible : bool;
  popup_urls : list string;
  error : option string;
  debug_notes : option string
}.

Fixpoint find_first_visible (locators : list Locator)
  : M (option WebElement) :=
  match locators with
  | [] => ret None
  | (by_, value) :: rest =>
      r <- catch
             (element <- wait_until 1500%N
                           (presence_of_element_located (by_, value)) ;;
              d <- is_displayed element ;;
              ret (if d : bool then Some element else None))
             (fun exc => if is_webdriver exc then ret None else raise exc) ;;
      match r with
      | Some element => ret (Some element)
      | None => find_first_visible rest
      end
  end.

(** [while time.time() < deadline: ...; time.sleep(0.2)].  Every round
    that does not return sleeps 0.2 s, so [fuel] rounds are enough once
    [deadline < now + 200 * fuel]. *)
Fixpoint are_nav_buttons_visible_loop (fuel : nat) (deadline : Millis)
  : M bool :=
  t <- time_time ;;
  if (t <? deadline)%N then
    match fuel with
    | O => ret false
    | S fuel' =>
        home <- find_first_visible HOME_LOCATORS ;;
        games <- find_first_visible GAMES_LOCATORS ;;
        match home, games with
        | Some _, Some _ => ret true
        | _, _ =>
            sleep 200%N ;;
            are_nav_buttons_visible_loop fuel' deadline
        end
    end
  else ret false.

Definition are_nav_buttons_visible (timeout : Millis) : M bool :=
  t <- time_time ;;
  let deadline := (t + timeout)%N in
  are_nav_buttons_visible_loop (S (N.to_nat (timeout / 200))) deadline.

Definition prepare_main_view (context_label : string) : M unit :=
  close_additional_windows ;;
  dismiss_initial_overlay context_label.

(** The locals the popup loop updates. *)
Definition PopupState := (list string * bool * list string)%type.

Fixpoint inspect_popups (label : string) (new_handles : list Handle)
    (st : PopupState) : M PopupState :=
  match new_handles with
  | [] => ret st
  | handle :: rest =>
      let '(popup_urls, ads_detected, debug) := st in
      st' <-
        finally
          (r <- catch
                  (switch_to_window handle ;;
                   u0 <- get_current_url ;;
                   print ("[" ++ label ++ "] Popup opened: " ++ u0) ;;
                   sleep POPUP_SETTLE_WAIT ;;
                   u <- get_current_url ;;
                   ret (inl u))
                  (fun exc =>
                     if is_webdriver exc then ret (inr exc) else raise exc) ;;
           match r with
           | inr exc =>
               ret (popup_urls, ads_detected,
                    debug ++ [("popup error: " ++ Exn_str exc)%string])
           | inl u =>
               r2 <- catch (b <- wait_for_ads 3000%N ;; ret (inl b))
                           (fun exc =>
                              if is_webdriver exc then ret (inr exc)
                              else raise exc) ;;
               match r2 with
               | inl true =>
                   ret (popup_urls ++ [u], true,
                        debug ++ ["Monetag elements detected in popup"])
               | inl false => ret (popup_urls ++ [u], ads_detected, debug)
               | inr exc =>
                   ret (popup_urls ++ [u], ads_detected,
                        debug ++ [("popup error: " ++ Exn_str exc)%string])
               end
           end)
          (suppress close) ;;
      inspect_popups label rest st'
  end.

(** Lines 100-141 of [click_games_button]: the search for the button, the
    click and what follows it, up to the second enumeration of the
    windows.  It yields the locals the rest of the function goes on with,
    [before_handles] and [after_handles] last, or the [TimeoutException]
    the [except] clause of line 105 has caught. *)
Definition click_and_observe (attempt : nat)
  : M (string * list string * bool * list Handle * list Handle + Exn) :=
  let label := ("attempt " ++ str_of_nat attempt)%string in
  r <- catch
         (button <- find_first_visible GAMES_LOCATORS ;;
          match button with
          | None =>
              raise (Explicit Timeout
                       "Games button not visible via known locators.")
          | Some button =>
              wait_until_enabled 2500%N button ;;
              ret (inl button)
          end)
         (fun exc => if is_timeout exc then ret (inr exc) else raise exc) ;;
  match r with
  | inr exc => ret (inr exc)
  | inl button =>
      href_attr <- get_attribute button "href" ;;
      let href := or_else href_attr "" in
      suppress (execute_script (scrollIntoView (el_by button)) ;;
                sleep 200%N) ;;
      before_handles <- get_window_handles ;;
      print ("[" ++ label ++ "] Clicking Games button -> "
             ++ (if truthy (Some href) then href else "<no href>")) ;;
      debug <-
        catch (click button ;; ret [])
              (fun exc =>
                 if is_webdriver exc then
                   execute_script (js_click (el_by button)) ;;
                   ret [("native click failed: " ++ Exn_str exc
                         ++ "; using JS click")%string]
                 else raise exc) ;;
      sleep POST_CLICK_WAIT ;;
      dismiss_initial_overlay (label ++ " post-click") ;;
      both_visible <- are_nav_buttons_visible 3000%N ;;
      print ("[" ++ label ++ "] Both buttons visible after click: "
             ++ str_of_bool both_visible) ;;
      after_handles <- get_window_handles ;;
      ret (inl (href, debug, both_visible, before_handles, after_handles))
  end.

(** Lines 142-181: the popups, the return to the main window and the
    record. *)
Definition record_attempt (attempt : nat) (main_handle : Handle)
    (href : string) (debug : list string) (both_visible : bool)
    (before_handles after_handles : list Handle) : M PlayAttemptResult :=
  let label := ("attempt " ++ str_of_nat attempt)%string in
  new_handles <- list_of_set (new_windows after_handles before_handles) ;;
  let debug :=
    if nonempty new_handles
    then debug ++ [("popup handles: "
                    ++ str_of_nat (List.length new_handles))%string]
    else debug in
  st <- inspect_popups label new_handles ([], false, debug) ;;
  let '(popup_urls, ads_detected, debug) := st in
  suppress (switch_to_window main_handle) ;;
  let debug :=
    if nonempty new_handles
    then debug ++ ["returned to main window after closing popup(s)"]
    else debug in
  let debug :=
    if negb both_visible
    then debug ++ ["nav buttons missing; likely overlay/ad"]
    else debug in
  an <-
    (if negb ads_detected then
       found <- wait_for_ads 2000%N ;;
       if found : bool
       then ret (true, debug ++ ["Monetag elements detected on main page"])
       else ret (ads_detected, debug)
     else ret (ads_detected, debug)) ;;
  let '(ads_detected, debug) := an in
  ret {| attempt := attempt;
         href := href;
         ads_detected :=
           ads_detected || nonempty new_handles || negb both_visible;
         buttons_visible := both_visible;
         popup_urls := popup_urls;
         error := None;
         debug_notes :=
           if nonempty debug then Some (join "; " debug) else None |}.

Definition click_games_button (attempt : nat) (main_handle : Handle)
  : M PlayAttemptResult :=
  r <- click_and_observe attempt ;;
  match r with
  | inr exc =>
      ret {| attempt := attempt;
             href := "";
             ads_detected := false;
             buttons_visible := false;
             popup_urls := [];
             error := Some ("Games button not clickable: " ++ Exn_str exc)%string;
             debug_notes := None |}
  | inl (href, debug, both_visible, before_handles, after_handles) =>
      record_attempt attempt main_handle href debug both_visible
        before_handles after_handles
  end.

Fixpoint attempts_loop (main_handle : Handle) (attempts : list nat)
    (results : list PlayAttemptResult) : M (list PlayAttemptResult) :=
  match attempts with
  | [] => ret results
  | attempt :: rest =>
      (if (1 <? attempt)%nat then
         print ("[cycle] Waiting 7.0 seconds before next click.") ;;
         sleep RETRY_WAIT
       else ret tt) ;;
      prepare_main_view ("attempt " ++ str_of_nat attempt ++ " pre-click") ;;
      result <- click_games_button attempt main_handle ;;
      (if truthy (error result) then
         print ("[!] attempt " ++ str_of_nat attempt ++ ": error -> "
                ++ or_else (error result) "")
       else
         print ("[+] attempt " ++ str_of_nat attempt ++ ": "
                ++ (if ads_detected result then "ads detected" else "no ads")
                ++ " (buttons_visible="
                ++ str_of_bool (buttons_visible result) ++ ", popups="
                ++ str_of_nat (List.length (popup_urls result)) ++ ")")) ;;
      get HOME_URL ;;
      sleep 1000%N ;;
      prepare_main_view ("attempt " ++ str_of_nat attempt ++ " post-home") ;;
      attempts_loop main_handle rest (results ++ [result])
  end.

Definition exercise_games_button (attempts : nat)
  : M (list PlayAttemptResult) :=
  managed_driver
    (get HOME_URL ;;
     sleep 1500%N ;;
     prepare_main_view "initial load" ;;
     print "[setup] Waiting 5.0 seconds before first click." ;;
     sleep INITIAL_WAIT ;;
     main_handle <- current_window_handle ;;
     attempts_loop main_handle (seq 1 attempts) []).

Definition main : M nat :=
  r <- catch (results <- exercise_games_button ATTEMPTS ;;
              ret (Some results))
             (fun exc =>
                if is_webdriver exc then
                  print ("Failed to initialise Edge WebDriver: "
                         ++ Exn_str exc) ;;
                  ret None
                else raise exc) ;;
  match r with
  | None => ret 1
  | Some results =>
      let ads := filter ads_detected results in
      let errors := filter (fun r => truthy (error r)) results in
      print ("Completed " ++ str_of_nat (List.length results)
             ++ " attempts: " ++ str_of_nat (List.length ads)
             ++ " with ad activity, " ++ str_of_nat (List.length errors)
             ++ " errors.") ;;
      ret 0
  end.

End PlayButton.

(* ================================================================= *)
(** ** Reading the trace *)

(** The driver commands of a trace, in order, with their outcome. *)
Definition calls (t : list Event) : list (Cmd * option Exn) :=
  flat_map (fun ev => match ev with Issued c r => [(c, r)] | _ => [] end) t.

(** The handles [switch_to.window] was called with, successful or not. *)
Definition switch_targets (t : list Event) : list Handle :=
  flat_map (fun ev => match ev with
                      | Issued (CmdSwitchTo h) _ => [h]
                      | _ => []
                      end) t.

(** The addresses [driver.get] was called with. *)
Definition loads (t : list Event) : list string :=
  flat_map (fun ev => match ev with
                      | Issued (CmdGet u) _ => [u]
                      | _ => []
                      end) t.

(** How often [driver.close] was called. *)
Definition closes (t : list Event) : nat :=
  List.length (filter (fun ev => match ev with
                                 | Issued CmdClose _ => true
                                 | _ => false
                                 end) t).

(** The locators [find_element] was called with. *)
Definition lookups (t : list Event) : list Locator :=
  flat_map (fun ev => match ev with
                      | Issued (CmdFindElement l) _ => [l]
                      | _ => []
                      end) t.

(** The waits of a trace: what was waited for, and for how long at most. *)
Definition waits (t : list Event) : list (Cond * Millis) :=
  flat_map (fun ev => match ev with
                      | Issued (CmdWait c timeout) _ => [(c, timeout)]
                      | _ => []
                      end) t.

(** How many of the calls are waits that ended in a timeout. *)
Definition is_timed_out_wait (c : Cmd * option Exn) : bool :=
  match c with
  | (CmdWait _ _, Some TimeoutException) => true
  | _ => false
  end.

Definition timeouts (cs : list (Cmd * option Exn)) : nat :=
  List.length (filter is_timed_out_wait cs).

(** The call of a wait for [cond l'] that timed out. *)
Definition timed_out (cond : Locator -> Cond) (timeout : Millis)
    (l' : Locator) : Cmd * option Exn :=
  (CmdWait (cond l') timeout, Some TimeoutException).

(** The descriptor the detector computes for an element, its test, and
    the matches a list of tags of one kind contributes. *)
Definition descriptor (env : Env) (e : WebElement) : string :=
  lowercase env
    (if truthy (el_attr e "src") then or_else (el_attr e "src") ""
     else or_else (el_attr e "outerHTML") "").

Definition is_ad (d : string) : bool :=
  existsb (fun keyword => contains keyword d) Edge.ad_keywords.

Definition ad_matches (env : Env) (kind : string) (tags : list WebElement)
  : list (string * string) :=
  map (fun e => (kind, take_chars 160 (descriptor env e)))
      (filter (fun e => is_ad (descriptor env e)) tags).

Definition scripts_of (p : Page) : list WebElement :=
  matches p (TAG_NAME, "script").

Definition iframes_of (p : Page) : list WebElement :=
  matches p (TAG_NAME, "iframe").

(** What the detector records on the page [p]. *)
Definition detected (env : Env) (p : Page) : list (string * string) :=
  ad_matches env "script" (scripts_of p)
  ++ ad_matches env "iframe" (iframes_of p).


(** A view [monetag_ad_tester.main] does not count as a failure. *)
Definition passed (result : Monetag.ViewResult) : bool :=
  negb (truthy (Monetag.error result)) && Monetag.ads_detected result.

(** The value a run returned, [d] when it raised. *)
Definition returned {A} (d : A) (run : Outcome A * World) : A :=
  match fst run with Normal a => a | Raise _ => d end.


Definition play_failure (attempt : nat) (exc : Exn)
  : PlayButton.PlayAttemptResult :=
  {| PlayButton.attempt := attempt;
     PlayButton.href := "";
     PlayButton.ads_detected := false;
     PlayButton.buttons_visible := false;
     PlayButton.popup_urls := [];
     PlayButton.error :=
       Some ("Games button not clickable: " ++ Exn_str exc)%string;
     PlayButton.debug_notes := None |}.

(** The two failure records of the play-button tester. *)
Definition is_play_failure (r : PlayButton.PlayAttemptResult) : Prop :=
  r = play_failure (PlayButton.attempt r)
        (Explicit Timeout "Games button not visible via known locators.") \/
  r = play_failure (PlayButton.attempt r) TimeoutException.



(** Conditions on the environment. *)
Definition Quiet (env : Env) : Prop := forall n, opens env n = [].
Definition Reliable (env : Env) : Prop := forall n, fault env n = None.

(** The focused window exists. *)
Definition focused (w : World) : Prop :=
  In_b (focus w) (window_handles w) = true.

(* ----------------------------------------------------------------- *)
(** *** Notions used in the proofs *)

(** The handles that survive the loop over the snapshot [hs]. *)
Definition survives (main_handle : Handle) (hs : list Handle) (x : Handle)
  : bool :=
  negb (In_b x hs) || String.eqb x main_handle.

(** No command numbered from [a] up to [b] failed. *)
Definition fault_free (env : Env) (a b : nat) : Prop :=
  a <= b /\ forall n, a <= n < b -> fault env n = None.

(** What the world is after a command that left the windows alone. *)
Definition moved (env : Env) (w w1 : World) (ev : Event) : Prop :=
  window_handles w1 = window_handles w ++ opens env (tick w) /\
  focus w1 = focus w /\
  tick w1 = S (tick w) /\
  trace w1 = trace w ++ [ev].

(** Whether [l] finds an element on [p]. *)
Definition present (p : Page) (l : Locator) : bool :=
  match cond_holds p (presence_of_element_located l) with
  | Some _ => true
  | None => false
  end.

(** The locators [ls] are present on no page of the session. *)
Definition all_absent (env : Env) (ls : list Locator) : Prop :=
  forall n l', In l' ls -> present (page env n) l' = false.

(** Whatever the environment does, a command returns or raises a Selenium
    exception, and adds itself to the trace. *)
Definition steps (env : Env) (w : World) {A} (r : Outcome A) (w1 : World)
    (c : Cmd) : Prop :=
  trace w1 = trace w ++ [Issued c (exn_of r)] /\
  tick w1 = S (tick w) /\
  forall e, r = Raise e -> is_webdriver e = true.

(** No window opens by itself from command [k] on. *)
Definition Quiet_from (env : Env) (k : nat) : Prop :=
  forall n, k <= n -> opens env n = [].

(** Iterating a set gives each of its elements, once. *)
Definition SetOrder (env : Env) : Prop :=
  forall s, Permutation (set_order env s) s.

(** The label [dismiss_initial_overlay] prints with. *)
Definition overlay_label (debug_label : string) : string :=
  if nonempty (list_ascii_of_string debug_label)
  then ("[overlay " ++ debug_label ++ "]")%string else "[overlay]".

(** The synthetic click of [dismiss_initial_overlay], lines 122-133: the
    click on the body or, when that failed, the offset click; [false]
    when both failed, where the source returns. *)
Definition synthetic_click (label : string) : M bool :=
  catch
    (body <- find_element (TAG_NAME, "body") ;;
     click body ;;
     sleep 500%N ;;
     ret true)
    (fun exc =>
       if is_webdriver exc then
         print (label ++ " Body click failed: " ++ Exn_str exc
                      ++ "; trying offset click.") ;;
         catch
           (offset_click ;; sleep 500%N ;; ret true)
           (fun nested_exc =>
              if is_webdriver nested_exc then
                print (label ++ " Offset click failed: "
                             ++ Exn_str nested_exc) ;;
                ret false
              else raise nested_exc)
       else raise exc).

(** The world after a line was printed. *)
Definition printed (msg : string) (w : World) : World :=
  {| window_handles := window_handles w; focus := focus w;
     tick := tick w; now := now w;
     trace := trace w ++ [Printed msg] |}.

(** The world after a line was logged. *)
Definition logged (lvl : Level) (msg : string) (w : World) : World :=
  {| window_handles := window_handles w; focus := focus w;
     tick := tick w; now := now w;
     trace := trace w ++ [Logged lvl msg] |}.

(** Every event but a line logged as an error. *)
Definition not_error (ev : Event) : bool :=
  match ev with
  | Logged ERROR _ => false
  | _ => true
  end.

(** The lines the two guarded steps of an iteration of
    [run_ad_navigation_test] log for an exception. *)
Definition sushi_card_error (e : Exn) : string :=
  if is_timeout e then "Timed out waiting for Sushi recipe card; continuing"
  else "Error while clicking Sushi recipe card: " ++ Exn_str e.

Definition favourite_error (e : Exn) : string :=
  if is_timeout e
  then "Timed out waiting for Sushi favourite button; continuing"
  else "Error while clicking Sushi favourite button: " ++ Exn_str e.

(** How a guarded step ends: the click [first] failed, and the failure is
    logged as an error; or it went through and, after the pause and the
    popup dismisser, the reconciliation returned a handle, or failed,
    which is logged as an error, or found no window at all. *)
Definition step_ends (first : M unit) (pause : Millis) (line : Exn -> string)
    (main_handle : Handle) (env : Env) (w : World) (r : Outcome Handle)
    (w' : World) : Prop :=
  (exists e w1,
      first env w = (Raise e, w1) /\ is_webdriver e = true /\
      r = Normal main_handle /\ w' = logged ERROR (line e) w1) \/
  (exists w1 b w3,
      first env w = (Normal tt, w1) /\
      Edge.close_ad_popup_if_present env (snd (sleep pause env w1))
      = (Normal b, w3) /\
      ((exists handle,
           Edge.close_unexpected_windows main_handle env w3
           = (Normal handle, w') /\
           r = Normal handle) \/
       (exists e w4,
           Edge.close_unexpected_windows main_handle env w3 = (Raise e, w4) /\
           is_webdriver e = true /\
           r = Normal main_handle /\ w' = logged ERROR (line e) w4) \/
       (Edge.close_unexpected_windows main_handle env w3
        = (Raise IndexError, w') /\
        r = Raise IndexError))).

(** No window has gone. *)
Definition grows (w w' : World) : Prop :=
  incl (window_handles w) (window_handles w').

(** The marks a computation leaves in the trace. *)
Record marks := {
  m_switches : list Handle;
  m_loads : list string;
  m_lookups : list Locator
}.

Definition left_marks (w w' : World) (m : marks) : Prop :=
  switch_targets (trace w') = switch_targets (trace w) ++ m_switches m /\
  loads (trace w') = loads (trace w) ++ m_loads m /\
  lookups (trace w') = lookups (trace w) ++ m_lookups m.

(** In a quiet browser the commands addressed to the page leave the
    windows and the focus as they are. *)
Definition same_windows (w w1 : World) : Prop :=
  window_handles w1 = window_handles w /\ focus w1 = focus w.

(** The computation raises nothing but exceptions of Selenium. *)
Definition wd {A} (c : M A) : Prop :=
  forall env w e w', c env w = (Raise e, w') -> is_webdriver e = true.

(** The computation returns, whatever the environment does, and what it
    returns is in [P]. *)
Definition returns {A} (P : A -> Prop) (c : M A) : Prop :=
  forall env w, exists a w', c env w = (Normal a, w') /\ P a.

(** However the computation ends, the worlds before and after it are
    related by [R]. *)
Definition keeps (R : World -> World -> Prop) {A} (c : M A) : Prop :=
  forall env w r w', c env w = (r, w') -> R w w'.

(** Relations between the world before and the world after that hold
    across any number of steps. *)
Class Cumulative (R : World -> World -> Prop) : Prop := {
  cumulative_refl : forall w, R w w;
  cumulative_trans : forall a b c, R a b -> R b c -> R a c
}.

(** The trace has grown by events that all pass [ok]. *)
Definition adds (ok : Event -> bool) (w w' : World) : Prop :=
  exists added, trace w' = trace w ++ added /\ forallb ok added = true.

(** The clock has not gone back. *)
Definition later (w w' : World) : Prop := (now w <= now w')%N.

(** Events that are no driver command picked by [pick]. *)
Definition avoids (pick : Cmd -> bool) (ev : Event) : bool :=
  match ev with
  | Issued c _ => negb (pick c)
  | _ => true
  end.

Definition is_launch (c : Cmd) : bool :=
  match c with CmdLaunch => true | _ => false end.

Definition is_quit (c : Cmd) : bool :=
  match c with CmdQuit => true | _ => false end.

Definition is_refresh (c : Cmd) : bool :=
  match c with CmdRefresh => true | _ => false end.

(** Every event but a click that went through. *)
Definition unclicked (ev : Event) : bool :=
  match ev with
  | Issued (CmdClick _) None => false
  | _ => true
  end.

(** The trace grew by [before], in which no click went through, then by a
    click that did and the line that logs it. *)
Definition ends_in_click (w w' : World) : Prop :=
  exists before l msg,
    trace w' = trace w ++ before ++ [Issued (CmdClick l) None; Logged INFO msg] /\
    forallb unclicked before = true.

(** Events that are no driver command, or one picked by [pick]. *)
Definition only (pick : Cmd -> bool) (ev : Event) : bool :=
  match ev with
  | Issued c _ => pick c
  | _ => true
  end.

(** The commands of the search for a button. *)
Definition is_search (c : Cmd) : bool :=
  match c with
  | CmdWait _ _ | CmdIsDisplayed _ => true
  | _ => false
  end.

(** The commands of the scan for ad tags. *)
Definition is_scan (c : Cmd) : bool :=
  match c with
  | CmdFindElements _ | CmdGetAttribute _ _ => true
  | _ => false
  end.

(** The candidates that are set and not empty, in their order. *)
Definition given (candidates : list (option string)) : list string :=
  flat_map (fun candidate =>
              if truthy candidate then [or_else candidate ""] else [])
           candidates.

(** The candidate [candidate] resolves to [path], where no file is. *)
Definition missing (resolve : string -> Outcome string)
    (path_exists : string -> Outcome bool) (candidate path : string) : Prop :=
  resolve candidate = Normal path /\ path_exists path = Normal false.

(** The warnings for the paths that were passed over. *)
Definition not_found_warnings (paths : list string) : list Event :=
  map (fun path =>
         Logged WARNING ("Configured driver path " ++ path ++ " was not found"))
      paths.

(** The commands that move between windows or close one. *)
Definition is_window_cmd (c : Cmd) : bool :=
  match c with
  | CmdSwitchTo _ | CmdClose => true
  | _ => false
  end.

(** The commands that start or end the session. *)
Definition is_lifecycle (c : Cmd) : bool :=
  is_launch c || is_quit c.

(** The commands that start, end or reload the session. *)
Definition is_session_cmd (c : Cmd) : bool :=
  is_lifecycle c || is_refresh c.

(** How many events of a trace are commands picked by [pick]. *)
Definition count_cmd (pick : Cmd -> bool) (t : list Event) : nat :=
  List.length (filter (fun ev => negb (avoids pick ev)) t).

(** What [find_first_visible] learnt of a locator it went past: the wait
    for its element failed, or [is_displayed] failed on the element, or
    the element is not displayed. *)
Inductive Skipped :=
| NotFound (exc : Exn)
| NotReadable (e : WebElement) (exc : Exn)
| NotDisplayed (e : WebElement).

Definition skipped_events (step : Locator * Skipped) : list Event :=
  match snd step with
  | NotFound exc =>
      [Issued (CmdWait (presence_of_element_located (fst step)) 1500%N)
              (Some exc)]
  | NotReadable e exc =>
      [Issued (CmdWait (presence_of_element_located (fst step)) 1500%N) None;
       Issued (CmdIsDisplayed (el_by e)) (Some exc)]
  | NotDisplayed e =>
      [Issued (CmdWait (presence_of_element_located (fst step)) 1500%N) None;
       Issued (CmdIsDisplayed (el_by e)) None]
  end.

Definition skipped_ok (step : Skipped) : Prop :=
  match step with
  | NotFound exc | NotReadable _ exc => is_webdriver exc = true
  | NotDisplayed e => el_displayed e = false
  end.

(** The first match of the first of the locators [ls] whose first match
    on [p] is displayed. *)
Fixpoint first_visible (p : Page) (ls : list Locator) : option WebElement :=
  match ls with
  | [] => None
  | l :: rest =>
      match matches p l with
      | e :: _ => if el_displayed e then Some e else first_visible p rest
      | [] => first_visible p rest
      end
  end.

(** The line [perform_test_cycle] prints for a result. *)
Definition view_line (result : Monetag.ViewResult) : string :=
  if truthy (Monetag.error result) then
    "[!] View " ++ str_of_nat (Monetag.number result) ++ ": error -> "
    ++ or_else (Monetag.error result) ""
  else
    "[+] View " ++ str_of_nat (Monetag.number result) ++ ": ads "
    ++ (if Monetag.ads_detected result then "found" else "missing").

(** What a view leaves in the trace of a cycle of [views] views: the
    events [block] of the view itself, the line printed for its result
    and, unless it is the last view, the reload. *)
Definition view_events (views : nat)
    (view : Monetag.ViewResult * list Event) : list Event :=
  snd view
  ++ [Printed (view_line (fst view))]
  ++ (if (Monetag.number (fst view) =? views)%nat then []
      else [Issued CmdRefresh None]).

(** What a cycle that returned leaves in the trace. *)
Definition cycle_events (views : nat) (results : list Monetag.ViewResult)
    (blocks : list (list Event)) : list Event :=
  [Issued CmdLaunch None]
  ++ List.concat (map (view_events views) (combine results blocks))
  ++ [Issued CmdQuit None].

(** What a managed session leaves in the trace: a failed launch and
    nothing else, or a launch, the commands of the body, none of which
    starts or ends a session, and one [quit]. *)
Definition session_bracket (w w' : World) : Prop :=
  (exists e, trace w' = trace w ++ [Issued CmdLaunch (Some e)]) \/
  (exists added q,
      trace w' = trace w ++ Issued CmdLaunch None :: added
                         ++ [Issued CmdQuit q] /\
      forallb (avoids is_lifecycle) added = true).

(** Relations that hold across everything done within a session: any
    command but those that start, end or reload it, sleeping and
    printing. *)
Class InPage (R : World -> World -> Prop) : Prop := {
  in_page_cumulative :: Cumulative R;
  in_page_command :
    forall A c (sem : Page -> World -> Outcome A * list Handle * Handle * Millis),
      is_session_cmd c = false -> keeps R (command c sem);
  in_page_sleep : forall d, keeps R (sleep d);
  in_page_print : forall msg, keeps R (print msg);
  in_page_logger : forall lvl msg, keeps R (logger lvl msg)
}.

(* ================================================================= *)
(** ** Example sessions *)

Definition blank_page : Page :=
  {| matches := fun _ => []; current_url := "about:blank"; title := "" |}.

(** Nothing fails, nothing opens, the page is empty; sets are iterated in
    the order of the enumeration and only the ASCII letters have a case. *)
Definition calm : Env :=
  {| fault := fun _ => None;
     opens := fun _ => [];
     page := fun _ => blank_page;
     latency := fun _ => 0%N;
     set_order := fun s => s;
     lowercase := lower |}.

(** [env], but command [n] fails with [e]. *)
Definition failing_at (n : nat) (e : SessionError) (env : Env) : Env :=
  {| fault := fun k => if (k =? n)%nat then Some e else fault env k;
     opens := opens env;
     page := page env;
     latency := latency env;
     set_order := set_order env;
     lowercase := lowercase env |}.

(** [env], but the windows [hs] open during command [n]. *)
Definition opening_at (n : nat) (hs : list Handle) (env : Env) : Env :=
  {| fault := fault env;
     opens := fun k => if (k =? n)%nat then hs else opens env k;
     page := page env;
     latency := latency env;
     set_order := set_order env;
     lowercase := lowercase env |}.

(** [env], but a set is iterated from its last element to its first. *)
Definition reversing (env : Env) : Env :=
  {| fault := fault env;
     opens := opens env;
     page := page env;
     latency := latency env;
     set_order := fun s => rev (set_order env s);
     lowercase := lowercase env |}.

(** The Kelvin sign, U+212A, in UTF-8. *)
Definition kelvin_sign : string :=
  String (ascii_of_nat 226)
    (String (ascii_of_nat 132) (String (ascii_of_nat 170) EmptyString)).

(** [s] with every Kelvin sign replaced by the letter k, its lower case. *)
Fixpoint fold_kelvin (s : string) : string :=
  match s with
  | EmptyString => EmptyString
  | String a r =>
      match r with
      | String b (String c rest) =>
          if ((nat_of_ascii a =? 226)%nat && (nat_of_ascii b =? 132)%nat
              && (nat_of_ascii c =? 170)%nat)%bool
          then String "k" (fold_kelvin rest)
          else String a (fold_kelvin r)
      | _ => String a (fold_kelvin r)
      end
  end.

(** [env], but the interpreter knows the lower case of the Kelvin sign. *)
Definition kelvin_aware (env : Env) : Env :=
  {| fault := fault env;
     opens := opens env;
     page := page env;
     latency := latency env;
     set_order := set_order env;
     lowercase := fun s => lower (fold_kelvin s) |}.

(** [env], but every command sees the page [p]. *)
Definition showing (p : Page) (env : Env) : Env :=
  {| fault := fault env;
     opens := opens env;
     page := fun _ => p;
     latency := latency env;
     set_order := set_order env;
     lowercase := lowercase env |}.

(** A displayed and enabled element found by [l], without attributes. *)
Definition button_at (l : Locator) : WebElement :=
  {| el_by := l; el_attr := fun _ => None;
     el_displayed := true; el_enabled := true |}.

(** A page where [l] finds one button and no other locator finds anything. *)
Definition page_with_button (l : Locator) : Page :=
  {| matches := fun l' => if Locator_eqb l' l then [button_at l] else [];
     current_url := Monetag.HOME_URL;
     title := "" |}.

(** A page where [l] finds one element, displayed but not enabled. *)
Definition page_with_disabled (l : Locator) : Page :=
  {| matches := fun l' =>
       if Locator_eqb l' l
       then [ {| el_by := l; el_attr := fun _ => None;
                 el_displayed := true; el_enabled := false |} ]
       else [];
     current_url := Monetag.HOME_URL;
     title := "" |}.

(** An element with the attribute [src] only. *)
Definition tag_with_src (l : Locator) (src : string) : WebElement :=
  {| el_by := l;
     el_attr := fun name => if String.eqb name "src" then Some src else None;
     el_displayed := true; el_enabled := true |}.

(** A page whose only script or iframe is an iframe loaded from [src]. *)
Definition page_with_iframe (src : string) : Page :=
  {| matches := fun l =>
       if Locator_eqb l (TAG_NAME, "iframe")
       then [tag_with_src (TAG_NAME, "iframe") src] else [];
     current_url := "https://sweetmuse.shop/";
     title := "" |}.

(** A session whose page holds the first of the watched ad elements. *)
Definition with_ads : Env :=
  showing (page_with_button (nth 0 Monetag.AD_IDENTIFIERS (XPATH, ""))) calm.

(** A session whose driver cannot be launched. *)
Definition no_driver : Env := failing_at 0 OtherWebDriverError calm.

(** A page that shows the two navigation buttons and nothing else. *)
Definition page_with_nav : Page :=
  {| matches := fun l =>
       if Locator_eqb l (snd (NavClick.NAV_BUTTONS_at 0))
          || Locator_eqb l (snd (NavClick.NAV_BUTTONS_at 1))
       then [button_at l] else [];
     current_url := Monetag.HOME_URL;
     title := "" |}.

Definition with_nav : Env := showing page_with_nav calm.


Definition no_attempt : PlayButton.PlayAttemptResult :=
  {| PlayButton.attempt := 0; PlayButton.href := "";
     PlayButton.ads_detected := true; PlayButton.buttons_visible := false;
     PlayButton.popup_urls := []; PlayButton.error := Some "no result";
     PlayButton.debug_notes := None |}.

(** A fresh session on the windows [hs], the focus on [f]. *)
Definition session (hs : list Handle) (f : Handle) : World :=
  {| window_handles := hs; focus := f; tick := 0; now := 0%N; trace := [] |}.

Definition one_tab : World := session ["main"] "main".

(** A session where a window opens while the first pass of the overlay
    dismisser waits, and two more during its click on the body; sets are
    iterated backwards. *)
Definition with_popups : Env :=
  reversing
    (opening_at 9 ["popup"; "extra"]
       (opening_at 3 ["early"]
          (showing (page_with_button (TAG_NAME, "body")) calm))).

(** The worlds a call of [dismiss_initial_overlay "view 1"] goes through in
    that session: after the handle was read, after the first pass, after
    the address was read, after the snapshot and after the click. *)
Definition popups_w1 : World := snd (current_window_handle with_popups one_tab).
Definition popups_w2 : World :=
  snd (Monetag.click_close_button (overlay_label "view 1")
         Monetag.CLOSE_BUTTON_LOCATORS with_popups popups_w1).
Definition popups_w3 : World := snd (get_current_url with_popups popups_w2).
Definition popups_w4 : World := snd (get_window_handles with_popups popups_w3).
Definition popups_w5 : World :=
  snd (synthetic_click (overlay_label "view 1") with_popups
         (printed (overlay_label "view 1"
                   ++ " Attempting body click to dismiss blocking overlay.")
            popups_w4)).
Definition two_tabs : World := session ["main"; "popup"] "main".
Definition three_tabs : World := session ["main"; "popup1"; "popup2"] "main".

(* ================================================================= *)
(** ** Basic facts *)

Lemma In_b_In h hs : In_b h hs = true <-> In h hs.
Proof.
  unfold In_b. rewrite existsb_exists. split.
  - intros [x [Hx E]]. apply String.eqb_eq in E. now subst.
  - intros H. exists h. split; [assumption | apply String.eqb_refl].
Qed.

Lemma In_b_app h l1 l2 : In_b h (l1 ++ l2) = In_b h l1 || In_b h l2.
Proof. unfold In_b. apply existsb_app. Qed.

Lemma filter_true {A} (l : list A) : filter (fun _ => true) l = l.
Proof. induction l; simpl; congruence. Qed.

Lemma filter_filter {A} (f g : A -> bool) l :
  filter f (filter g l) = filter (fun x => g x && f x) l.
Proof.
  induction l as [|a l IH]; simpl; [reflexivity|].
  destruct (g a); simpl; [destruct (f a)|]; congruence.
Qed.

Lemma filter_eq_NoDup main hs :
  NoDup hs -> In main hs -> filter (fun x => String.eqb x main) hs = [main].
Proof.
  induction 1 as [|a l Hnotin Hnd IH]; intros Hin; [contradiction|].
  simpl. destruct (String.eqb_spec a main) as [->|Hne].
  - f_equal. clear IH Hin Hnd. induction l as [|b l IHl]; [reflexivity|].
    simpl. destruct (String.eqb_spec b main) as [->|_].
    + exfalso. apply Hnotin. now left.
    + apply IHl. intros H. apply Hnotin. now right.
  - apply IH. destruct Hin; [contradiction | assumption].
Qed.

Lemma filter_eq_absent main hs :
  ~ In main hs -> filter (fun x => String.eqb x main) hs = [].
Proof.
  induction hs as [|a l IH]; intros H; [reflexivity|].
  simpl. destruct (String.eqb_spec a main) as [->|_].
  - exfalso. apply H. now left.
  - apply IH. intros H'. apply H. now right.
Qed.

(** What a successful command tells. *)
Lemma switch_normal env h w w1 :
  switch_to_window h env w = (Normal tt, w1) ->
  fault env (tick w) = None /\
  In_b h (window_handles w) = true /\
  window_handles w1 = window_handles w ++ opens env (tick w) /\
  focus w1 = h /\ tick w1 = S (tick w).
Proof.
  unfold switch_to_window, command.
  destruct (fault env (tick w)); [discriminate|].
  destruct (In_b h (window_handles w)); [|discriminate].
  intros H. inversion H; subst; simpl. auto.
Qed.

Lemma close_normal env w w1 :
  close env w = (Normal tt, w1) ->
  fault env (tick w) = None /\
  window_handles w1
    = remove_handle (focus w) (window_handles w) ++ opens env (tick w) /\
  focus w1 = focus w /\ tick w1 = S (tick w).
Proof.
  unfold close, command.
  destruct (fault env (tick w)); [discriminate|].
  destruct (In_b (focus w) (window_handles w)); [|discriminate].
  intros H. inversion H; subst; simpl. auto.
Qed.

Lemma get_title_normal env w t w1 :
  get_title env w = (Normal t, w1) ->
  fault env (tick w) = None /\
  window_handles w1 = window_handles w ++ opens env (tick w) /\
  focus w1 = focus w /\ tick w1 = S (tick w).
Proof.
  unfold get_title, on_page, query, command.
  destruct (fault env (tick w)); [discriminate|].
  destruct (In_b (focus w) (window_handles w)); [|discriminate].
  intros H. inversion H; subst; simpl. auto.
Qed.

Lemma get_window_handles_normal env w hs w1 :
  get_window_handles env w = (Normal hs, w1) ->
  fault env (tick w) = None /\
  hs = window_handles w /\
  window_handles w1 = window_handles w ++ opens env (tick w) /\
  focus w1 = focus w /\ tick w1 = S (tick w) /\
  trace w1 = trace w ++ [Issued CmdWindowHandles None].
Proof.
  unfold get_window_handles, query, command.
  destruct (fault env (tick w)); [discriminate|].
  intros H. inversion H; subst; simpl. auto 6.
Qed.

Lemma logger_run env lvl msg w :
  logger lvl msg env w
  = (Normal tt,
     {| window_handles := window_handles w; focus := focus w;
        tick := tick w; now := now w;
        trace := trace w ++ [Logged lvl msg] |}).
Proof. reflexivity. Qed.

(* ----------------------------------------------------------------- *)
(** *** The closing loop of the Edge tester *)

Section EdgeLoop.

Variable env : Env.
Variable main_handle : Handle.

Lemma survives_nil x : survives main_handle [] x = true.
Proof. reflexivity. Qed.

Lemma survives_cons_main hs x :
  survives main_handle (main_handle :: hs) x = survives main_handle hs x.
Proof.
  unfold survives, In_b. simpl.
  destruct (String.eqb_spec x main_handle) as [->|_]; simpl.
  - now rewrite !orb_true_r.
  - reflexivity.
Qed.

Lemma survives_cons_other h hs x :
  String.eqb h main_handle = false ->
  survives main_handle (h :: hs) x = negb (String.eqb h x) && survives main_handle hs x.
Proof.
  intros Hne. unfold survives, In_b. simpl.
  rewrite (String.eqb_sym h x).
  destruct (String.eqb_spec x h) as [->|_]; simpl; [|reflexivity].
  now rewrite Hne.
Qed.

(** In a browser that opens nothing by itself, a loop that ends normally
    has closed every handle of its snapshot but the main one, and no
    command of it failed. *)
Lemma close_unexpected_loop_normal (Hq : Quiet env) hs :
  forall w w',
    Edge.close_unexpected_loop main_handle hs env w = (Normal tt, w') ->
    window_handles w' = filter (survives main_handle hs) (window_handles w).
Proof.
  induction hs as [|h rest IH]; intros w w' H; simpl in H.
  - inversion H; subst. symmetry. apply filter_true.
  - unfold bind in H at 1.
    destruct (String.eqb h main_handle) eqn:Eh.
    + apply String.eqb_eq in Eh. subst h.
      simpl in H. apply IH in H. rewrite H.
      apply filter_ext. intros x. now rewrite survives_cons_main.
    + unfold bind in H at 1.
      destruct (switch_to_window h env w) as [[[]|e] w1] eqn:S1;
        [|discriminate].
      unfold bind in H at 1.
      destruct (get_title env w1) as [[t|e] w2] eqn:S2; [|discriminate].
      unfold bind in H at 1. rewrite logger_run in H.
      destruct (close env _) as [[[]|e] w4] eqn:S4; [|discriminate].
      apply IH in H. rewrite H.
      apply switch_normal in S1. destruct S1 as (_ & _ & Hw1 & Hf1 & _).
      apply get_title_normal in S2. destruct S2 as (_ & Hw2 & Hf2 & _).
      apply close_normal in S4. simpl in S4. destruct S4 as (_ & Hw4 & _).
      rewrite Hw4, Hw2, Hf2, Hw1, Hf1, !Hq, !app_nil_r.
      unfold remove_handle. rewrite filter_filter.
      apply filter_ext. intros x. now rewrite survives_cons_other.
Qed.

End EdgeLoop.

Lemma survives_all main_handle hs :
  filter (survives main_handle hs) hs
  = filter (fun x => String.eqb x main_handle) hs.
Proof.
  apply filter_ext_in. intros x Hx. unfold survives.
  apply In_b_In in Hx. now rewrite Hx.
Qed.

(** Whenever [close_unexpected_windows] returns in a quiet browser, its
    argument was among the windows, it is what is returned, and only the
    windows equal to it are left. *)
Lemma close_unexpected_windows_normal env main_handle w r w' :
  Quiet env ->
  Edge.close_unexpected_windows main_handle env w = (Normal r, w') ->
  In main_handle (window_handles w) /\ r = main_handle /\
  window_handles w'
  = filter (fun x => String.eqb x main_handle) (window_handles w) /\
  focus w' = main_handle.
Proof.
  intros Hq H. unfold Edge.close_unexpected_windows in H.
  unfold bind in H at 1.
  destruct (get_window_handles env w) as [[hs|e] w1] eqn:S1; [|discriminate].
  apply get_window_handles_normal in S1.
  destruct S1 as (_ & -> & Hw1 & _). rewrite Hq, app_nil_r in Hw1.
  unfold bind in H at 1.
  destruct (Edge.close_unexpected_loop _ _ env w1) as [[[]|e] w2] eqn:S2;
    [|discriminate].
  apply close_unexpected_loop_normal in S2; [|assumption].
  rewrite Hw1, survives_all in S2.
  unfold bind in H at 1.
  destruct (get_window_handles env w2) as [[hs1|e] w3] eqn:S3; [|discriminate].
  apply get_window_handles_normal in S3.
  destruct S3 as (_ & -> & Hw3 & _). rewrite Hq, app_nil_r in Hw3.
  unfold bind in H at 1.
  destruct (In_b main_handle (window_handles w2)) eqn:Hin; simpl in H.
  - (* the main window is still there *)
    unfold bind in H.
    destruct (switch_to_window main_handle env w3) as [[[]|e] w4] eqn:S4;
      [|discriminate].
    apply switch_normal in S4. destruct S4 as (_ & _ & Hw4 & Hf4 & _).
    unfold ret in H. inversion H; subst r w4.
    rewrite Hq, app_nil_r in Hw4.
    apply In_b_In in Hin. rewrite S2 in Hin. apply filter_In in Hin.
    repeat split; try tauto. congruence.
  - (* it is gone: in a quiet browser nothing is left to promote *)
    assert (Hnil : window_handles w3 = []).
    { rewrite Hw3, S2. apply filter_eq_absent. intros Hc.
      assert (In_b main_handle (window_handles w2) = true); [|congruence].
      apply In_b_In. rewrite S2. apply filter_In. split; [assumption|].
      apply String.eqb_refl. }
    unfold bind in H at 1. unfold bind in H at 1.
    destruct (get_window_handles env w3) as [[hs2|e] w4] eqn:S4;
      [|discriminate].
    apply get_window_handles_normal in S4.
    destruct S4 as (_ & -> & Hw4 & _). rewrite Hq, app_nil_r in Hw4.
    rewrite Hnil in H. simpl in H.
    unfold bind in H.
    destruct (switch_to_window main_handle env w4) as [[[]|e] w5] eqn:S5;
      [|discriminate].
    apply switch_normal in S5. destruct S5 as (_ & Hc & _).
    rewrite Hw4, Hnil in Hc. discriminate.
Qed.

(* ----------------------------------------------------------------- *)
(** *** The closing loop of the Monetag testers *)

Lemma switch_targets_app a b :
  switch_targets (a ++ b) = switch_targets a ++ switch_targets b.
Proof. apply flat_map_app. Qed.

(** The loop of [close_additional_windows] cannot raise: it tries every
    handle of its snapshot but the primary one, whatever fails on the way;
    when nothing fails and nothing opens, those handles are all closed. *)
Lemma close_additional_loop_run env p hs :
  forall w, exists w',
    Monetag.close_additional_loop p hs env w = (Normal tt, w') /\
    switch_targets (trace w')
    = switch_targets (trace w) ++ filter (fun h => negb (String.eqb h p)) hs /\
    (Reliable env -> Quiet env ->
     window_handles w' = filter (survives p hs) (window_handles w)).
Proof.
  induction hs as [|h rest IH]; intros w; simpl.
  - exists w. rewrite app_nil_r, filter_true. unfold ret. auto.
  - destruct (String.eqb h p) eqn:Eh; simpl.
    + unfold bind at 1. simpl.
      destruct (IH w) as (w' & E & T & Hh). exists w'.
      split; [exact E|]. split; [exact T|].
      intros R Q. rewrite (Hh R Q). apply filter_ext. intros x.
      apply String.eqb_eq in Eh. subst h. now rewrite survives_cons_main.
    + unfold bind at 1, suppress, catch, bind at 1, switch_to_window, command.
      destruct (fault env (tick w)) eqn:F; simpl.
      { match goal with
        | |- context [Monetag.close_additional_loop p rest env ?w1] =>
            destruct (IH w1) as (w' & E & T & Hh)
        end.
        exists w'. split; [exact E|]. split.
        - rewrite T. simpl. rewrite switch_targets_app. simpl.
          now rewrite <- app_assoc.
        - intros R. rewrite R in F. discriminate. }
      destruct (In_b h (window_handles w)) eqn:Hin; simpl.
      2:{ match goal with
          | |- context [Monetag.close_additional_loop p rest env ?w1] =>
              destruct (IH w1) as (w' & E & T & Hh)
          end.
          exists w'. split; [exact E|]. split.
          - rewrite T. simpl. rewrite switch_targets_app. simpl.
            now rewrite <- app_assoc.
          - intros R Q. rewrite (Hh R Q). simpl. rewrite Q, app_nil_r.
            apply filter_ext_in. intros x Hx.
            rewrite survives_cons_other by assumption.
            destruct (String.eqb_spec h x) as [->|_]; [|reflexivity].
            apply In_b_In in Hx. congruence. }
      unfold close, command. simpl.
      destruct (fault env (S (tick w))) eqn:F2; simpl.
      { match goal with
        | |- context [Monetag.close_additional_loop p rest env ?w1] =>
            destruct (IH w1) as (w' & E & T & Hh)
        end.
        exists w'. split; [exact E|]. split.
        - rewrite T. simpl. rewrite !switch_targets_app. simpl.
          now rewrite app_nil_r, <- app_assoc.
        - intros R. rewrite R in F2. discriminate. }
      destruct (In_b h (window_handles w ++ opens env (tick w))) eqn:Hin2;
        simpl.
      2:{ rewrite In_b_app, Hin in Hin2. discriminate. }
      match goal with
      | |- context [Monetag.close_additional_loop p rest env ?w1] =>
          destruct (IH w1) as (w' & E & T & Hh)
      end.
      exists w'. split; [exact E|]. split.
      * rewrite T. simpl. rewrite !switch_targets_app. simpl.
        now rewrite app_nil_r, <- app_assoc.
      * intros R Q. rewrite (Hh R Q). simpl. rewrite !Q, !app_nil_r.
        unfold remove_handle. rewrite filter_filter.
        apply filter_ext. intros x.
        now rewrite survives_cons_other by assumption.
Qed.

Lemma current_window_handle_normal env w p w1 :
  current_window_handle env w = (Normal p, w1) ->
  fault env (tick w) = None /\
  p = focus w /\ In_b p (window_handles w) = true /\
  window_handles w1 = window_handles w ++ opens env (tick w) /\
  focus w1 = focus w /\ tick w1 = S (tick w) /\
  trace w1 = trace w ++ [Issued CmdCurrentWindowHandle None].
Proof.
  unfold current_window_handle, query, command.
  destruct (fault env (tick w)); [discriminate|].
  destruct (In_b (focus w) (window_handles w)) eqn:E; [|discriminate].
  intros H. inversion H; subst; simpl. auto 7.
Qed.

(** [close_additional_windows] takes every failure of a switch or a close
    on itself: once its two reads went through, it returns, and it has
    called [switch_to.window] on every secondary handle of the snapshot,
    in order, and on the primary one last. *)
Lemma close_additional_windows_absorbs env w p w1 hs w2 :
  current_window_handle env w = (Normal p, w1) ->
  get_window_handles env w1 = (Normal hs, w2) ->
  exists w',
    Monetag.close_additional_windows env w = (Normal tt, w') /\
    switch_targets (trace w')
    = switch_targets (trace w)
      ++ filter (fun h => negb (String.eqb h p)) hs ++ [p].
Proof.
  intros H1 H2. unfold Monetag.close_additional_windows.
  unfold bind at 1, catch, bind at 1. rewrite H1. simpl.
  unfold bind at 1. rewrite H2.
  destruct (close_additional_loop_run env p hs w2) as (w3 & E & T & _).
  unfold bind at 1. rewrite E.
  apply current_window_handle_normal in H1.
  destruct H1 as (_ & _ & _ & _ & _ & _ & T1).
  apply get_window_handles_normal in H2.
  destruct H2 as (_ & _ & _ & _ & _ & T2).
  assert (T3 : switch_targets (trace w3)
               = switch_targets (trace w)
                 ++ filter (fun h => negb (String.eqb h p)) hs).
  { rewrite T, T2, T1, !switch_targets_app. simpl. now rewrite !app_nil_r. }
  unfold suppress, catch, switch_to_window, command.
  destruct (fault env (tick w3)); simpl.
  - eexists. split; [reflexivity|]. simpl.
    rewrite switch_targets_app, T3. simpl. now rewrite <- app_assoc.
  - destruct (In_b p (window_handles w3)); simpl;
      (eexists; split; [reflexivity|]; simpl;
       rewrite switch_targets_app, T3; simpl; now rewrite <- app_assoc).
Qed.

(** When no command fails and no window opens meanwhile, it leaves the
    focused window alone. *)
Lemma close_additional_windows_reliable env w :
  Reliable env -> Quiet env ->
  NoDup (window_handles w) -> focused w ->
  exists w',
    Monetag.close_additional_windows env w = (Normal tt, w') /\
    window_handles w' = [focus w] /\ focus w' = focus w.
Proof.
  intros R Q Hnd Hf. unfold focused in Hf.
  unfold Monetag.close_additional_windows.
  unfold bind at 1, catch, bind at 1, current_window_handle, query, command.
  rewrite R, Hf. simpl.
  unfold bind at 1, get_window_handles, query, command. simpl.
  rewrite R, !Q, !app_nil_r. unfold bind at 1.
  match goal with
  | |- context [Monetag.close_additional_loop ?p ?hs env ?w1] =>
      destruct (close_additional_loop_run env p hs w1) as (w3 & E & _ & Hh)
  end.
  rewrite E. specialize (Hh R Q). simpl in Hh.
  rewrite survives_all, filter_eq_NoDup in Hh;
    [|assumption|now apply In_b_In].
  unfold suppress, catch, switch_to_window, command.
  rewrite R, Hh, Q. simpl. rewrite String.eqb_refl. simpl.
  eexists. split; [reflexivity|]. simpl. auto.
Qed.

(* ----------------------------------------------------------------- *)
(** *** No handler in the Edge tester *)

Lemma fault_free_refl env a : fault_free env a a.
Proof. split; [lia | intros n Hn; lia]. Qed.

Lemma fault_free_step env a b :
  fault env a = None -> b = S a -> fault_free env a b.
Proof.
  intros F ->. split; [lia|]. intros n Hn.
  assert (n = a) by lia. now subst.
Qed.

Lemma fault_free_trans env a b c :
  fault_free env a b -> fault_free env b c -> fault_free env a c.
Proof.
  intros [L1 H1] [L2 H2]. split; [lia|]. intros n Hn.
  destruct (Nat.lt_ge_cases n b); [apply H1 | apply H2]; lia.
Qed.

Lemma close_unexpected_loop_clean env main_handle hs :
  forall w w',
    Edge.close_unexpected_loop main_handle hs env w = (Normal tt, w') ->
    fault_free env (tick w) (tick w').
Proof.
  induction hs as [|h rest IH]; intros w w' H; simpl in H.
  - inversion H; subst. apply fault_free_refl.
  - unfold bind in H at 1.
    destruct (String.eqb h main_handle).
    + simpl in H. now apply IH.
    + unfold bind in H at 1.
      destruct (switch_to_window h env w) as [[[]|e] w1] eqn:S1;
        [|discriminate].
      unfold bind in H at 1.
      destruct (get_title env w1) as [[t|e] w2] eqn:S2; [|discriminate].
      unfold bind in H at 1. rewrite logger_run in H.
      destruct (close env _) as [[[]|e] w4] eqn:S4; [|discriminate].
      apply IH in H.
      apply switch_normal in S1. destruct S1 as (F1 & _ & _ & _ & T1).
      apply get_title_normal in S2. destruct S2 as (F2 & _ & _ & T2).
      apply close_normal in S4. simpl in S4. destruct S4 as (F4 & _ & _ & T4).
      eapply fault_free_trans; [eapply fault_free_step; eassumption|].
      eapply fault_free_trans; [eapply fault_free_step; eassumption|].
      eapply fault_free_trans; [eapply fault_free_step; eassumption|].
      exact H.
Qed.

(** [close_unexpected_windows] takes no failure on itself: when it returns,
    none of its commands failed. *)
Lemma close_unexpected_windows_clean env main_handle w r w' :
  Edge.close_unexpected_windows main_handle env w = (Normal r, w') ->
  fault_free env (tick w) (tick w').
Proof.
  intros H. unfold Edge.close_unexpected_windows in H.
  unfold bind in H at 1.
  destruct (get_window_handles env w) as [[hs|e] w1] eqn:S1; [|discriminate].
  apply get_window_handles_normal in S1.
  destruct S1 as (F1 & _ & _ & _ & T1 & _).
  unfold bind in H at 1.
  destruct (Edge.close_unexpected_loop _ _ env w1) as [[[]|e] w2] eqn:S2;
    [|discriminate].
  apply close_unexpected_loop_clean in S2.
  unfold bind in H at 1.
  destruct (get_window_handles env w2) as [[hs1|e] w3] eqn:S3; [|discriminate].
  apply get_window_handles_normal in S3.
  destruct S3 as (F3 & _ & _ & _ & T3 & _).
  assert (P3 : fault_free env (tick w) (tick w3)).
  { eapply fault_free_trans; [eapply fault_free_step; eassumption|].
    eapply fault_free_trans; [eassumption|].
    eapply fault_free_step; eassumption. }
  clear F1 T1 S2 F3 T3.
  unfold bind in H at 1.
  assert (Hfinal : forall m wa wb,
             (switch_to_window m ;; ret m) env wa = (Normal r, wb) ->
             fault_free env (tick wa) (tick wb)).
  { intros m wa wb Hs. unfold bind in Hs.
    destruct (switch_to_window m env wa) as [[[]|e] wc] eqn:S; [|discriminate].
    apply switch_normal in S. destruct S as (F & _ & _ & _ & T).
    unfold ret in Hs. inversion Hs; subst.
    eapply fault_free_step; eassumption. }
  destruct (negb (In_b main_handle hs1)).
  - unfold bind in H at 1.
    destruct (get_window_handles env w3) as [[hs2|e] w4] eqn:S4;
      [|discriminate].
    apply get_window_handles_normal in S4.
    destruct S4 as (F4 & _ & _ & _ & T4 & _).
    unfold ret in H at 1.
    assert (P4 : fault_free env (tick w) (tick w4)).
    { eapply fault_free_trans; [eassumption|].
      eapply fault_free_step; eassumption. }
    destruct hs2 as [|x hs2].
    + eapply fault_free_trans; [exact P4|]. eapply Hfinal. exact H.
    + unfold bind in H at 1.
      destruct (get_window_handles env w4) as [[hs3|e] w5] eqn:S5;
        [|discriminate].
      apply get_window_handles_normal in S5.
      destruct S5 as (F5 & _ & _ & _ & T5 & _).
      destruct hs3 as [|first hs3]; [discriminate|].
      unfold bind in H at 1.
      destruct (switch_to_window first env w5) as [[[]|e] w6] eqn:S6;
        [|discriminate].
      apply switch_normal in S6. destruct S6 as (F6 & _ & _ & _ & T6).
      unfold bind in H. rewrite logger_run in H. unfold ret in H.
      inversion H; subst. simpl.
      eapply fault_free_trans; [exact P4|].
      eapply fault_free_trans; [eapply fault_free_step; eassumption|].
      eapply fault_free_step; eassumption.
  - unfold ret in H at 1.
    eapply fault_free_trans; [exact P3|]. eapply Hfinal. exact H.
Qed.

(* ================================================================= *)
(** ** Window reconciliation: the claims *)

(** C1 (amended).  Whenever [close_unexpected_windows] returns, in a browser
    that opens no window by itself during the call and whose handles are
    distinct, the enumeration is exactly the returned handle, which has the
    focus.  [close_additional_windows] returns no value; when moreover no
    command of the call fails and the focused window exists, it leaves
    exactly the focused handle. *)
Theorem reconciliation_leaves_one_window env w :
  Quiet env -> NoDup (window_handles w) ->
  (forall main_handle r w',
      Edge.close_unexpected_windows main_handle env w = (Normal r, w') ->
      window_handles w' = [r] /\ focus w' = r) /\
  (Reliable env -> focused w ->
   exists w',
     Monetag.close_additional_windows env w = (Normal tt, w') /\
     window_handles w' = [focus w] /\ focus w' = focus w).
Proof.
  intros Q Hnd. split.
  - intros main_handle r w' H.
    apply close_unexpected_windows_normal in H; [|assumption].
    destruct H as (Hin & -> & Hw & Hf).
    rewrite Hw, filter_eq_NoDup by assumption. auto.
  - intros R Hf. now apply close_additional_windows_reliable.
Qed.

Lemma reconciliation_leaves_one_window_witness :
  (window_handles (snd (Edge.close_unexpected_windows "main" calm three_tabs))
   = ["main"] /\
   focus (snd (Edge.close_unexpected_windows "main" calm three_tabs))
   = "main") /\
  exists w',
    Monetag.close_additional_windows calm three_tabs = (Normal tt, w') /\
    window_handles w' = ["main"] /\ focus w' = "main".
Proof.
  assert (Q : Quiet calm) by (intros n; reflexivity).
  assert (Hnd : NoDup (window_handles three_tabs)).
  { repeat constructor; simpl; intuition discriminate. }
  destruct (@reconciliation_leaves_one_window calm three_tabs Q Hnd)
    as [HE HM].
  split.
  - apply (HE "main" "main"
              (snd (Edge.close_unexpected_windows "main" calm three_tabs))).
    vm_compute. reflexivity.
  - apply HM; [intros n; reflexivity | vm_compute; reflexivity].
Defined.

(** C1 as stated fails: the switch to the popup fails, the failure is
    suppressed, the call returns and two windows are left. *)
Lemma reconciliation_may_leave_two_windows :
  fst (Monetag.close_additional_windows
         (failing_at 2 OtherWebDriverError calm) two_tabs) = Normal tt /\
  window_handles
    (snd (Monetag.close_additional_windows
            (failing_at 2 OtherWebDriverError calm) two_tabs))
  = ["main"; "popup"].
Proof. split; vm_compute; reflexivity. Qed.

(** C5 (amended).  In [close_additional_windows] a failure of a switch or
    of a close is absorbed for that handle (without a log line): once the
    two reads at its start went through, the call returns normally and has
    tried every secondary handle of the snapshot, in order, and the primary
    one last.  [close_unexpected_windows] has no handler: when it returns
    normally none of its commands failed. *)
Theorem secondary_failures_absorbed env w :
  (forall p w1 hs w2,
      current_window_handle env w = (Normal p, w1) ->
      get_window_handles env w1 = (Normal hs, w2) ->
      exists w',
        Monetag.close_additional_windows env w = (Normal tt, w') /\
        switch_targets (trace w')
        = switch_targets (trace w)
          ++ filter (fun h => negb (String.eqb h p)) hs ++ [p]) /\
  (forall main_handle r w',
      Edge.close_unexpected_windows main_handle env w = (Normal r, w') ->
      fault_free env (tick w) (tick w')).
Proof.
  split.
  - intros p w1 hs w2. apply close_additional_windows_absorbs.
  - intros main_handle r w'. apply close_unexpected_windows_clean.
Qed.

Lemma secondary_failures_absorbed_witness :
  (exists w',
      Monetag.close_additional_windows
        (failing_at 2 OtherWebDriverError calm) three_tabs = (Normal tt, w') /\
      switch_targets (trace w') = ["popup1"; "popup2"; "main"]) /\
  fault_free calm 0
    (tick (snd (Edge.close_unexpected_windows "main" calm three_tabs))).
Proof.
  split.
  - destruct (proj1 (secondary_failures_absorbed
                       (failing_at 2 OtherWebDriverError calm) three_tabs)
                    "main"
                    (snd (current_window_handle
                            (failing_at 2 OtherWebDriverError calm) three_tabs))
                    ["main"; "popup1"; "popup2"]
                    (snd ((current_window_handle ;; get_window_handles)
                            (failing_at 2 OtherWebDriverError calm) three_tabs)))
      as (w' & E & T); [vm_compute; reflexivity .. |].
    exists w'. split; [exact E | exact T].
  - apply (proj2 (secondary_failures_absorbed calm three_tabs)
                 "main" "main"
                 (snd (Edge.close_unexpected_windows "main" calm three_tabs))).
    vm_compute. reflexivity.
Defined.

(** C5 as stated fails: in [close_unexpected_windows] the failed switch to
    the first popup leaves the call, and the second popup is never tried. *)
Lemma secondary_failure_aborts_edge_reconciliation :
  fst (Edge.close_unexpected_windows "main"
         (failing_at 1 OtherWebDriverError calm) three_tabs)
  = Raise WebDriverException /\
  window_handles
    (snd (Edge.close_unexpected_windows "main"
            (failing_at 1 OtherWebDriverError calm) three_tabs))
  = ["main"; "popup1"; "popup2"] /\
  switch_targets
    (trace (snd (Edge.close_unexpected_windows "main"
                   (failing_at 1 OtherWebDriverError calm) three_tabs)))
  = ["popup1"].
Proof. repeat split; vm_compute; reflexivity. Qed.

(** C6 (the code fails the claim).  When the primary handle is not among
    the windows and the browser opens none during the call,
    [close_unexpected_windows] closes every window and then raises: there
    is nothing left to promote. *)
Theorem vanished_primary_raises env main_handle w :
  Quiet env ->
  ~ In main_handle (window_handles w) ->
  exists e w',
    Edge.close_unexpected_windows main_handle env w = (Raise e, w').
Proof.
  intros Q Hnot.
  destruct (Edge.close_unexpected_windows main_handle env w) as [[r|e] w']
    eqn:H.
  - apply close_unexpected_windows_normal in H; [|assumption].
    destruct H as (Hin & _). contradiction.
  - eauto.
Qed.

Lemma vanished_primary_raises_witness :
  exists e w',
    Edge.close_unexpected_windows "gone" calm two_tabs = (Raise e, w').
Proof.
  apply vanished_primary_raises.
  - intros n. reflexivity.
  - simpl. intuition discriminate.
Defined.

(** The same at the failing input, evaluated: both windows are closed, the
    final switch to the stale handle raises [NoSuchWindowException], and
    no warning was logged. *)
Example vanished_primary_run :
  fst (Edge.close_unexpected_windows "gone" calm two_tabs)
  = Raise NoSuchWindowException /\
  window_handles (snd (Edge.close_unexpected_windows "gone" calm two_tabs))
  = [] /\
  switch_targets
    (trace (snd (Edge.close_unexpected_windows "gone" calm two_tabs)))
  = ["main"; "popup"; "gone"].
Proof. repeat split; vm_compute; reflexivity. Qed.

(** The promotion branch is taken only when a window is there after the
    loop, for instance one that opened while the last popup was closed. *)
Example promotion_of_a_late_window :
  fst (Edge.close_unexpected_windows "gone" (opening_at 7 ["late"] calm)
         two_tabs)
  = Normal "late" /\
  In (Logged WARNING "Main window changed; switched control to handle late")
     (trace (snd (Edge.close_unexpected_windows "gone"
                    (opening_at 7 ["late"] calm) two_tabs))).
Proof. split; [vm_compute; reflexivity | vm_compute; tauto]. Qed.

(* ================================================================= *)
(** ** Running commands in a reliable session *)

Lemma calls_app a b : calls (a ++ b) = calls a ++ calls b.
Proof. apply flat_map_app. Qed.

Lemma focused_after w w1 extra :
  focused w ->
  window_handles w1 = window_handles w ++ extra ->
  focus w1 = focus w ->
  focused w1.
Proof.
  unfold focused. intros H Hw Hf. rewrite Hw, Hf, In_b_app, H. reflexivity.
Qed.

Lemma moved_focused env w w1 ev : focused w -> moved env w w1 ev -> focused w1.
Proof. intros H (Hw & Hf & _). eapply focused_after; eassumption. Qed.

Lemma on_page_run {A} (c : Cmd) (f : Page -> Outcome A) env w :
  fault env (tick w) = None -> focused w ->
  exists w1,
    on_page c f env w = (f (page env (tick w)), w1) /\
    moved env w w1 (Issued c (exn_of (f (page env (tick w))))).
Proof.
  intros F Hf. unfold on_page, query, command. rewrite F, Hf.
  eexists. split; [reflexivity|]. repeat split.
Qed.

Lemma wait_until_run timeout c env w :
  fault env (tick w) = None -> focused w ->
  exists w1,
    wait_until timeout c env w
    = (match cond_holds (page env (tick w)) c with
       | Some e => Normal e
       | None => Raise TimeoutException
       end, w1) /\
    moved env w w1
      (Issued (CmdWait c timeout)
         (match cond_holds (page env (tick w)) c with
          | Some _ => None
          | None => Some TimeoutException
          end)).
Proof.
  intros F Hf. unfold wait_until, command. rewrite F, Hf.
  destruct (cond_holds (page env (tick w)) c);
    (eexists; split; [reflexivity|]; repeat split).
Qed.

Lemma print_run env msg w :
  print msg env w
  = (Normal tt,
     {| window_handles := window_handles w; focus := focus w;
        tick := tick w; now := now w;
        trace := trace w ++ [Printed msg] |}).
Proof. reflexivity. Qed.

(* ----------------------------------------------------------------- *)
(** *** The locator pass of the two dismissers *)

Section LocatorPass.

Variable env : Env.
Hypothesis env_reliable : Reliable env.

(** The locators of [pre] are never clickable, [l] always is, through the
    element [e]. *)
Variables (pre : list Locator) (l : Locator) (e : WebElement).
Hypothesis pre_blocked :
  forall n l', In l' pre ->
    cond_holds (page env n) (element_to_be_clickable l') = None.
Hypothesis l_clickable :
  forall n, cond_holds (page env n) (element_to_be_clickable l) = Some e.

Lemma click_close_button_run label post :
  forall w, focused w ->
  exists w',
    Monetag.click_close_button label (pre ++ l :: post) env w
    = (Normal true, w') /\
    calls (trace w')
    = calls (trace w)
      ++ map (timed_out element_to_be_clickable Monetag.OVERLAY_WAIT) pre
      ++ [ (CmdWait (element_to_be_clickable l) Monetag.OVERLAY_WAIT, None);
           (CmdClick (el_by e), None) ].
Proof.
  revert pre_blocked. induction pre as [|l0 pre' IH]; intros Hpre w Hf.
  - simpl. destruct l as [lb lv].
    unfold bind at 1, catch, bind at 1.
    destruct (wait_until_run Monetag.OVERLAY_WAIT
                (element_to_be_clickable (lb, lv)) env (env_reliable (tick w)) Hf)
      as (w1 & E1 & M1).
    rewrite E1, l_clickable. unfold bind at 1.
    pose proof (moved_focused Hf M1) as Hf1.
    destruct (on_page_run (CmdClick (el_by e)) (fun _ => Normal tt) env
                (env_reliable (tick w1)) Hf1) as (w2 & E2 & M2).
    unfold click. rewrite E2. unfold bind at 1. rewrite print_run.
    unfold ret. eexists. split; [reflexivity|]. simpl.
    destruct M1 as (_ & _ & _ & T1). destruct M2 as (_ & _ & _ & T2).
    rewrite calls_app, T2, calls_app, T1, calls_app, l_clickable. simpl.
    now rewrite <- !app_assoc.
  - simpl. destruct l0 as [lb lv].
    unfold bind at 1, catch, bind at 1.
    destruct (wait_until_run Monetag.OVERLAY_WAIT
                (element_to_be_clickable (lb, lv)) env (env_reliable (tick w)) Hf)
      as (w1 & E1 & M1).
    rewrite E1, Hpre by (now left). simpl.
    pose proof (moved_focused Hf M1) as Hf1.
    match goal with
    | |- context [Monetag.click_close_button label _ env ?w2] =>
        destruct (IH (fun n l' H => Hpre n l' (or_intror H)) w2)
          as (w' & E & T)
    end.
    { exact Hf1. }
    exists w'. split; [exact E|]. rewrite T. simpl.
    destruct M1 as (_ & _ & _ & T1).
    rewrite calls_app, T1, calls_app, Hpre by (now left). simpl.
    now rewrite <- !app_assoc.
Qed.

Lemma close_popup_by_locator_run post :
  forall w, focused w ->
  exists w',
    Edge.close_popup_by_locator (pre ++ l :: post) env w = (Normal true, w') /\
    calls (trace w')
    = calls (trace w)
      ++ map (timed_out element_to_be_clickable 2000%N) pre
      ++ [ (CmdWait (element_to_be_clickable l) 2000%N, None);
           (CmdExecuteScript (scrollIntoView (el_by e)), None);
           (CmdClick (el_by e), None) ].
Proof.
  revert pre_blocked. induction pre as [|l0 pre' IH]; intros Hpre w Hf.
  - simpl. unfold bind at 1, catch, bind at 1.
    destruct (wait_until_run 2000%N (element_to_be_clickable l) env
                (env_reliable (tick w)) Hf) as (w1 & E1 & M1).
    rewrite E1, l_clickable. unfold bind at 1.
    pose proof (moved_focused Hf M1) as Hf1.
    destruct (on_page_run (CmdExecuteScript (scrollIntoView (el_by e)))
                (fun _ => Normal tt) env (env_reliable (tick w1)) Hf1)
      as (w2 & E2 & M2).
    unfold execute_script. rewrite E2. unfold bind at 1.
    pose proof (moved_focused Hf1 M2) as Hf2.
    destruct (on_page_run (CmdClick (el_by e)) (fun _ => Normal tt) env
                (env_reliable (tick w2)) Hf2) as (w3 & E3 & M3).
    unfold click. rewrite E3. unfold bind at 1. rewrite logger_run.
    unfold ret. eexists. split; [reflexivity|]. simpl.
    destruct M1 as (_ & _ & _ & T1). destruct M2 as (_ & _ & _ & T2).
    destruct M3 as (_ & _ & _ & T3).
    rewrite calls_app, T3, calls_app, T2, calls_app, T1, calls_app,
      l_clickable.
    simpl. now rewrite <- !app_assoc.
  - simpl. unfold bind at 1, catch, bind at 1.
    destruct (wait_until_run 2000%N (element_to_be_clickable l0) env
                (env_reliable (tick w)) Hf) as (w1 & E1 & M1).
    rewrite E1, Hpre by (now left). simpl.
    pose proof (moved_focused Hf M1) as Hf1.
    destruct (IH (fun n l' H => Hpre n l' (or_intror H)) w1 Hf1)
      as (w' & E & T).
    exists w'. split; [exact E|]. rewrite T.
    destruct M1 as (_ & _ & _ & T1).
    rewrite T1, calls_app, Hpre by (now left). simpl.
    now rewrite <- !app_assoc.
Qed.

End LocatorPass.

Lemma timeouts_app a b : timeouts (a ++ b) = timeouts a + timeouts b.
Proof. unfold timeouts. now rewrite filter_app, length_app. Qed.

Lemma timeouts_timed_out cond timeout ls :
  timeouts (map (timed_out cond timeout) ls) = List.length ls.
Proof.
  unfold timeouts. induction ls as [|l ls IH]; simpl; [reflexivity|].
  now rewrite IH.
Qed.

(* ================================================================= *)
(** ** Overlay dismissal: the claims *)

(** C2.  In a session where no command fails and the focused window
    exists, let the close-button locators be [pre ++ l :: post], the
    locators of [pre] never clickable and [l] always.  Then the dismisser
    waits for the locators of [pre] one after the other, in list order,
    each wait ending in a timeout after the timeout of the pass, then
    waits for [l], clicks the element and returns; no locator of [post] is
    tried.  As many timeouts as [pre] has entries precede the click: two
    when only the third locator is clickable. *)
Theorem dismisser_stops_at_first_clickable env pre l e :
  Reliable env ->
  (forall n l', In l' pre ->
     cond_holds (page env n) (element_to_be_clickable l') = None) ->
  (forall n, cond_holds (page env n) (element_to_be_clickable l) = Some e) ->
  forall w, focused w ->
  (forall post label,
      Monetag.CLOSE_BUTTON_LOCATORS = pre ++ l :: post ->
      exists w',
        Monetag.dismiss_initial_overlay label env w = (Normal tt, w') /\
        calls (trace w')
        = calls (trace w)
          ++ [(CmdCurrentWindowHandle, None)]
          ++ map (timed_out element_to_be_clickable Monetag.OVERLAY_WAIT) pre
          ++ [ (CmdWait (element_to_be_clickable l) Monetag.OVERLAY_WAIT, None);
               (CmdClick (el_by e), None) ] /\
        timeouts (calls (trace w'))
        = timeouts (calls (trace w)) + List.length pre) /\
  (forall post,
      Edge.popup_locators = pre ++ l :: post ->
      exists w',
        Edge.close_ad_popup_if_present env w = (Normal true, w') /\
        calls (trace w')
        = calls (trace w)
          ++ map (timed_out element_to_be_clickable 2000%N) pre
          ++ [ (CmdWait (element_to_be_clickable l) 2000%N, None);
               (CmdExecuteScript (scrollIntoView (el_by e)), None);
               (CmdClick (el_by e), None) ] /\
        timeouts (calls (trace w'))
        = timeouts (calls (trace w)) + List.length pre).
Proof.
  intros R Hpre Hl w Hf. split.
  - intros post label Hsplit. unfold Monetag.dismiss_initial_overlay.
    unfold bind at 1, catch, bind at 1, current_window_handle, query, command.
    rewrite R. unfold focused in Hf. rewrite Hf.
    cbn -[Monetag.CLOSE_BUTTON_LOCATORS Monetag.click_close_button bind].
    rewrite Hsplit. unfold bind at 1.
    match goal with
    | |- context [Monetag.click_close_button ?lbl _ env ?w1] =>
        destruct (@click_close_button_run env R pre l e Hpre Hl lbl post w1)
          as (w' & E & T)
    end.
    { unfold focused. simpl. now rewrite In_b_app, Hf. }
    rewrite E. unfold ret. exists w'. split; [reflexivity|].
    simpl in T. rewrite calls_app in T. simpl in T.
    rewrite <- app_assoc in T. split; [exact T|].
    rewrite T, !timeouts_app, timeouts_timed_out.
    repeat match goal with
      | |- context [timeouts (?a :: ?b)] => change (timeouts (a :: b)) with 0
      end.
    lia.
  - intros post Hsplit. unfold Edge.close_ad_popup_if_present.
    rewrite Hsplit. unfold bind at 1.
    destruct (@close_popup_by_locator_run env R pre l e Hpre Hl post w Hf)
      as (w' & E & T).
    rewrite E. unfold ret. exists w'. split; [reflexivity|].
    split; [exact T|].
    rewrite T, !timeouts_app, timeouts_timed_out.
    repeat match goal with
      | |- context [timeouts (?a :: ?b)] => change (timeouts (a :: b)) with 0
      end.
    lia.
Qed.

Lemma dismisser_stops_at_first_clickable_witness :
  (exists w',
      Monetag.dismiss_initial_overlay "view 1"
        (showing (page_with_button (nth 2 Monetag.CLOSE_BUTTON_LOCATORS
                                          (XPATH, ""))) calm) one_tab
      = (Normal tt, w') /\
      timeouts (calls (trace w')) = 2) /\
  (exists w',
      Edge.close_ad_popup_if_present
        (showing (page_with_button (nth 2 Edge.popup_locators (XPATH, "")))
                 calm) one_tab
      = (Normal true, w') /\
      timeouts (calls (trace w')) = 2).
Proof.
  split.
  - destruct (proj1 (@dismisser_stops_at_first_clickable
                       (showing (page_with_button
                                   (nth 2 Monetag.CLOSE_BUTTON_LOCATORS
                                        (XPATH, ""))) calm)
                       (firstn 2 Monetag.CLOSE_BUTTON_LOCATORS)
                       (nth 2 Monetag.CLOSE_BUTTON_LOCATORS (XPATH, ""))
                       (button_at (nth 2 Monetag.CLOSE_BUTTON_LOCATORS
                                       (XPATH, "")))
                       (fun n => eq_refl)
                       ltac:(intros n l' [<-|[<-|[]]]; vm_compute; reflexivity)
                       ltac:(intros n; vm_compute; reflexivity)
                       one_tab ltac:(vm_compute; reflexivity))
                    (skipn 3 Monetag.CLOSE_BUTTON_LOCATORS) "view 1"
                    ltac:(vm_compute; reflexivity))
      as (w' & E & _ & T).
    exists w'. split; [exact E | exact T].
  - destruct (proj2 (@dismisser_stops_at_first_clickable
                       (showing (page_with_button
                                   (nth 2 Edge.popup_locators (XPATH, "")))
                                calm)
                       (firstn 2 Edge.popup_locators)
                       (nth 2 Edge.popup_locators (XPATH, ""))
                       (button_at (nth 2 Edge.popup_locators (XPATH, "")))
                       (fun n => eq_refl)
                       ltac:(intros n l' [<-|[<-|[]]]; vm_compute; reflexivity)
                       ltac:(intros n; vm_compute; reflexivity)
                       one_tab ltac:(vm_compute; reflexivity))
                    (skipn 3 Edge.popup_locators)
                    ltac:(vm_compute; reflexivity))
      as (w' & E & _ & T).
    exists w'. split; [exact E | exact T].
Defined.

(* ================================================================= *)
(** ** The ad wait *)

Section AdWait.

Variable env : Env.
Hypothesis env_reliable : Reliable env.
Variable timeout : Millis.

Lemma wait_for_ads_loop_none ls :
  all_absent env ls ->
  forall w, focused w ->
  exists w',
    Monetag.wait_for_ads_loop timeout ls env w = (Normal false, w') /\
    calls (trace w')
    = calls (trace w)
      ++ map (timed_out presence_of_element_located timeout) ls.
Proof.
  induction ls as [|l0 ls IH]; intros Habs w Hf.
  - simpl. exists w. unfold ret. now rewrite app_nil_r.
  - simpl. unfold bind at 1, catch, bind at 1.
    destruct (wait_until_run timeout (presence_of_element_located l0) env
                (env_reliable (tick w)) Hf) as (w1 & E1 & M1).
    rewrite E1.
    assert (A : cond_holds (page env (tick w))
                  (presence_of_element_located l0) = None).
    { specialize (Habs (tick w) l0 (or_introl eq_refl)). unfold present in Habs.
      destruct (cond_holds _ _); [discriminate | reflexivity]. }
    rewrite A in *. simpl.
    destruct (IH (fun n l' H => Habs n l' (or_intror H)) w1
                 (moved_focused Hf M1)) as (w' & E & T).
    exists w'. split; [exact E|]. rewrite T.
    destruct M1 as (_ & _ & _ & T1). rewrite T1, calls_app. simpl.
    now rewrite <- !app_assoc.
Qed.

Lemma wait_for_ads_loop_found pre l post :
  all_absent env pre ->
  (forall n, present (page env n) l = true) ->
  forall w, focused w ->
  exists w',
    Monetag.wait_for_ads_loop timeout (pre ++ l :: post) env w
    = (Normal true, w') /\
    calls (trace w')
    = calls (trace w)
      ++ map (timed_out presence_of_element_located timeout) pre
      ++ [(CmdWait (presence_of_element_located l) timeout, None)].
Proof.
  intros Habs Hl. revert Habs.
  induction pre as [|l0 pre' IH]; intros Habs w Hf.
  - simpl. unfold bind at 1, catch, bind at 1.
    destruct (wait_until_run timeout (presence_of_element_located l) env
                (env_reliable (tick w)) Hf) as (w1 & E1 & M1).
    rewrite E1. specialize (Hl (tick w)). unfold present in Hl.
    destruct (cond_holds (page env (tick w)) (presence_of_element_located l))
      as [e|]; [|discriminate].
    simpl. exists w1. split; [reflexivity|].
    destruct M1 as (_ & _ & _ & T1). now rewrite T1, calls_app.
  - simpl. unfold bind at 1, catch, bind at 1.
    destruct (wait_until_run timeout (presence_of_element_located l0) env
                (env_reliable (tick w)) Hf) as (w1 & E1 & M1).
    rewrite E1.
    assert (A : cond_holds (page env (tick w))
                  (presence_of_element_located l0) = None).
    { specialize (Habs (tick w) l0 (or_introl eq_refl)). unfold present in Habs.
      destruct (cond_holds _ _); [discriminate | reflexivity]. }
    rewrite A in *. simpl.
    destruct (IH (fun n l' H => Habs n l' (or_intror H)) w1
                 (moved_focused Hf M1)) as (w' & E & T).
    exists w'. split; [exact E|]. rewrite T.
    destruct M1 as (_ & _ & _ & T1). rewrite T1, calls_app. simpl.
    now rewrite <- !app_assoc.
Qed.

(** On a page that does not change the answer is a function of the page,
    and the session is still usable afterwards. *)
Lemma wait_for_ads_loop_stationary p ls :
  (forall n, page env n = p) ->
  forall w, focused w ->
  exists w',
    Monetag.wait_for_ads_loop timeout ls env w
    = (Normal (existsb (present p) ls), w') /\
    focused w'.
Proof.
  intros Hp. induction ls as [|l0 ls IH]; intros w Hf.
  - simpl. exists w. now unfold ret.
  - simpl. unfold bind at 1, catch, bind at 1.
    destruct (wait_until_run timeout (presence_of_element_located l0) env
                (env_reliable (tick w)) Hf) as (w1 & E1 & M1).
    rewrite E1, Hp. unfold present at 1.
    destruct (cond_holds p (presence_of_element_located l0)) as [e|]; simpl.
    + exists w1. split; [reflexivity|]. exact (moved_focused Hf M1).
    + exact (IH w1 (moved_focused Hf M1)).
Qed.

End AdWait.

(** C3.  In a session where no command fails and the focused window
    exists, for every timeout: [wait_for_ads] waits for its locators in
    order and returns [True] at the first one that is present, without
    waiting for the later ones; it returns [False] when the wait for each
    of them timed out; and on a page that does not change a second call
    returns what the first one did, nothing being kept between them. *)
Theorem wait_for_ads_answers env timeout :
  Reliable env ->
  forall w, focused w ->
  (forall pre l post,
      Monetag.AD_IDENTIFIERS = pre ++ l :: post ->
      all_absent env pre ->
      (forall n, present (page env n) l = true) ->
      exists w',
        Monetag.wait_for_ads timeout env w = (Normal true, w') /\
        calls (trace w')
        = calls (trace w)
          ++ map (timed_out presence_of_element_located timeout) pre
          ++ [(CmdWait (presence_of_element_located l) timeout, None)]) /\
  (all_absent env Monetag.AD_IDENTIFIERS ->
   exists w',
     Monetag.wait_for_ads timeout env w = (Normal false, w') /\
     calls (trace w')
     = calls (trace w)
       ++ map (timed_out presence_of_element_located timeout)
              Monetag.AD_IDENTIFIERS) /\
  ((forall n m, page env n = page env m) ->
   exists b w1 w2,
     Monetag.wait_for_ads timeout env w = (Normal b, w1) /\
     Monetag.wait_for_ads timeout env w1 = (Normal b, w2)).
Proof.
  intros R w Hf. unfold Monetag.wait_for_ads. repeat split.
  - intros pre l post -> Habs Hl.
    now apply wait_for_ads_loop_found.
  - intros Habs. now apply wait_for_ads_loop_none.
  - intros Hp.
    destruct (@wait_for_ads_loop_stationary env R timeout (page env 0)
                Monetag.AD_IDENTIFIERS (fun n => Hp n 0) w Hf)
      as (w1 & E1 & Hf1).
    destruct (@wait_for_ads_loop_stationary env R timeout (page env 0)
                Monetag.AD_IDENTIFIERS (fun n => Hp n 0) w1 Hf1)
      as (w2 & E2 & _).
    eauto.
Qed.

Lemma wait_for_ads_answers_witness :
  (exists w',
      Monetag.wait_for_ads 3000%N
        (showing (page_with_button (nth 1 Monetag.AD_IDENTIFIERS (XPATH, "")))
                 calm) one_tab
      = (Normal true, w') /\
      List.length (calls (trace w')) = 2) /\
  (exists w',
      Monetag.wait_for_ads 3000%N calm one_tab = (Normal false, w') /\
      List.length (calls (trace w')) = 2) /\
  (exists b w1 w2,
      Monetag.wait_for_ads 3000%N calm one_tab = (Normal b, w1) /\
      Monetag.wait_for_ads 3000%N calm w1 = (Normal b, w2)).
Proof.
  split; [|split].
  - destruct (@wait_for_ads_answers
                (showing (page_with_button
                            (nth 1 Monetag.AD_IDENTIFIERS (XPATH, ""))) calm)
                3000%N (fun n => eq_refl) one_tab
                ltac:(vm_compute; reflexivity))
      as (H & _ & _).
    destruct (H (firstn 1 Monetag.AD_IDENTIFIERS)
                (nth 1 Monetag.AD_IDENTIFIERS (XPATH, "")) []
                ltac:(vm_compute; reflexivity)
                ltac:(intros n l' [<-|[]]; vm_compute; reflexivity)
                ltac:(intros n; vm_compute; reflexivity))
      as (w' & E & T).
    exists w'. split; [exact E|]. rewrite T. reflexivity.
  - destruct (@wait_for_ads_answers calm 3000%N (fun n => eq_refl) one_tab
                ltac:(vm_compute; reflexivity))
      as (_ & H & _).
    destruct (H ltac:(intros n l' [<-|[<-|[]]]; vm_compute; reflexivity))
      as (w' & E & T).
    exists w'. split; [exact E|]. rewrite T. reflexivity.
  - destruct (@wait_for_ads_answers calm 3000%N (fun n => eq_refl) one_tab
                ltac:(vm_compute; reflexivity))
      as (_ & _ & H).
    apply H. intros n m. reflexivity.
Defined.

(* ================================================================= *)
(** ** The ad signal detector *)



Section Detector.

Variable env : Env.
Hypothesis env_reliable : Reliable env.






End Detector.







(** The letter case is the interpreter's: an address that spells
    doubleclick with the Kelvin sign is an ad signature once the
    interpreter folds the sign to k, and is none for one that folds the
    ASCII letters only. *)
Example kelvin_sign_is_folded :
  fst (Edge.inspect_for_ad_elements
         (kelvin_aware
            (showing (page_with_iframe
                        ("https://ad.DoubleClic" ++ kelvin_sign ++ ".net/x"))
                     calm)) one_tab)
  = Normal true /\
  fst (Edge.collect_ad_elements
         (kelvin_aware
            (showing (page_with_iframe
                        ("https://ad.DoubleClic" ++ kelvin_sign ++ ".net/x"))
                     calm)) one_tab)
  = Normal [("iframe", "https://ad.doubleclick.net/x")] /\
  fst (Edge.inspect_for_ad_elements
         (showing (page_with_iframe
                     ("https://ad.DoubleClic" ++ kelvin_sign ++ ".net/x"))
                  calm) one_tab)
  = Normal false.
Proof. repeat split; vm_compute; reflexivity. Qed.

(* ================================================================= *)
(** ** The fallback of the overlay dismisser *)

Lemma loads_app a b : loads (a ++ b) = loads a ++ loads b.
Proof. apply flat_map_app. Qed.

Lemma lookups_app a b : lookups (a ++ b) = lookups a ++ lookups b.
Proof. apply flat_map_app. Qed.

Lemma on_page_any {A} (c : Cmd) (f : Page -> Outcome A) env w :
  (forall q e, f q = Raise e -> is_webdriver e = true) ->
  exists r w1, on_page c f env w = (r, w1) /\ steps env w r w1 c.
Proof.
  intros Hf. unfold on_page, query, command.
  destruct (fault env (tick w)) as [x|]; simpl.
  - eexists _, _. split; [reflexivity|]. repeat split. intros e [= <-].
    reflexivity.
  - destruct (In_b (focus w) (window_handles w)).
    + eexists _, _. split; [reflexivity|]. repeat split. apply Hf.
    + eexists _, _. split; [reflexivity|]. repeat split. intros e [= <-].
      reflexivity.
Qed.

Lemma switch_any h env w :
  exists r w1,
    switch_to_window h env w = (r, w1) /\ steps env w r w1 (CmdSwitchTo h).
Proof.
  unfold switch_to_window, command.
  destruct (fault env (tick w)) as [x|]; simpl;
    [|destruct (In_b h (window_handles w))];
    (eexists _, _; split; [reflexivity|]; repeat split);
    intros e [= <-]; reflexivity.
Qed.

Lemma close_any env w :
  exists r w1, close env w = (r, w1) /\ steps env w r w1 CmdClose.
Proof.
  unfold close, command.
  destruct (fault env (tick w)) as [x|]; simpl;
    [|destruct (In_b (focus w) (window_handles w))];
    (eexists _, _; split; [reflexivity|]; repeat split);
    intros e [= <-]; reflexivity.
Qed.

Lemma get_current_url_any env w :
  exists r w1,
    get_current_url env w = (r, w1) /\ steps env w r w1 CmdCurrentUrl.
Proof. apply on_page_any. intros q e [=]. Qed.

Lemma get_any url env w :
  exists r w1, get url env w = (r, w1) /\ steps env w r w1 (CmdGet url).
Proof. apply on_page_any. intros q e [=]. Qed.

Lemma click_any b env w :
  exists r w1, click b env w = (r, w1) /\ steps env w r w1 (CmdClick (el_by b)).
Proof. apply on_page_any. intros q e [=]. Qed.

Lemma find_element_any l env w :
  exists r w1,
    find_element l env w = (r, w1) /\ steps env w r w1 (CmdFindElement l).
Proof.
  apply on_page_any. intros q e. destruct (matches q l); intros [= <-].
  reflexivity.
Qed.

Ltac marks_step :=
  unfold left_marks; simpl;
  repeat match goal with
         | H : steps _ _ _ _ _ |- _ => destruct H as (? & ? & ?)
         | H : left_marks _ _ _ |- _ =>
             destruct H as (? & ? & ?);
             cbn [m_switches m_loads m_lookups trace] in *
         end;
  repeat (rewrite ?switch_targets_app, ?loads_app, ?lookups_app;
          match goal with
          | H : trace _ = _ |- _ => rewrite H in *; clear H
          | H : switch_targets (trace _) = _ |- _ => rewrite H; clear H
          | H : loads (trace _) = _ |- _ => rewrite H; clear H
          | H : lookups (trace _) = _ |- _ => rewrite H; clear H
          end);
  simpl;
  rewrite ?switch_targets_app, ?loads_app, ?lookups_app; simpl;
  rewrite ?app_nil_r, <- ?app_assoc; simpl; auto.

Lemma close_new_windows_marks env label hs :
  forall w, exists w',
    Monetag.close_new_windows label hs env w = (Normal tt, w') /\
    left_marks w w' {| m_switches := hs; m_loads := []; m_lookups := [] |}.
Proof.
  induction hs as [|h rest IH]; intros w; cbn [Monetag.close_new_windows].
  - exists w. split; [reflexivity|]. marks_step.
  - unfold bind at 1, suppress, catch, bind at 1.
    destruct (switch_any h env w) as ([[]|e1] & w1 & E1 & S1); rewrite E1.
    2:{ rewrite (proj2 (proj2 S1) e1 eq_refl). unfold ret at 1.
        destruct (IH w1) as (w' & E & Hm). exists w'. split; [exact E|].
        marks_step. }
    unfold bind at 1.
    destruct (get_current_url_any env w1) as ([u|e2] & w2 & E2 & S2);
      rewrite E2.
    2:{ rewrite (proj2 (proj2 S2) e2 eq_refl). unfold ret at 1.
        destruct (IH w2) as (w' & E & Hm). exists w'. split; [exact E|].
        marks_step. }
    unfold bind at 1. rewrite print_run.
    match goal with
    | |- context [close env ?w3] =>
        destruct (close_any env w3) as ([[]|e4] & w4 & E4 & S4); rewrite E4
    end.
    2:{ rewrite (proj2 (proj2 S4) e4 eq_refl). unfold ret at 1.
        destruct (IH w4) as (w' & E & Hm). exists w'. split; [exact E|].
        marks_step. }
    destruct (IH w4) as (w' & E & Hm). exists w'. split; [exact E|].
    marks_step.
Qed.

(** The retry pass looks the locators up in order, each at most once, and
    at least the first one. *)
Lemma retry_close_button_marks env label ls :
  forall w, exists w' tried rest,
    Monetag.retry_close_button label ls env w = (Normal tt, w') /\
    left_marks w w' {| m_switches := []; m_loads := []; m_lookups := tried |} /\
    ls = tried ++ rest /\ (ls <> [] -> tried <> []).
Proof.
  induction ls as [|[lb lv] ls IH]; intros w;
    cbn [Monetag.retry_close_button].
  - exists w, [], []. split; [reflexivity|]. split; [marks_step|].
    split; [reflexivity | intros H; now elim H].
  - unfold bind at 1, catch, bind at 1.
    destruct (find_element_any (lb, lv) env w) as ([b|e1] & w1 & E1 & S1);
      rewrite E1.
    2:{ rewrite (proj2 (proj2 S1) e1 eq_refl). unfold bind at 1.
        rewrite print_run. unfold ret at 1.
        match goal with
        | |- context [Monetag.retry_close_button label ls env ?w2] =>
            destruct (IH w2) as (w' & tried & rest & E & Hm & Hs & _)
        end.
        exists w', ((lb, lv) :: tried), rest. split; [exact E|].
        split; [marks_step|]. split; [now rewrite Hs | discriminate]. }
    unfold bind at 1.
    destruct (click_any b env w1) as ([[]|e2] & w2 & E2 & S2); rewrite E2.
    2:{ rewrite (proj2 (proj2 S2) e2 eq_refl). unfold bind at 1.
        rewrite print_run. unfold ret at 1.
        match goal with
        | |- context [Monetag.retry_close_button label ls env ?w3] =>
            destruct (IH w3) as (w' & tried & rest & E & Hm & Hs & _)
        end.
        exists w', ((lb, lv) :: tried), rest. split; [exact E|].
        split; [marks_step|]. split; [now rewrite Hs | discriminate]. }
    unfold bind at 1. rewrite print_run. unfold ret.
    eexists _, [(lb, lv)], ls. split; [reflexivity|].
    split; [marks_step|]. split; [reflexivity | discriminate].
Qed.

Lemma switch_run h env w :
  fault env (tick w) = None ->
  exists w1,
    switch_to_window h env w
    = (if In_b h (window_handles w) then Normal tt
       else Raise NoSuchWindowException, w1) /\
    window_handles w1 = window_handles w ++ opens env (tick w) /\
    focus w1 = (if In_b h (window_handles w) then h else focus w) /\
    tick w1 = S (tick w).
Proof.
  intros F. unfold switch_to_window, command. rewrite F.
  destruct (In_b h (window_handles w));
    (eexists; split; [reflexivity|]; repeat split).
Qed.

Lemma close_run env w :
  fault env (tick w) = None -> focused w ->
  exists w1,
    close env w = (Normal tt, w1) /\
    window_handles w1
    = remove_handle (focus w) (window_handles w) ++ opens env (tick w) /\
    focus w1 = focus w /\ tick w1 = S (tick w).
Proof.
  intros F Hf. unfold close, command. rewrite F, Hf.
  eexists; split; [reflexivity|]; repeat split.
Qed.

(** When nothing fails and nothing opens any more, the new windows are
    closed. *)
Lemma close_new_windows_reliable env label hs :
  Reliable env ->
  forall w, Quiet_from env (tick w) ->
  exists w',
    Monetag.close_new_windows label hs env w = (Normal tt, w') /\
    window_handles w'
    = filter (fun x => negb (In_b x hs)) (window_handles w) /\
    tick w <= tick w'.
Proof.
  intros R. induction hs as [|h rest IH]; intros w Q;
    cbn [Monetag.close_new_windows].
  - exists w. split; [reflexivity|]. split; [|lia]. symmetry.
    apply filter_true.
  - unfold bind at 1, suppress, catch, bind at 1.
    destruct (switch_run h env w (R (tick w))) as (w1 & E1 & W1 & F1 & K1).
    rewrite E1. rewrite (Q (tick w)), app_nil_r in W1 by lia.
    destruct (In_b h (window_handles w)) eqn:Hin.
    + assert (Hf1 : focused w1).
      { unfold focused. now rewrite W1, F1. }
      unfold bind at 1.
      destruct (on_page_run CmdCurrentUrl (fun q => Normal (current_url q))
                  env (R (tick w1)) Hf1) as (w2 & E2 & M2).
      unfold get_current_url. rewrite E2.
      unfold bind at 1. rewrite print_run.
      pose proof (moved_focused Hf1 M2) as Hf2.
      destruct M2 as (W2 & F2 & K2 & _).
      rewrite (Q (tick w1)), app_nil_r in W2 by lia.
      match goal with
      | |- context [close env ?w3] =>
          destruct (@close_run env w3 (R _) Hf2) as (w4 & E4 & W4 & _ & K4)
      end.
      rewrite E4. cbn [window_handles focus tick] in W4, K4.
      rewrite (Q (tick w2)), app_nil_r in W4 by lia.
      destruct (IH w4) as (w' & E & W & K).
      { intros n Hn. apply Q. lia. }
      exists w'. split; [exact E|]. split; [|lia].
      rewrite W, W4, W2, F2, F1, W1.
      unfold remove_handle. rewrite filter_filter. apply filter_ext.
      intros x. cbn [In_b existsb]. unfold In_b.
      rewrite (String.eqb_sym x h), negb_orb. reflexivity.
    + cbn [is_webdriver]. unfold ret at 1.
      destruct (IH w1) as (w' & E & W & K).
      { intros n Hn. apply Q. lia. }
      exists w'. split; [exact E|]. split; [|lia].
      rewrite W, W1. apply filter_ext_in. intros x Hx.
      cbn [In_b existsb]. unfold In_b.
      destruct (String.eqb_spec x h) as [->|_]; [|reflexivity].
      apply In_b_In in Hx. congruence.
Qed.

Lemma same_windows_trans w w1 w2 :
  same_windows w w1 -> same_windows w1 w2 -> same_windows w w2.
Proof. intros [A B] [C D]. split; congruence. Qed.

Lemma on_page_same {A} (c : Cmd) (f : Page -> Outcome A) env w r w1 :
  Quiet_from env (tick w) -> on_page c f env w = (r, w1) ->
  same_windows w w1 /\ tick w1 = S (tick w).
Proof.
  intros Q. unfold on_page, query, command.
  destruct (fault env (tick w)); [|destruct (In_b _ _)];
    intros [= <- <-]; repeat split; simpl;
    now rewrite ?(Q (tick w) (le_n _)), ?app_nil_r.
Qed.

Lemma Quiet_from_later env a b : a <= b -> Quiet_from env a -> Quiet_from env b.
Proof. intros Hab Q n Hn. apply Q. lia. Qed.

Lemma retry_close_button_same env label ls :
  forall w r w',
    Quiet_from env (tick w) ->
    Monetag.retry_close_button label ls env w = (r, w') -> same_windows w w'.
Proof.
  induction ls as [|[lb lv] ls IH]; intros w r w' Q H;
    cbn [Monetag.retry_close_button] in H.
  - inversion H; subst. now split.
  - unfold bind at 1, catch, bind at 1 in H.
    destruct (find_element (lb, lv) env w) as [[b|e1] w1] eqn:E1;
      apply on_page_same in E1; try assumption;
      destruct E1 as [E1 K1];
      assert (Q1 : Quiet_from env (tick w1))
        by (eapply Quiet_from_later; [|exact Q]; lia).
    + unfold bind at 1 in H.
      destruct (click b env w1) as [[[]|e2] w2] eqn:E2;
        apply on_page_same in E2; try assumption;
        destruct E2 as [E2 K2];
        assert (Q2 : Quiet_from env (tick w2))
          by (eapply Quiet_from_later; [|exact Q]; lia).
      * unfold bind at 1 in H. rewrite print_run in H. unfold ret in H.
        inversion H; subst. cbn. destruct E1, E2. split; simpl; congruence.
      * destruct (is_webdriver e2).
        -- unfold bind at 1 in H. rewrite print_run in H. unfold ret at 1 in H.
           apply IH in H; [|exact Q2].
           destruct E1, E2, H. split; simpl in *; congruence.
        -- unfold raise in H. inversion H; subst.
           eapply same_windows_trans; eassumption.
    + destruct (is_webdriver e1).
      * unfold bind at 1 in H. rewrite print_run in H. unfold ret at 1 in H.
        apply IH in H; [|exact Q1].
        destruct E1, H. split; simpl in *; congruence.
      * unfold raise in H. inversion H; subst. exact E1.
Qed.

Lemma reload_marks env label url (b : bool) :
  forall w, exists w',
    (if b then
       print (label ++ " Reloading page after closing popup(s).") ;;
       suppress (get url ;; sleep 800%N)
     else ret tt) env w = (Normal tt, w') /\
    left_marks w w' {| m_switches := [];
                       m_loads := if b then [url] else [];
                       m_lookups := [] |} /\
    closes (trace w') = closes (trace w) /\
    (Quiet_from env (tick w) -> same_windows w w' /\ tick w <= tick w').
Proof.
  intros w. destruct b.
  - unfold bind at 1. rewrite print_run. unfold suppress, catch, bind at 1.
    match goal with
    | |- context [get url env ?w1] =>
        destruct (get_any url env w1) as ([[]|e] & w2 & E & S);
        destruct (get url env w1) as [r0 w0] eqn:E0
    end; inversion E; subst r0 w0.
    + eexists. split; [reflexivity|]. split; [marks_step|].
      split.
      { destruct S as (T & _). cbn [trace]. rewrite T. cbn [trace].
        unfold closes. rewrite !filter_app. cbn. now rewrite !app_nil_r. }
      intros Q. apply on_page_same in E0; [|exact Q].
      destruct E0 as [[A B] K]. cbn [tick] in K.
      split; [|cbn [tick]; lia].
      split; simpl in *;
        now rewrite ?(Q (tick w2)), ?app_nil_r by (rewrite K; lia).
    + rewrite (proj2 (proj2 S) e eq_refl). eexists. split; [reflexivity|].
      split; [marks_step|].
      split.
      { destruct S as (T & _). rewrite T. cbn [trace].
        unfold closes. rewrite !filter_app. cbn. now rewrite !app_nil_r. }
      intros Q. apply on_page_same in E0; [|exact Q].
      destruct E0 as [E0 K]. cbn [tick] in K. split; [exact E0 | lia].
  - exists w. split; [reflexivity|]. split; [marks_step|].
    split; [reflexivity|]. intros _. split; [now split | lia].
Qed.

(** The marks of the whole tail. *)
Lemma reconcile_and_retry_marks env label primary url before w :
  fault env (tick w) = None ->
  exists w' tried rest,
    Monetag.reconcile_and_retry label primary url before env w
    = (Normal tt, w') /\
    left_marks w w'
      {| m_switches :=
           set_order env (Monetag.new_windows (window_handles w) before)
           ++ [primary];
         m_loads :=
           if nonempty
                (set_order env (Monetag.new_windows (window_handles w) before))
           then [url] else [];
         m_lookups := tried |} /\
    Monetag.CLOSE_BUTTON_LOCATORS = tried ++ rest /\ tried <> [].
Proof.
  intros F. unfold Monetag.reconcile_and_retry.
  unfold bind at 1, get_window_handles, query, command. rewrite F.
  cbv beta iota zeta. cbn [exn_of].
  unfold bind at 1, list_of_set. cbn [set_order window_handles].
  unfold bind at 1.
  match goal with
  | |- context [Monetag.close_new_windows label ?hs env ?w1] =>
      destruct (close_new_windows_marks env label hs w1) as (w2 & E2 & M2)
  end.
  rewrite E2. unfold bind at 1. unfold suppress at 1. unfold catch at 1.
  destruct (switch_any primary env w2) as (r3 & w3 & E3 & S3). rewrite E3.
  assert (E3' : (match r3 with
                 | Normal a => (Normal a, w3)
                 | Raise e => (if is_webdriver e then ret tt else raise e)
                                env w3
                 end) = (Normal tt, w3)).
  { destruct r3 as [[]|e]; [reflexivity|].
    now rewrite (proj2 (proj2 S3) e eq_refl). }
  rewrite E3'. clear E3'. unfold bind at 1.
  destruct (@reload_marks env label url
              (nonempty (set_order env
                           (Monetag.new_windows (window_handles w) before)))
              w3)
    as (w4 & E4 & M4 & _).
  rewrite E4.
  destruct (retry_close_button_marks env label Monetag.CLOSE_BUTTON_LOCATORS w4)
    as (w5 & tried & rest & E5 & M5 & Hs & Hne).
  exists w5, tried, rest. split; [exact E5|].
  split; [|split; [exact Hs | apply Hne; discriminate]].
  cbn [trace] in M2. marks_step.
Qed.

Lemma new_windows_spec h after before :
  In h (Monetag.new_windows after before)
  <-> In h after /\ In_b h before = false.
Proof.
  unfold Monetag.new_windows. rewrite nodup_In, filter_In.
  now rewrite negb_true_iff.
Qed.

Lemma In_b_false h hs : In_b h hs = false <-> ~ In h hs.
Proof.
  rewrite <- In_b_In. destruct (In_b h hs); split; intros H;
    try reflexivity; try discriminate; try (intros [=]); now elim H.
Qed.

Lemma In_b_perm h a b : Permutation a b -> In_b h a = In_b h b.
Proof.
  intros P. destruct (In_b h b) eqn:E.
  - apply In_b_In. apply In_b_In in E. eapply Permutation_in; [|exact E].
    now symmetry.
  - apply In_b_false. apply In_b_false in E. intros H. apply E.
    eapply Permutation_in; eassumption.
Qed.

(** When nothing fails and nothing opens any more, the tail leaves the
    windows that are not new, the focus on the primary one. *)
Lemma reconcile_and_retry_reliable env label primary url before w r w' :
  Reliable env -> SetOrder env -> Quiet_from env (tick w) ->
  In primary (window_handles w) -> In primary before ->
  Monetag.reconcile_and_retry label primary url before env w = (r, w') ->
  window_handles w'
  = filter (fun x =>
              negb (In_b x (Monetag.new_windows (window_handles w) before)))
           (window_handles w) /\
  focus w' = primary.
Proof.
  intros R P Q Hin Hbefore H. unfold Monetag.reconcile_and_retry in H.
  unfold bind at 1, get_window_handles, query, command in H.
  rewrite R, (Q (tick w)), app_nil_r in H by lia.
  cbv beta iota zeta in H. cbn [exn_of] in H.
  unfold bind at 1, list_of_set in H. cbn [set_order window_handles] in H.
  unfold bind at 1 in H.
  match type of H with
  | context [Monetag.close_new_windows label ?hs env ?w1] =>
      destruct (@close_new_windows_reliable env label hs R w1)
        as (w2 & E2 & W2 & K2)
  end.
  { intros n Hn. apply Q. cbn [tick] in Hn. lia. }
  rewrite E2 in H. cbn [window_handles tick] in W2, K2.
  assert (W2' : window_handles w2
                = filter (fun x =>
                            negb (In_b x (Monetag.new_windows
                                            (window_handles w) before)))
                         (window_handles w)).
  { rewrite W2. apply filter_ext. intros x. f_equal. apply In_b_perm, P. }
  clear W2.
  assert (Hkeep : In_b primary (window_handles w2) = true).
  { rewrite W2'. apply In_b_In. apply filter_In. split; [assumption|].
    apply negb_true_iff. apply In_b_false. intros Hnew.
    apply new_windows_spec in Hnew. destruct Hnew as [_ Hnew].
    apply In_b_false in Hnew. contradiction. }
  unfold bind at 1 in H. unfold suppress at 1 in H. unfold catch at 1 in H.
  destruct (switch_run primary env w2 (R (tick w2)))
    as (w3 & E3 & W3 & F3 & K3).
  rewrite E3, Hkeep in H. rewrite Hkeep in F3.
  rewrite (Q (tick w2)), app_nil_r in W3 by lia.
  unfold bind at 1 in H.
  destruct (@reload_marks env label url
              (nonempty (set_order env
                           (Monetag.new_windows (window_handles w) before)))
              w3)
    as (w4 & E4 & _ & _ & S4).
  rewrite E4 in H.
  destruct S4 as [[A4 B4] K4]; [intros n Hn; apply Q; lia|].
  apply retry_close_button_same in H; [|intros n Hn; apply Q; lia].
  destruct H as [A5 B5].
  split; congruence.
Qed.

(* ================================================================= *)
(** ** The fallback of the overlay dismisser: the claims *)

(** C4 as stated fails: the body click opens no window, none is closed and
    nothing is loaded again, and still the retry pass looks up all five
    close-button locators. *)
Lemma retry_without_new_window :
  fst (Monetag.dismiss_initial_overlay "view 1"
         (showing (page_with_button (TAG_NAME, "body")) calm) one_tab)
  = Normal tt /\
  closes (trace (snd (Monetag.dismiss_initial_overlay "view 1"
         (showing (page_with_button (TAG_NAME, "body")) calm) one_tab)))
  = 0 /\
  loads (trace (snd (Monetag.dismiss_initial_overlay "view 1"
         (showing (page_with_button (TAG_NAME, "body")) calm) one_tab)))
  = [] /\
  lookups (trace (snd (Monetag.dismiss_initial_overlay "view 1"
         (showing (page_with_button (TAG_NAME, "body")) calm) one_tab)))
  = (TAG_NAME, "body") :: Monetag.CLOSE_BUTTON_LOCATORS.
Proof. repeat split; vm_compute; reflexivity. Qed.

(** With a popup that the body click opens: it is closed, the page is
    loaded again and the retry pass runs. *)
Example fallback_with_popup_run :
  fst (Monetag.dismiss_initial_overlay "view 1"
         (opening_at 9 ["popup"]
            (showing (page_with_button (TAG_NAME, "body")) calm)) one_tab)
  = Normal tt /\
  switch_targets
    (trace (snd (Monetag.dismiss_initial_overlay "view 1"
         (opening_at 9 ["popup"]
            (showing (page_with_button (TAG_NAME, "body")) calm)) one_tab)))
  = ["popup"; "main"] /\
  loads
    (trace (snd (Monetag.dismiss_initial_overlay "view 1"
         (opening_at 9 ["popup"]
            (showing (page_with_button (TAG_NAME, "body")) calm)) one_tab)))
  = [Monetag.HOME_URL] /\
  window_handles
    (snd (Monetag.dismiss_initial_overlay "view 1"
         (opening_at 9 ["popup"]
            (showing (page_with_button (TAG_NAME, "body")) calm)) one_tab))
  = ["main"].
Proof. repeat split; vm_compute; reflexivity. Qed.

(** Everything else in [dismiss_initial_overlay] is guarded. *)
Lemma wait_until_any timeout c env w :
  exists r w1,
    wait_until timeout c env w = (r, w1) /\
    steps env w r w1 (CmdWait c timeout).
Proof.
  unfold wait_until, command.
  destruct (fault env (tick w)) as [x|]; simpl;
    [|destruct (In_b (focus w) (window_handles w));
      [destruct (cond_holds (page env (tick w)) c)|]];
    (eexists _, _; split; [reflexivity|]; repeat split);
    intros e [= <-]; reflexivity.
Qed.

Lemma offset_click_any env w :
  exists r w1, offset_click env w = (r, w1) /\ steps env w r w1 CmdOffsetClick.
Proof. apply on_page_any. intros q e [=]. Qed.

Lemma get_window_handles_any env w :
  exists r w1,
    get_window_handles env w = (r, w1) /\ steps env w r w1 CmdWindowHandles.
Proof.
  unfold get_window_handles, query, command.
  destruct (fault env (tick w)) as [x|]; simpl;
    (eexists _, _; split; [reflexivity|]; repeat split);
    intros e [= <-]; reflexivity.
Qed.

Lemma click_close_button_returns env label ls :
  forall w, exists b w',
    Monetag.click_close_button label ls env w = (Normal b, w').
Proof.
  induction ls as [|[lb lv] ls IH]; intros w;
    cbn [Monetag.click_close_button].
  - eexists _, _. reflexivity.
  - unfold bind at 1, catch, bind at 1.
    destruct (wait_until_any Monetag.OVERLAY_WAIT
                (element_to_be_clickable (lb, lv)) env w)
      as ([b|e1] & w1 & E1 & S1); rewrite E1.
    + unfold bind at 1.
      destruct (click_any b env w1) as ([[]|e2] & w2 & E2 & S2); rewrite E2.
      * unfold bind at 1. rewrite print_run. unfold ret.
        eexists _, _. reflexivity.
      * rewrite (proj2 (proj2 S2) e2 eq_refl).
        destruct (is_timeout e2); unfold bind at 1; rewrite print_run;
          unfold ret at 1; apply IH.
    + rewrite (proj2 (proj2 S1) e1 eq_refl).
      destruct (is_timeout e1); unfold bind at 1; rewrite print_run;
        unfold ret at 1; apply IH.
Qed.

Lemma synthetic_click_returns env label w :
  exists b w',
    catch
      (body <- find_element (TAG_NAME, "body") ;;
       click body ;;
       sleep 500%N ;;
       ret true)
      (fun exc =>
         if is_webdriver exc then
           print (label ++ " Body click failed: " ++ Exn_str exc
                        ++ "; trying offset click.") ;;
           catch
             (offset_click ;; sleep 500%N ;; ret true)
             (fun nested_exc =>
                if is_webdriver nested_exc then
                  print (label ++ " Offset click failed: "
                               ++ Exn_str nested_exc) ;;
                  ret false
                else raise nested_exc)
         else raise exc) env w = (Normal b, w').
Proof.
  assert (Hoff : forall msg w0, exists b w',
             (print msg ;;
              catch
                (offset_click ;; sleep 500%N ;; ret true)
                (fun nested_exc =>
                   if is_webdriver nested_exc then
                     print (label ++ " Offset click failed: "
                                  ++ Exn_str nested_exc) ;;
                     ret false
                   else raise nested_exc)) env w0 = (Normal b, w')).
  { intros msg w0. unfold bind at 1. rewrite print_run.
    unfold catch, bind at 1.
    match goal with
    | |- context [offset_click env ?w1] =>
        destruct (offset_click_any env w1) as ([[]|e] & w2 & E & S); rewrite E
    end.
    - eexists _, _. reflexivity.
    - rewrite (proj2 (proj2 S) e eq_refl). eexists _, _. reflexivity. }
  unfold catch at 1, bind at 1.
  destruct (find_element_any (TAG_NAME, "body") env w)
    as ([body|e1] & w1 & E1 & S1); rewrite E1.
  - unfold bind at 1.
    destruct (click_any body env w1) as ([[]|e2] & w2 & E2 & S2); rewrite E2.
    + eexists _, _. reflexivity.
    + rewrite (proj2 (proj2 S2) e2 eq_refl). apply Hoff.
  - rewrite (proj2 (proj2 S1) e1 eq_refl). apply Hoff.
Qed.

(** So an exception that leaves [dismiss_initial_overlay] comes from one of
    the reads of [driver.current_url] and [driver.window_handles]: that
    read is the last call of the trace. *)
Lemma dismiss_initial_overlay_raises_from_a_read env label w e w' :
  Monetag.dismiss_initial_overlay label env w = (Raise e, w') ->
  exists t c,
    (c = CmdCurrentUrl \/ c = CmdWindowHandles) /\
    trace w' = t ++ [Issued c (Some e)].
Proof.
  intros H. unfold Monetag.dismiss_initial_overlay in H.
  cbv zeta in H. unfold bind at 1, catch at 1, bind at 1 in H.
  destruct (current_window_handle env w) as [[p|e0] w0] eqn:E0.
  2:{ assert (He0 : is_webdriver e0 = true).
      { revert E0. unfold current_window_handle, query, command.
        destruct (fault env (tick w)); [|destruct (In_b _ _)];
          intros [= <- _]; reflexivity. }
      rewrite He0 in H. discriminate H. }
  unfold ret at 1 in H. cbv beta iota in H. unfold bind at 1 in H.
  match type of H with
  | context [Monetag.click_close_button ?lbl ?ls env w0] =>
      destruct (click_close_button_returns env lbl ls w0) as (b & w1 & E1)
  end.
  rewrite E1 in H. destruct b; [discriminate H|].
  unfold bind at 1 in H.
  destruct (get_current_url_any env w1) as ([u|e2] & w2 & E2 & S2);
    rewrite E2 in H.
  2:{ inversion H; subst. exists (trace w1), CmdCurrentUrl.
      split; [now left | exact (proj1 S2)]. }
  unfold bind at 1 in H.
  destruct (get_window_handles_any env w2) as ([before|e3] & w3 & E3 & S3);
    rewrite E3 in H.
  2:{ inversion H; subst. exists (trace w2), CmdWindowHandles.
      split; [now right | exact (proj1 S3)]. }
  unfold bind at 1 in H. rewrite print_run in H. unfold bind at 1 in H.
  match type of H with
  | context [catch _ _ env ?w4] =>
      match type of H with
      | context [Monetag.reconcile_and_retry ?lbl _ _ _] =>
          destruct (synthetic_click_returns env lbl w4) as (b & w5 & E5)
      end
  end.
  rewrite E5 in H. destruct b; cbn [negb] in H; [|discriminate H].
  unfold Monetag.reconcile_and_retry in H. unfold bind at 1 in H.
  destruct (get_window_handles_any env w5) as ([after|e6] & w6 & E6 & S6);
    rewrite E6 in H.
  2:{ inversion H; subst. exists (trace w5), CmdWindowHandles.
      split; [now right | exact (proj1 S6)]. }
  exfalso.
  assert (F5 : fault env (tick w5) = None).
  { revert E6. unfold get_window_handles, query, command.
    destruct (fault env (tick w5)); [discriminate | reflexivity]. }
  match type of H with
  | context [Monetag.retry_close_button ?lbl _] =>
      destruct (@reconcile_and_retry_marks env lbl p u before w5 F5)
        as (w7 & tried & rest & E7 & _)
  end.
  unfold Monetag.reconcile_and_retry in E7. unfold bind at 1 in E7.
  rewrite E6 in E7. rewrite E7 in H. discriminate H.
Qed.

(** C8 (the code fails the claim).  Three reads of [dismiss_initial_overlay]
    stand outside every handler: [driver.current_url] and
    [driver.window_handles] before the body click, and
    [driver.window_handles] after it.  Here the five waits time out and
    the read fails with a [WebDriverException], which leaves the function,
    in each of the three places. *)
Theorem unguarded_reads_escape :
  fst (Monetag.dismiss_initial_overlay "view 1"
         (failing_at 6 OtherWebDriverError calm) one_tab)
  = Raise WebDriverException /\
  fst (Monetag.dismiss_initial_overlay "view 1"
         (failing_at 7 OtherWebDriverError calm) one_tab)
  = Raise WebDriverException /\
  fst (Monetag.dismiss_initial_overlay "view 1"
         (failing_at 11 OtherWebDriverError
            (showing (page_with_button (TAG_NAME, "body")) calm)) one_tab)
  = Raise WebDriverException /\
  calls (trace (snd (Monetag.dismiss_initial_overlay "view 1"
         (failing_at 6 OtherWebDriverError calm) one_tab)))
  = [(CmdCurrentWindowHandle, None)]
    ++ map (timed_out element_to_be_clickable Monetag.OVERLAY_WAIT)
           Monetag.CLOSE_BUTTON_LOCATORS
    ++ [(CmdCurrentUrl, Some WebDriverException)].
Proof. repeat split; vm_compute; reflexivity. Qed.

(* ================================================================= *)
(** ** Exit status *)

Lemma failures_passed results :
  nonempty (Monetag.failures results) = negb (forallb passed results).
Proof.
  unfold Monetag.failures.
  induction results as [|r rs IH]; [reflexivity|]. cbn [filter forallb].
  unfold passed at 1.
  destruct (truthy (Monetag.error r)); [reflexivity|].
  destruct (Monetag.ads_detected r); [exact IH | reflexivity].
Qed.

(** C9 (amended).  [monetag_ad_tester.main] returns 0 when every view has
    no error and saw ads, 2 when some view has an error or saw none, and 1
    when a [WebDriverException] leaves the run.  The [main] of the
    navigation tester and of the play-button tester return 0 whenever the
    run returns its results, whatever they record, and 1 when a
    [WebDriverException] leaves the run. *)
Theorem exit_status env w :
  (forall results w1,
      Monetag.perform_test_cycle Monetag.DEFAULT_VIEW_COUNT
        Monetag.DEFAULT_VIEW_DELAY env w = (Normal results, w1) ->
      fst (Monetag.main env w)
      = Normal (if forallb passed results then 0 else 2)) /\
  (forall results w1,
      NavClick.exercise_navigation NavClick.TOGGLE_ITERATIONS env w
      = (Normal results, w1) ->
      fst (NavClick.main env w) = Normal 0) /\
  (forall results w1,
      PlayButton.exercise_games_button PlayButton.ATTEMPTS env w
      = (Normal results, w1) ->
      fst (PlayButton.main env w) = Normal 0) /\
  (forall e w1,
      is_webdriver e = true ->
      (Monetag.perform_test_cycle Monetag.DEFAULT_VIEW_COUNT
         Monetag.DEFAULT_VIEW_DELAY env w = (Raise e, w1) ->
       fst (Monetag.main env w) = Normal 1) /\
      (NavClick.exercise_navigation NavClick.TOGGLE_ITERATIONS env w
       = (Raise e, w1) ->
       fst (NavClick.main env w) = Normal 1) /\
      (PlayButton.exercise_games_button PlayButton.ATTEMPTS env w
       = (Raise e, w1) ->
       fst (PlayButton.main env w) = Normal 1)).
Proof.
  split; [|split; [|split]].
  - intros results w1 H. unfold Monetag.main, bind at 1, catch, bind at 1.
    rewrite H. cbn [ret]. unfold ret at 1. cbv beta iota.
    rewrite failures_passed.
    destruct (forallb passed results); reflexivity.
  - intros results w1 H. unfold NavClick.main, bind at 1, catch, bind at 1.
    rewrite H. unfold ret at 1. cbv beta iota. unfold bind.
    destruct (nonempty _); reflexivity.
  - intros results w1 H. unfold PlayButton.main, bind at 1, catch, bind at 1.
    rewrite H. reflexivity.
  - intros e w1 He. repeat split; intros H.
    + unfold Monetag.main, bind at 1, catch, bind at 1. rewrite H, He.
      reflexivity.
    + unfold NavClick.main, bind at 1, catch, bind at 1. rewrite H, He.
      reflexivity.
    + unfold PlayButton.main, bind at 1, catch, bind at 1. rewrite H, He.
      reflexivity.
Qed.

Lemma exit_status_witness :
  fst (Monetag.main with_ads one_tab) = Normal 0 /\
  fst (Monetag.main calm one_tab) = Normal 2 /\
  fst (NavClick.main calm one_tab) = Normal 0 /\
  fst (PlayButton.main calm one_tab) = Normal 0 /\
  fst (Monetag.main no_driver one_tab) = Normal 1.
Proof.
  split; [|split; [|split; [|split]]].
  - rewrite (proj1 (exit_status with_ads one_tab)
               (returned [] (Monetag.perform_test_cycle
                  Monetag.DEFAULT_VIEW_COUNT Monetag.DEFAULT_VIEW_DELAY
                  with_ads one_tab))
               (snd (Monetag.perform_test_cycle
                  Monetag.DEFAULT_VIEW_COUNT Monetag.DEFAULT_VIEW_DELAY
                  with_ads one_tab))
               ltac:(vm_compute; reflexivity)).
    vm_compute. reflexivity.
  - rewrite (proj1 (exit_status calm one_tab)
               (returned [] (Monetag.perform_test_cycle
                  Monetag.DEFAULT_VIEW_COUNT Monetag.DEFAULT_VIEW_DELAY
                  calm one_tab))
               (snd (Monetag.perform_test_cycle
                  Monetag.DEFAULT_VIEW_COUNT Monetag.DEFAULT_VIEW_DELAY
                  calm one_tab))
               ltac:(vm_compute; reflexivity)).
    vm_compute. reflexivity.
  - exact (proj1 (proj2 (exit_status calm one_tab))
             (returned [] (NavClick.exercise_navigation
                NavClick.TOGGLE_ITERATIONS calm one_tab))
             (snd (NavClick.exercise_navigation
                NavClick.TOGGLE_ITERATIONS calm one_tab))
             ltac:(vm_compute; reflexivity)).
  - exact (proj1 (proj2 (proj2 (exit_status calm one_tab)))
             (returned [] (PlayButton.exercise_games_button
                PlayButton.ATTEMPTS calm one_tab))
             (snd (PlayButton.exercise_games_button
                PlayButton.ATTEMPTS calm one_tab))
             ltac:(vm_compute; reflexivity)).
  - exact (proj1 (proj2 (proj2 (proj2 (exit_status no_driver one_tab)))
                   WebDriverException
                   (snd (Monetag.perform_test_cycle
                      Monetag.DEFAULT_VIEW_COUNT Monetag.DEFAULT_VIEW_DELAY
                      no_driver one_tab))
                   eq_refl)
             ltac:(vm_compute; reflexivity)).
Defined.

(** C9 as stated fails: every one of the sixteen iterations of the
    navigation tester records an error, every one of the twelve attempts of
    the play-button tester too, and both [main] return 0. *)
Lemma main_returns_zero_after_errors :
  fst (NavClick.main calm one_tab) = Normal 0 /\
  List.length (returned [] (NavClick.exercise_navigation
                              NavClick.TOGGLE_ITERATIONS calm one_tab)) = 16 /\
  forallb (fun r => truthy (NavClick.error r))
    (returned [] (NavClick.exercise_navigation
                    NavClick.TOGGLE_ITERATIONS calm one_tab)) = true /\
  fst (PlayButton.main calm one_tab) = Normal 0 /\
  List.length (returned [] (PlayButton.exercise_games_button
                              PlayButton.ATTEMPTS calm one_tab)) = 12 /\
  forallb (fun r => truthy (PlayButton.error r))
    (returned [] (PlayButton.exercise_games_button
                    PlayButton.ATTEMPTS calm one_tab)) = true.
Proof. repeat split; vm_compute; reflexivity. Qed.

(* ================================================================= *)
(** ** The polling loop of the play-button tester *)

Lemma command_later {A} (c : Cmd)
    (sem : Page -> World -> Outcome A * list Handle * Handle * Millis)
    env w r w1 :
  command c sem env w = (r, w1) -> (now w <= now w1)%N.
Proof.
  unfold command.
  destruct (fault env (tick w));
    [|destruct (sem (page env (tick w)) w) as [[[r' hs] f] dt]];
    intros [= <- <-]; simpl; lia.
Qed.

Lemma find_first_visible_later env ls :
  forall w r w1,
    PlayButton.find_first_visible ls env w = (r, w1) -> (now w <= now w1)%N.
Proof.
  induction ls as [|[by_ value] ls IH]; intros w r w1 H;
    cbn [PlayButton.find_first_visible] in H.
  - inversion H; subst. lia.
  - unfold bind at 1, catch, bind at 1 in H.
    destruct (wait_until 1500%N (presence_of_element_located (by_, value))
                env w) as [[el|e1] w2] eqn:E1;
      apply command_later in E1.
    + unfold bind at 1 in H.
      destruct (is_displayed el env w2) as [[d|e2] w3] eqn:E2;
        apply command_later in E2.
      * unfold ret at 1 in H. destruct d.
        -- inversion H; subst. lia.
        -- apply IH in H. lia.
      * destruct (is_webdriver e2).
        -- unfold ret at 1 in H. apply IH in H. lia.
        -- inversion H; subst. lia.
    + destruct (is_webdriver e1).
      * unfold ret at 1 in H. apply IH in H. lia.
      * inversion H; subst. lia.
Qed.

Lemma bind_ext_run {A B} (c : M A) (k1 k2 : A -> M B) env w :
  (forall a w1, c env w = (Normal a, w1) -> k1 a env w1 = k2 a env w1) ->
  bind c k1 env w = bind c k2 env w.
Proof. unfold bind. destruct (c env w) as [[a|e] w1]; auto. Qed.

Lemma sleep_later d env w r w1 :
  sleep d env w = (r, w1) -> (now w + d <= now w1)%N.
Proof. unfold sleep. intros [= <- <-]. simpl. lia. Qed.

Lemma are_nav_buttons_visible_loop_step fuel deadline env w :
  PlayButton.are_nav_buttons_visible_loop (S fuel) deadline env w
  = if (now w <? deadline)%N
    then (home <- PlayButton.find_first_visible PlayButton.HOME_LOCATORS ;;
          games <- PlayButton.find_first_visible PlayButton.GAMES_LOCATORS ;;
          match home, games with
          | Some _, Some _ => ret true
          | _, _ =>
              sleep 200%N ;;
              PlayButton.are_nav_buttons_visible_loop fuel deadline
          end) env w
    else (Normal false, w).
Proof.
  cbn [PlayButton.are_nav_buttons_visible_loop]. unfold bind at 1, time_time.
  destruct (now w <? deadline)%N; reflexivity.
Qed.

Lemma are_nav_buttons_visible_loop_out deadline env w :
  PlayButton.are_nav_buttons_visible_loop 0 deadline env w = (Normal false, w).
Proof.
  cbn [PlayButton.are_nav_buttons_visible_loop]. unfold bind, time_time.
  destruct (now w <? deadline)%N; reflexivity.
Qed.

(** Fuel that covers the time left to the deadline is never used up: one
    more round of fuel changes nothing. *)
Lemma are_nav_buttons_visible_loop_fuel env deadline fuel :
  forall w,
    (deadline < now w + 200 * N.of_nat fuel)%N ->
    PlayButton.are_nav_buttons_visible_loop (S fuel) deadline env w
    = PlayButton.are_nav_buttons_visible_loop fuel deadline env w.
Proof.
  induction fuel as [|fuel IH]; intros w Hd.
  - rewrite are_nav_buttons_visible_loop_step,
      are_nav_buttons_visible_loop_out.
    assert (E : (now w <? deadline)%N = false) by (apply N.ltb_ge; lia).
    now rewrite E.
  - rewrite (are_nav_buttons_visible_loop_step (S fuel)),
      (are_nav_buttons_visible_loop_step fuel).
    destruct (now w <? deadline)%N; [|reflexivity].
    apply bind_ext_run. intros home w1 E1.
    apply find_first_visible_later in E1.
    apply bind_ext_run. intros games w2 E2.
    apply find_first_visible_later in E2.
    destruct home, games; try reflexivity;
      (apply bind_ext_run; intros [] w3 E3; apply sleep_later in E3;
       apply IH; lia).
Qed.

(** [are_nav_buttons_visible] has all the fuel it can use. *)
Lemma are_nav_buttons_visible_fuel env timeout w more :
  PlayButton.are_nav_buttons_visible_loop
    (more + S (N.to_nat (timeout / 200))) (now w + timeout)%N env w
  = PlayButton.are_nav_buttons_visible_loop
      (S (N.to_nat (timeout / 200))) (now w + timeout)%N env w.
Proof.
  induction more as [|more IH]; [reflexivity|].
  rewrite <- IH. apply are_nav_buttons_visible_loop_fuel.
  rewrite Nat2N.inj_add, Nat2N.inj_succ, N2Nat.id.
  pose proof (N.mod_lt timeout 200 ltac:(discriminate)).
  pose proof (N.div_mod timeout 200 ltac:(discriminate)). lia.
Qed.

(* ================================================================= *)
(** ** The recorded results *)

(** One step back from a computation that returned: its first command
    returned too. *)
Ltac peel H :=
  cbv beta iota in H; unfold bind at 1 in H;
  match type of H with
  | (let (_, _) := ?c in _) = _ =>
      let a := fresh "a" in
      let e := fresh "e" in
      let w := fresh "w" in
      let E := fresh "E" in
      destruct c as [[a|e] w] eqn:E; [|discriminate H]
  end.

Ltac open_pairs :=
  repeat match goal with
         | x : ?T |- _ =>
             let T' := eval hnf in T in
             match T' with prod _ _ => destruct x end
         end.


Lemma finally_normal {A} (c : M A) (f : M unit) env w a w' :
  finally c f env w = (Normal a, w') ->
  exists w1, c env w = (Normal a, w1).
Proof.
  unfold finally. destruct (c env w) as [r w1].
  destruct (f env w1) as [[[]|e] w2]; intros [= -> <-]. eauto.
Qed.

Lemma managed_driver_normal {A} (body : M A) env w a w' :
  Monetag.managed_driver body env w = (Normal a, w') ->
  exists w0 w1, body env w0 = (Normal a, w1).
Proof.
  unfold Monetag.managed_driver. intros H. peel H.
  apply finally_normal in H. destruct H as [w1 H]. eauto.
Qed.



Lemma find_first_visible_normal ls env :
  forall w e w', PlayButton.find_first_visible ls env w <> (Raise e, w').
Proof.
  induction ls as [|[by_ value] rest IH]; intros w e w';
    cbn [PlayButton.find_first_visible]; [discriminate|].
  unfold bind at 1, catch, bind at 1.
  destruct (wait_until_any 1500%N (presence_of_element_located (by_, value))
              env w) as ([el|e1] & w1 & -> & _ & _ & W1).
  - unfold bind at 1.
    destruct (@on_page_any bool (CmdIsDisplayed (el_by el))
                (fun _ => Normal (el_displayed el)) env w1)
      as ([d|e2] & w2 & E2 & _ & _ & W2); [discriminate| |].
    + unfold is_displayed. rewrite E2. unfold ret at 1.
      destruct d; [discriminate | apply IH].
    + unfold is_displayed. rewrite E2, (W2 e2 eq_refl). unfold ret at 1.
      apply IH.
  - rewrite (W1 e1 eq_refl). unfold ret at 1. apply IH.
Qed.

Lemma wait_until_enabled_raises timeout b env w e w' :
  wait_until_enabled timeout b env w = (Raise e, w') ->
  exists s, e = Selenium s.
Proof.
  unfold wait_until_enabled, command.
  destruct (fault env (tick w));
    [|destruct (In_b _ _); [destruct (el_enabled b)|]];
    intros [= <- _]; eauto.
Qed.

(** The two ways [click_and_observe] hands over an exception: the search
    found no displayed button, or the wait for the button to be enabled
    timed out. *)
Lemma click_and_observe_failure env attempt w exc w' :
  PlayButton.click_and_observe attempt env w = (Normal (inr exc), w') ->
  (PlayButton.find_first_visible PlayButton.GAMES_LOCATORS env w
   = (Normal None, w') /\
   exc = Explicit Timeout "Games button not visible via known locators.") \/
  (exists button w1,
      PlayButton.find_first_visible PlayButton.GAMES_LOCATORS env w
      = (Normal (Some button), w1) /\
      wait_until_enabled 2500%N button env w1 = (Raise TimeoutException, w') /\
      exc = TimeoutException).
Proof.
  intros H. unfold PlayButton.click_and_observe in H.
  unfold bind at 1 in H. unfold catch at 1 in H.
  match type of H with
  | (let (_, _) := (let (_, _) := ?c in _) in _) = _ =>
      destruct c as [[[b|e0]|e] w1] eqn:E
  end.
  - do 10 (peel H; open_pairs). discriminate H.
  - unfold bind at 1 in E.
    destruct (PlayButton.find_first_visible PlayButton.GAMES_LOCATORS env w)
      as [[[b|]|e1] w2]; [| |discriminate E].
    + unfold bind at 1 in E.
      destruct (wait_until_enabled 2500%N b env w2) as [[?|?] ?];
        discriminate E.
    + discriminate E.
  - destruct (is_timeout e) eqn:T; [|discriminate H].
    unfold ret in H. inversion H; subst e w1. clear H.
    unfold bind at 1 in E.
    destruct (PlayButton.find_first_visible PlayButton.GAMES_LOCATORS env w)
      as [[[b|]|e1] w2] eqn:F.
    + unfold bind at 1 in E.
      destruct (wait_until_enabled 2500%N b env w2) as [[?|e2] w3] eqn:W;
        [discriminate E|].
      inversion E; subst e2 w3. right. exists b, w2.
      destruct (wait_until_enabled_raises _ _ _ _ W) as [[] ->];
        try discriminate T. auto.
    + unfold raise in E. inversion E; subst. left. auto.
    + now apply find_first_visible_normal in F.
Qed.

Lemma click_and_observe_timeout env attempt w exc w' :
  PlayButton.click_and_observe attempt env w = (Normal (inr exc), w') ->
  is_timeout exc = true.
Proof.
  intros H. apply click_and_observe_failure in H.
  destruct H as [[_ ->]|(b & w1 & _ & _ & ->)]; reflexivity.
Qed.

(** The two ways [click_games_button] returns. *)
Lemma click_games_button_inv env attempt main_handle w r w' :
  PlayButton.click_games_button attempt main_handle env w = (Normal r, w') ->
  (exists exc,
      PlayButton.click_and_observe attempt env w = (Normal (inr exc), w') /\
      is_timeout exc = true /\
      r = play_failure attempt exc) \/
  (exists href debug both_visible before_handles after_handles w1,
      PlayButton.click_and_observe attempt env w
      = (Normal (inl (href, debug, both_visible, before_handles,
                      after_handles)), w1) /\
      PlayButton.record_attempt attempt main_handle href debug both_visible
        before_handles after_handles env w1 = (Normal r, w')).
Proof.
  intros H. unfold PlayButton.click_games_button in H.
  peel H. destruct a as [[[[[href debug] both] before] after]|exc].
  - right. exists href, debug, both, before, after, w0. now split.
  - left. unfold ret in H. inversion H; subst. exists exc.
    split; [reflexivity|]. split; [|reflexivity].
    eapply click_and_observe_timeout. exact E.
Qed.









(* ================================================================= *)
(** ** What can be raised *)

Lemma wd_ret {A} (a : A) : wd (ret a).
Proof. intros env w e w' [=]. Qed.

Lemma wd_raise {A} e : is_webdriver e = true -> wd (@raise A e).
Proof. intros He env w e' w' [= <- _]. exact He. Qed.

Lemma wd_bind {A B} (c : M A) (k : A -> M B) :
  wd c -> (forall a, wd (k a)) -> wd (bind c k).
Proof.
  intros Hc Hk env w e w'. unfold bind.
  destruct (c env w) as [[a|e0] w0] eqn:E.
  - apply Hk.
  - intros [= <- _]. eapply Hc. exact E.
Qed.

Lemma wd_catch {A} (c : M A) (h : Exn -> M A) :
  wd c -> (forall e, is_webdriver e = true -> wd (h e)) -> wd (catch c h).
Proof.
  intros Hc Hh env w e w'. unfold catch.
  destruct (c env w) as [[a|e0] w0] eqn:E; [discriminate|].
  apply Hh. eapply Hc. exact E.
Qed.

Lemma wd_finally {A} (c : M A) (f : M unit) :
  wd c -> wd f -> wd (finally c f).
Proof.
  intros Hc Hf env w e w'. unfold finally.
  destruct (c env w) as [r w0] eqn:E.
  destruct (f env w0) as [[[]|e1] w1] eqn:E1.
  - intros [= -> _]. eapply Hc. exact E.
  - intros [= <- _]. eapply Hf. exact E1.
Qed.

Lemma wd_suppress (c : M unit) : wd c -> wd (suppress c).
Proof.
  intros Hc. apply wd_catch; [exact Hc|]. intros e He. rewrite He.
  apply wd_ret.
Qed.

Lemma wd_command {A} (c : Cmd)
    (sem : Page -> World -> Outcome A * list Handle * Handle * Millis) :
  (forall q w e hs f dt, sem q w = (Raise e, hs, f, dt) ->
                         is_webdriver e = true) ->
  wd (command c sem).
Proof.
  intros Hs env w e w'. unfold command.
  destruct (fault env (tick w)).
  - intros [= <- _]. reflexivity.
  - destruct (sem (page env (tick w)) w) as [[[r hs] f] dt] eqn:E.
    intros [= -> _]. eapply Hs. exact E.
Qed.

Lemma wd_query {A} (c : Cmd) (f : Page -> World -> Outcome A) :
  (forall q w e, f q w = Raise e -> is_webdriver e = true) ->
  wd (query c f).
Proof.
  intros Hf. apply wd_command. intros q w e hs fo dt [= H _ _ _].
  eapply Hf. exact H.
Qed.

Lemma wd_on_page {A} (c : Cmd) (f : Page -> Outcome A) :
  (forall q e, f q = Raise e -> is_webdriver e = true) ->
  wd (on_page c f).
Proof.
  intros Hf. apply wd_query. intros q w e.
  destruct (In_b (focus w) (window_handles w)); [apply Hf|].
  intros [= <-]. reflexivity.
Qed.

Lemma wd_get_window_handles : wd get_window_handles.
Proof. apply wd_query. intros q w e [=]. Qed.

Lemma wd_current_window_handle : wd current_window_handle.
Proof.
  apply wd_query. intros q w e.
  destruct (In_b (focus w) (window_handles w)); intros [= <-]. reflexivity.
Qed.

Lemma wd_switch_to_window h : wd (switch_to_window h).
Proof.
  apply wd_command. intros q w e hs f dt.
  destruct (In_b h (window_handles w)); intros [= <- _ _ _]. reflexivity.
Qed.

Lemma wd_close : wd close.
Proof.
  apply wd_command. intros q w e hs f dt.
  destruct (In_b (focus w) (window_handles w)); intros [= <- _ _ _].
  reflexivity.
Qed.

Lemma wd_get_title : wd get_title.
Proof. apply wd_on_page. intros q e [=]. Qed.

Lemma wd_get_current_url : wd get_current_url.
Proof. apply wd_on_page. intros q e [=]. Qed.

Lemma wd_get url : wd (get url).
Proof. apply wd_on_page. intros q e [=]. Qed.

Lemma wd_refresh : wd refresh.
Proof. apply wd_on_page. intros q e [=]. Qed.

Lemma wd_launch : wd launch.
Proof. apply wd_query. intros q w e [=]. Qed.

Lemma wd_quit : wd quit.
Proof. apply wd_query. intros q w e [=]. Qed.

Lemma wd_find_element l : wd (find_element l).
Proof.
  apply wd_on_page. intros q e. destruct (matches q l); intros [= <-].
  reflexivity.
Qed.

Lemma wd_find_elements l : wd (find_elements l).
Proof. apply wd_on_page. intros q e [=]. Qed.

Lemma wd_click b : wd (click b).
Proof. apply wd_on_page. intros q e [=]. Qed.

Lemma wd_is_displayed b : wd (is_displayed b).
Proof. apply wd_on_page. intros q e [=]. Qed.

Lemma wd_is_enabled b : wd (is_enabled b).
Proof. apply wd_on_page. intros q e [=]. Qed.

Lemma wd_get_attribute b name : wd (get_attribute b name).
Proof. apply wd_on_page. intros q e [=]. Qed.

Lemma wd_execute_script sc : wd (execute_script sc).
Proof. apply wd_on_page. intros q e [=]. Qed.

Lemma wd_offset_click : wd offset_click.
Proof. apply wd_on_page. intros q e [=]. Qed.

Lemma wd_sleep d : wd (sleep d).
Proof. intros env w e w' [=]. Qed.

Lemma wd_time_time : wd time_time.
Proof. intros env w e w' [=]. Qed.

Lemma wd_list_of_set s : wd (list_of_set s).
Proof. intros env w e w' [=]. Qed.

Lemma wd_str_lower s : wd (str_lower s).
Proof. intros env w e w' [=]. Qed.

Lemma wd_print msg : wd (print msg).
Proof. intros env w e w' [=]. Qed.

Lemma wd_logger lvl msg : wd (logger lvl msg).
Proof. intros env w e w' [=]. Qed.

Lemma wd_wait_until timeout c : wd (wait_until timeout c).
Proof.
  apply wd_command. intros q w e hs f dt.
  destruct (In_b (focus w) (window_handles w));
    [destruct (cond_holds q c)|]; intros [= <- _ _ _]; reflexivity.
Qed.

Lemma wd_wait_until_enabled timeout b : wd (wait_until_enabled timeout b).
Proof.
  apply wd_command. intros q w e hs f dt.
  destruct (In_b (focus w) (window_handles w));
    [destruct (el_enabled b)|]; intros [= <- _ _ _]; reflexivity.
Qed.

Create HintDb wd.
#[local] Hint Resolve wd_ret wd_get_window_handles wd_current_window_handle
  wd_switch_to_window wd_close wd_get_title wd_get_current_url wd_get
  wd_refresh wd_launch wd_quit wd_find_element wd_find_elements wd_click
  wd_is_displayed wd_is_enabled wd_get_attribute wd_execute_script
  wd_offset_click wd_sleep wd_time_time wd_list_of_set wd_str_lower
  wd_print wd_logger wd_wait_until wd_wait_until_enabled : wd.

(** One step into a computation, for [wd]. *)
Ltac wd_step :=
  match goal with
  | |- wd (bind _ _) => apply wd_bind; [|intros ?]
  | |- wd (catch _ _) => apply wd_catch; [|intros ? ?]
  | |- wd (suppress _) => apply wd_suppress
  | |- wd (finally _ _) => apply wd_finally
  | He : is_webdriver ?e = true |- wd (raise ?e) => exact (wd_raise He)
  | |- wd (raise (Selenium _)) => apply wd_raise; reflexivity
  | |- wd (raise (Explicit _ _)) => apply wd_raise; reflexivity
  | He : is_webdriver ?e = true |- context [is_webdriver ?e] => rewrite He
  | |- wd (if ?b then _ else _) => destruct b
  | |- wd (match ?x with _ => _ end) => destruct x
  | |- wd _ => solve [auto with wd]
  end.

Ltac wd_auto := repeat wd_step.

Lemma wd_close_additional_windows : wd Monetag.close_additional_windows.
Proof.
  assert (L : forall p hs, wd (Monetag.close_additional_loop p hs)).
  { intros p hs. induction hs as [|h rest IH];
      cbn [Monetag.close_additional_loop]; wd_auto. }
  unfold Monetag.close_additional_windows. wd_auto.
Qed.

Lemma wd_click_close_button label ls : wd (Monetag.click_close_button label ls).
Proof.
  induction ls as [|[locator_by locator_value] rest IH];
    cbn [Monetag.click_close_button]; wd_auto.
Qed.

Lemma wd_close_new_windows label hs : wd (Monetag.close_new_windows label hs).
Proof.
  induction hs as [|h rest IH]; cbn [Monetag.close_new_windows]; wd_auto.
Qed.

Lemma wd_retry_close_button label ls : wd (Monetag.retry_close_button label ls).
Proof.
  induction ls as [|[locator_by locator_value] rest IH];
    cbn [Monetag.retry_close_button]; wd_auto.
Qed.

#[local] Hint Resolve wd_close_additional_windows wd_click_close_button
  wd_close_new_windows wd_retry_close_button : wd.

Lemma wd_reconcile_and_retry label h url before :
  wd (Monetag.reconcile_and_retry label h url before).
Proof. unfold Monetag.reconcile_and_retry. wd_auto. Qed.

#[local] Hint Resolve wd_reconcile_and_retry : wd.

Lemma wd_dismiss_initial_overlay label : wd (Monetag.dismiss_initial_overlay label).
Proof. unfold Monetag.dismiss_initial_overlay. cbv zeta. wd_auto. Qed.

Lemma wd_wait_for_ads timeout : wd (Monetag.wait_for_ads timeout).
Proof.
  unfold Monetag.wait_for_ads. generalize Monetag.AD_IDENTIFIERS.
  intros ls. induction ls as [|l rest IH];
    cbn [Monetag.wait_for_ads_loop]; wd_auto.
Qed.

#[local] Hint Resolve wd_dismiss_initial_overlay wd_wait_for_ads : wd.

Lemma wd_simulate_view n url dwell : wd (Monetag.simulate_view n url dwell).
Proof. unfold Monetag.simulate_view. wd_auto. Qed.

#[local] Hint Resolve wd_simulate_view : wd.

Lemma wd_managed_driver {A} (body : M A) :
  wd body -> wd (Monetag.managed_driver body).
Proof. intros Hb. unfold Monetag.managed_driver. wd_auto. Qed.

Lemma wd_view_loop views numbers dwell :
  forall results, wd (Monetag.view_loop views numbers dwell results).
Proof.
  induction numbers as [|n rest IH]; intros results;
    cbn [Monetag.view_loop]; wd_auto.
Qed.

Lemma wd_perform_test_cycle views dwell :
  wd (Monetag.perform_test_cycle views dwell).
Proof. apply wd_managed_driver, wd_view_loop. Qed.

#[local] Hint Resolve wd_view_loop wd_perform_test_cycle : wd.

Lemma wd_are_both_buttons_visible timeout :
  wd (NavClick.are_both_buttons_visible timeout).
Proof. unfold NavClick.are_both_buttons_visible. wd_auto. Qed.

Lemma wd_nav_prepare_main_view label : wd (NavClick.prepare_main_view label).
Proof. unfold NavClick.prepare_main_view. wd_auto. Qed.

Lemma wd_nav_inspect_popups label hs :
  forall st, wd (NavClick.inspect_popups label hs st).
Proof.
  induction hs as [|h rest IH]; intros st;
    cbn [NavClick.inspect_popups]; wd_auto.
Qed.

#[local] Hint Resolve wd_are_both_buttons_visible wd_nav_prepare_main_view
  wd_nav_inspect_popups : wd.

Lemma wd_navigation_attempt main_handle iteration target :
  wd (NavClick.navigation_attempt main_handle iteration target).
Proof. unfold NavClick.navigation_attempt. cbv zeta. wd_auto. Qed.

#[local] Hint Resolve wd_navigation_attempt : wd.

Lemma wd_navigation_loop main_handle iterations :
  forall button_index results,
    wd (NavClick.navigation_loop main_handle iterations button_index results).
Proof.
  induction iterations as [|i rest IH]; intros button_index results;
    cbn [NavClick.navigation_loop]; cbv zeta; wd_auto.
Qed.

#[local] Hint Resolve wd_navigation_loop : wd.

Lemma wd_exercise_navigation iterations :
  wd (NavClick.exercise_navigation iterations).
Proof. apply wd_managed_driver. wd_auto. Qed.

Lemma wd_find_first_visible ls : wd (PlayButton.find_first_visible ls).
Proof.
  induction ls as [|[by_ value] rest IH];
    cbn [PlayButton.find_first_visible]; wd_auto.
Qed.

#[local] Hint Resolve wd_find_first_visible : wd.

Lemma wd_are_nav_buttons_visible timeout :
  wd (PlayButton.are_nav_buttons_visible timeout).
Proof.
  unfold PlayButton.are_nav_buttons_visible. cbv zeta.
  generalize (S (N.to_nat (timeout / 200))). intros fuel.
  apply wd_bind; [auto with wd|]. intros t. generalize (t + timeout)%N.
  intros deadline. induction fuel as [|fuel IH];
    cbn [PlayButton.are_nav_buttons_visible_loop]; wd_auto.
Qed.

Lemma wd_play_prepare_main_view label : wd (PlayButton.prepare_main_view label).
Proof. unfold PlayButton.prepare_main_view. wd_auto. Qed.

Lemma wd_play_inspect_popups label hs :
  forall st, wd (PlayButton.inspect_popups label hs st).
Proof.
  induction hs as [|h rest IH]; intros st;
    cbn [PlayButton.inspect_popups]; wd_auto.
Qed.

#[local] Hint Resolve wd_are_nav_buttons_visible wd_play_prepare_main_view
  wd_play_inspect_popups : wd.

Lemma wd_click_games_button attempt main_handle :
  wd (PlayButton.click_games_button attempt main_handle).
Proof.
  unfold PlayButton.click_games_button, PlayButton.click_and_observe,
    PlayButton.record_attempt.
  cbv zeta. wd_auto.
Qed.

#[local] Hint Resolve wd_click_games_button : wd.

Lemma wd_attempts_loop main_handle attempts :
  forall results, wd (PlayButton.attempts_loop main_handle attempts results).
Proof.
  induction attempts as [|a rest IH]; intros results;
    cbn [PlayButton.attempts_loop]; wd_auto.
Qed.

#[local] Hint Resolve wd_attempts_loop : wd.

Lemma wd_exercise_games_button attempts :
  wd (PlayButton.exercise_games_button attempts).
Proof. apply wd_managed_driver. wd_auto. Qed.

Lemma wd_close_popup_by_locator ls : wd (Edge.close_popup_by_locator ls).
Proof.
  induction ls as [|l rest IH]; cbn [Edge.close_popup_by_locator]; wd_auto.
Qed.

Lemma wd_click_first_usable buttons : wd (Edge.click_first_usable buttons).
Proof.
  induction buttons as [|b rest IH]; cbn [Edge.click_first_usable]; wd_auto.
Qed.

#[local] Hint Resolve wd_exercise_navigation wd_exercise_games_button
  wd_close_popup_by_locator wd_click_first_usable : wd.

Lemma wd_close_ad_popup_if_present : wd Edge.close_ad_popup_if_present.
Proof. unfold Edge.close_ad_popup_if_present. wd_auto. Qed.

Lemma wd_inspect_for_ad_elements : wd Edge.inspect_for_ad_elements.
Proof.
  assert (S : forall kind tags found, wd (Edge.scan_tags kind tags found)).
  { intros kind tags. induction tags as [|t rest IH]; intros found;
      cbn [Edge.scan_tags]; unfold Edge.descriptor_of; wd_auto. }
  assert (L : forall found, wd (Edge.log_detected found)).
  { intros found. induction found as [|[k d] rest IH];
      cbn [Edge.log_detected]; wd_auto. }
  unfold Edge.inspect_for_ad_elements, Edge.collect_ad_elements. wd_auto.
Qed.

#[local] Hint Resolve wd_close_ad_popup_if_present wd_inspect_for_ad_elements
  : wd.

(* ================================================================= *)
(** ** What always returns *)

Lemma returns_ret {A} (P : A -> Prop) a : P a -> returns P (ret a).
Proof. intros HP env w. exists a, w. split; [reflexivity | exact HP]. Qed.

Lemma returns_bind {A B} (Q : A -> Prop) (P : B -> Prop) (c : M A)
    (k : A -> M B) :
  returns Q c -> (forall a, Q a -> returns P (k a)) -> returns P (bind c k).
Proof.
  intros Hc Hk env w. destruct (Hc env w) as (a & w1 & E & HQ).
  destruct (Hk a HQ env w1) as (b & w2 & E2 & HP).
  exists b, w2. unfold bind. rewrite E. auto.
Qed.

(** A handler for [WebDriverException] is enough where nothing else can be
    raised. *)
Lemma returns_catch {A} (P : A -> Prop) (c : M A) (h : Exn -> M A) :
  wd c ->
  (forall env w a w', c env w = (Normal a, w') -> P a) ->
  (forall e, is_webdriver e = true -> returns P (h e)) ->
  returns P (catch c h).
Proof.
  intros Hwd Hc Hh env w. unfold catch.
  destruct (c env w) as [[a|e] w1] eqn:E.
  - exists a, w1. split; [reflexivity|]. eapply Hc. exact E.
  - apply Hh. eapply Hwd. exact E.
Qed.

Lemma returns_suppress (c : M unit) :
  wd c -> returns (fun _ => True) (suppress c).
Proof.
  intros Hwd. apply returns_catch; [exact Hwd | trivial |].
  intros e He. rewrite He. now apply returns_ret.
Qed.

Lemma returns_finally {A} (P : A -> Prop) (c : M A) (f : M unit) :
  returns P c -> returns (fun _ => True) f -> returns P (finally c f).
Proof.
  intros Hc Hf env w. destruct (Hc env w) as (a & w1 & E & HP).
  destruct (Hf env w1) as ([] & w2 & E2 & _).
  exists a, w2. unfold finally. rewrite E, E2. auto.
Qed.

Lemma returns_print msg : returns (fun _ => True) (print msg).
Proof. intros env w. eexists _, _. split; [reflexivity | trivial]. Qed.

(** What a handler for [WebDriverException] that returns [None] leaves of a
    computation that raises nothing else. *)
Lemma returns_guarded {A} (c : M A) (h : Exn -> M (option A)) :
  wd c ->
  (forall e, is_webdriver e = true -> returns (fun _ => True) (h e)) ->
  returns (fun _ => True) (catch (x <- c ;; ret (Some x)) h).
Proof.
  intros Hwd Hh. apply returns_catch; [|trivial|exact Hh].
  apply wd_bind; [exact Hwd|]. intros a. apply wd_ret.
Qed.

(** X1.  The three [main] functions always return an exit status, whatever
    the driver does: 0, 1 or 2 in [monetag_ad_tester], 0 or 1 in the
    navigation tester and in the play-button tester.  No exception leaves
    them. *)
Theorem main_always_exits :
  returns (fun code => code = 0 \/ code = 1 \/ code = 2) Monetag.main /\
  returns (fun code => code = 0 \/ code = 1) NavClick.main /\
  returns (fun code => code = 0 \/ code = 1) PlayButton.main.
Proof.
  split; [|split].
  - unfold Monetag.main.
    eapply returns_bind.
    + apply returns_guarded; [apply wd_perform_test_cycle|].
      intros e He. rewrite He.
      eapply returns_bind; [apply returns_print|].
      intros _ _. now apply returns_ret.
    + intros [results|] _; [|apply returns_ret; auto].
      destruct (nonempty (Monetag.failures results));
        (eapply returns_bind; [apply returns_print|]);
        intros _ _; apply returns_ret; auto.
  - unfold NavClick.main.
    eapply returns_bind.
    + apply returns_guarded; [apply wd_exercise_navigation|].
      intros e He. rewrite He.
      eapply returns_bind; [apply returns_print|].
      intros _ _. now apply returns_ret.
    + intros [results|] _; [|apply returns_ret; auto]. cbv zeta.
      eapply returns_bind with (Q := fun _ => True).
      * destruct (nonempty _); apply returns_print.
      * intros _ _. apply returns_ret; auto.
  - unfold PlayButton.main.
    eapply returns_bind.
    + apply returns_guarded; [apply wd_exercise_games_button|].
      intros e He. rewrite He.
      eapply returns_bind; [apply returns_print|].
      intros _ _. now apply returns_ret.
    + intros [results|] _; [|apply returns_ret; auto]. cbv zeta.
      eapply returns_bind; [apply returns_print|].
      intros _ _. apply returns_ret; auto.
Qed.
(** X2.  [simulate_view] never raises: it always returns a result that
    carries the number of the view.  A result without an error means the
    view ran to its end, the dwell sleep being the last thing it did; a
    result with an error has [ads_detected] unset and the text of a
    [WebDriverException]. *)
Theorem simulate_view_always_records view_number url dwell_seconds env w :
  exists result w',
    Monetag.simulate_view view_number url dwell_seconds env w
    = (Normal result, w') /\
    Monetag.number result = view_number /\
    match Monetag.error result with
    | None =>
        exists t,
          trace w' = t ++ [Issued (CmdSleep (N.max dwell_seconds 0)) None]
    | Some msg =>
        Monetag.ads_detected result = false /\
        exists e, is_webdriver e = true /\ msg = Exn_str e
    end.
Proof.
  unfold Monetag.simulate_view, catch.
  match goal with
  | |- context [let (_, _) := ?c env w in _] =>
      assert (Hwd : wd c) by wd_auto;
      destruct (c env w) as [[result|e] w1] eqn:E
  end.
  - exists result, w1. split; [reflexivity|].
    repeat peel E. unfold ret in E. inversion E; subst. cbn.
    split; [reflexivity|].
    match goal with
    | Hs : sleep (N.max _ 0) _ _ = _ |- _ =>
        unfold sleep in Hs; inversion Hs; subst
    end.
    cbn. eauto.
  - rewrite (Hwd _ _ _ _ E). eexists _, _. split; [reflexivity|]. cbn.
    split; [reflexivity|]. split; [reflexivity|].
    exists e. split; [exact (Hwd _ _ _ _ E) | reflexivity].
Qed.
(* ================================================================= *)
(** ** What is left behind *)

Section Keeps.
Variable R : World -> World -> Prop.
Context `{Cumulative R}.

Lemma keeps_ret {A} (a : A) : keeps R (ret a).
Proof. intros env w r w' [= _ <-]. apply cumulative_refl. Qed.

Lemma keeps_raise {A} e : keeps R (@raise A e).
Proof. intros env w r w' [= _ <-]. apply cumulative_refl. Qed.

Lemma keeps_time_time : keeps R time_time.
Proof. intros env w r w' [= _ <-]. apply cumulative_refl. Qed.

Lemma keeps_list_of_set s : keeps R (list_of_set s).
Proof. intros env w r w' [= _ <-]. apply cumulative_refl. Qed.

Lemma keeps_str_lower s : keeps R (str_lower s).
Proof. intros env w r w' [= _ <-]. apply cumulative_refl. Qed.

Lemma keeps_bind {A B} (c : M A) (k : A -> M B) :
  keeps R c -> (forall a, keeps R (k a)) -> keeps R (bind c k).
Proof.
  intros Hc Hk env w r w'. unfold bind.
  destruct (c env w) as [[a|e] w1] eqn:E.
  - intros E2. eapply cumulative_trans; [eapply Hc | eapply Hk]; eauto.
  - intros [= _ <-]. eapply Hc; eauto.
Qed.

Lemma keeps_catch {A} (c : M A) (h : Exn -> M A) :
  keeps R c -> (forall e, keeps R (h e)) -> keeps R (catch c h).
Proof.
  intros Hc Hh env w r w'. unfold catch.
  destruct (c env w) as [[a|e] w1] eqn:E.
  - intros [= _ <-]. eapply Hc; eauto.
  - intros E2. eapply cumulative_trans; [eapply Hc | eapply Hh]; eauto.
Qed.

Lemma keeps_suppress (c : M unit) : keeps R c -> keeps R (suppress c).
Proof.
  intros Hc. apply keeps_catch; [exact Hc|]. intros e.
  destruct (is_webdriver e); [apply keeps_ret | apply keeps_raise].
Qed.

Lemma keeps_finally {A} (c : M A) (f : M unit) :
  keeps R c -> keeps R f -> keeps R (finally c f).
Proof.
  intros Hc Hf env w r w'. unfold finally.
  destruct (c env w) as [r1 w1] eqn:E.
  destruct (f env w1) as [[[]|e] w2] eqn:E2; intros [= _ <-];
    (eapply cumulative_trans; [eapply Hc | eapply Hf]; eauto).
Qed.
End Keeps.

#[local] Instance adds_cumulative ok : Cumulative (adds ok).
Proof.
  split.
  - intros w. exists []. now rewrite app_nil_r.
  - intros a b c (t1 & E1 & F1) (t2 & E2 & F2). exists (t1 ++ t2).
    rewrite E2, E1, app_assoc, forallb_app, F1, F2. auto.
Qed.

#[local] Instance later_cumulative : Cumulative later.
Proof. split; unfold later; intros; lia. Qed.

Lemma adds_command {A} ok (c : Cmd)
    (sem : Page -> World -> Outcome A * list Handle * Handle * Millis) :
  (forall r, ok (Issued c r) = true) -> keeps (adds ok) (command c sem).
Proof.
  intros Hok env w r w'. unfold command.
  destruct (fault env (tick w));
    [|destruct (sem (page env (tick w)) w) as [[[r' hs] f] dt]];
    intros [= <- <-]; eexists [_]; cbn; rewrite Hok; auto.
Qed.

Lemma adds_sleep ok d :
  ok (Issued (CmdSleep d) None) = true -> keeps (adds ok) (sleep d).
Proof.
  intros Hok env w r w' [= _ <-]. eexists [_]. cbn. rewrite Hok. auto.
Qed.

Lemma adds_emit ok ev : ok ev = true -> keeps (adds ok) (emit ev).
Proof.
  intros Hok env w r w' [= _ <-]. eexists [_]. cbn. rewrite Hok. auto.
Qed.

Lemma later_command {A} (c : Cmd)
    (sem : Page -> World -> Outcome A * list Handle * Handle * Millis) :
  keeps later (command c sem).
Proof. intros env w r w' E. exact (command_later _ _ _ _ E). Qed.

Lemma later_sleep d : keeps later (sleep d).
Proof.
  intros env w r w' E. apply sleep_later in E. unfold later. lia.
Qed.

Lemma later_emit ev : keeps later (emit ev).
Proof. intros env w r w' [= _ <-]. unfold later. cbn. lia. Qed.

(** One step into a computation, for [keeps]; [prim] deals with the
    commands. *)
Ltac keeps_step prim :=
  match goal with
  | |- keeps _ (ret _) => refine (@keeps_ret _ _ _ _)
  | |- keeps _ (raise _) => refine (@keeps_raise _ _ _ _)
  | |- keeps _ time_time => refine (@keeps_time_time _ _)
  | |- keeps _ (list_of_set _) => refine (@keeps_list_of_set _ _ _)
  | |- keeps _ (str_lower _) => refine (@keeps_str_lower _ _ _)
  | |- keeps _ (bind _ _) => refine (@keeps_bind _ _ _ _ _ _ _ _); [|intros ?]
  | |- keeps _ (catch _ _) => refine (@keeps_catch _ _ _ _ _ _ _); [|intros ?]
  | |- keeps _ (suppress _) => refine (@keeps_suppress _ _ _ _)
  | |- keeps _ (finally _ _) => refine (@keeps_finally _ _ _ _ _ _ _)
  | |- keeps _ (if ?b then _ else _) => destruct b
  | |- keeps _ (match ?x with _ => _ end) => destruct x
  | |- keeps _ _ => solve [prim]
  end.

Ltac open_command :=
  unfold get_window_handles, current_window_handle, switch_to_window, close,
    get_title, get_current_url, get, refresh, launch, quit, find_element,
    find_elements, click, is_displayed, is_enabled, get_attribute,
    execute_script, offset_click, wait_until, wait_until_enabled,
    on_page, query.

Create HintDb keeps.

Ltac in_page_prim :=
  first [ solve [auto with keeps typeclass_instances]
        | refine (@in_page_sleep _ _ _)
        | refine (@in_page_print _ _ _)
        | refine (@in_page_logger _ _ _ _)
        | open_command; refine (@in_page_command _ _ _ _ _ _); reflexivity ].

Ltac in_page := repeat keeps_step in_page_prim.

(** *** The code that runs within a session *)

Section InPageCode.
Variable R : World -> World -> Prop.
Context `{InPage R}.

Lemma in_page_close_additional_windows :
  keeps R Monetag.close_additional_windows.
Proof.
  assert (L : forall p hs, keeps R (Monetag.close_additional_loop p hs)).
  { intros p hs. induction hs as [|h rest IH];
      cbn [Monetag.close_additional_loop]; in_page. }
  unfold Monetag.close_additional_windows. in_page.
Qed.

Lemma in_page_click_close_button label ls :
  keeps R (Monetag.click_close_button label ls).
Proof.
  induction ls as [|[locator_by locator_value] rest IH];
    cbn [Monetag.click_close_button]; in_page.
Qed.

Lemma in_page_close_new_windows label hs :
  keeps R (Monetag.close_new_windows label hs).
Proof.
  induction hs as [|h rest IH]; cbn [Monetag.close_new_windows]; in_page.
Qed.

Lemma in_page_retry_close_button label ls :
  keeps R (Monetag.retry_close_button label ls).
Proof.
  induction ls as [|[locator_by locator_value] rest IH];
    cbn [Monetag.retry_close_button]; in_page.
Qed.

Hint Resolve in_page_close_additional_windows in_page_click_close_button
  in_page_close_new_windows in_page_retry_close_button : keeps.

Lemma in_page_dismiss_initial_overlay label :
  keeps R (Monetag.dismiss_initial_overlay label).
Proof.
  unfold Monetag.dismiss_initial_overlay, Monetag.reconcile_and_retry.
  cbv zeta. in_page.
Qed.

Lemma in_page_wait_for_ads timeout : keeps R (Monetag.wait_for_ads timeout).
Proof.
  unfold Monetag.wait_for_ads. generalize Monetag.AD_IDENTIFIERS.
  intros ls. induction ls as [|l rest IH];
    cbn [Monetag.wait_for_ads_loop]; in_page.
Qed.

Hint Resolve in_page_dismiss_initial_overlay in_page_wait_for_ads : keeps.

Lemma in_page_simulate_view n url dwell :
  keeps R (Monetag.simulate_view n url dwell).
Proof. unfold Monetag.simulate_view. in_page. Qed.

Lemma in_page_are_both_buttons_visible timeout :
  keeps R (NavClick.are_both_buttons_visible timeout).
Proof. unfold NavClick.are_both_buttons_visible. in_page. Qed.

Lemma in_page_nav_inspect_popups label hs :
  forall st, keeps R (NavClick.inspect_popups label hs st).
Proof.
  induction hs as [|h rest IH]; intros st;
    cbn [NavClick.inspect_popups]; in_page.
Qed.

Hint Resolve in_page_are_both_buttons_visible in_page_nav_inspect_popups
  : keeps.

Lemma in_page_navigation_attempt main_handle iteration target :
  keeps R (NavClick.navigation_attempt main_handle iteration target).
Proof.
  unfold NavClick.navigation_attempt, NavClick.prepare_main_view.
  cbv zeta. in_page.
Qed.

Hint Resolve in_page_navigation_attempt : keeps.

Lemma in_page_navigation_loop main_handle iterations :
  forall button_index results,
    keeps R
      (NavClick.navigation_loop main_handle iterations button_index results).
Proof.
  induction iterations as [|i rest IH]; intros button_index results;
    cbn [NavClick.navigation_loop]; unfold NavClick.prepare_main_view;
    cbv zeta; in_page.
Qed.

Lemma in_page_find_first_visible ls :
  keeps R (PlayButton.find_first_visible ls).
Proof.
  induction ls as [|[by_ value] rest IH];
    cbn [PlayButton.find_first_visible]; in_page.
Qed.

Hint Resolve in_page_find_first_visible : keeps.

Lemma in_page_are_nav_buttons_visible timeout :
  keeps R (PlayButton.are_nav_buttons_visible timeout).
Proof.
  unfold PlayButton.are_nav_buttons_visible. cbv zeta.
  generalize (S (N.to_nat (timeout / 200))). intros fuel.
  refine (@keeps_bind _ _ _ _ _ _ _ _); [in_page|]. intros t.
  generalize (t + timeout)%N. intros deadline.
  induction fuel as [|fuel IH];
    cbn [PlayButton.are_nav_buttons_visible_loop]; in_page.
Qed.

Lemma in_page_play_inspect_popups label hs :
  forall st, keeps R (PlayButton.inspect_popups label hs st).
Proof.
  induction hs as [|h rest IH]; intros st;
    cbn [PlayButton.inspect_popups]; in_page.
Qed.

Hint Resolve in_page_are_nav_buttons_visible in_page_play_inspect_popups
  : keeps.

Lemma in_page_click_games_button attempt main_handle :
  keeps R (PlayButton.click_games_button attempt main_handle).
Proof.
  unfold PlayButton.click_games_button, PlayButton.click_and_observe,
    PlayButton.record_attempt.
  cbv zeta. in_page.
Qed.

Hint Resolve in_page_click_games_button : keeps.

Lemma in_page_attempts_loop main_handle attempts :
  forall results,
    keeps R (PlayButton.attempts_loop main_handle attempts results).
Proof.
  induction attempts as [|a rest IH]; intros results;
    cbn [PlayButton.attempts_loop]; unfold PlayButton.prepare_main_view;
    in_page.
Qed.

Lemma in_page_close_ad_popup_if_present :
  keeps R Edge.close_ad_popup_if_present.
Proof.
  assert (L : forall ls, keeps R (Edge.close_popup_by_locator ls)).
  { intros ls. induction ls as [|l rest IH];
      cbn [Edge.close_popup_by_locator]; in_page. }
  assert (C : forall bs, keeps R (Edge.click_first_usable bs)).
  { intros bs. induction bs as [|b rest IH];
      cbn [Edge.click_first_usable]; in_page. }
  unfold Edge.close_ad_popup_if_present. in_page.
Qed.

Lemma in_page_inspect_for_ad_elements :
  keeps R Edge.inspect_for_ad_elements.
Proof.
  assert (S : forall kind tags found,
             keeps R (Edge.scan_tags kind tags found)).
  { intros kind tags. induction tags as [|t rest IH]; intros found;
      cbn [Edge.scan_tags]; unfold Edge.descriptor_of; in_page. }
  assert (L : forall found, keeps R (Edge.log_detected found)).
  { intros found. induction found as [|[k d] rest IH];
      cbn [Edge.log_detected]; in_page. }
  unfold Edge.inspect_for_ad_elements, Edge.collect_ad_elements. in_page.
Qed.

Lemma in_page_close_unexpected_windows main_handle :
  keeps R (Edge.close_unexpected_windows main_handle).
Proof.
  assert (L : forall hs, keeps R (Edge.close_unexpected_loop main_handle hs)).
  { intros hs. induction hs as [|h rest IH];
      cbn [Edge.close_unexpected_loop]; in_page. }
  unfold Edge.close_unexpected_windows. in_page.
Qed.
End InPageCode.

#[local] Hint Resolve in_page_close_additional_windows
  in_page_click_close_button in_page_close_new_windows
  in_page_retry_close_button in_page_dismiss_initial_overlay
  in_page_wait_for_ads in_page_simulate_view
  in_page_are_both_buttons_visible in_page_nav_inspect_popups
  in_page_navigation_attempt in_page_navigation_loop
  in_page_find_first_visible in_page_are_nav_buttons_visible
  in_page_play_inspect_popups in_page_click_games_button
  in_page_attempts_loop in_page_close_ad_popup_if_present
  in_page_inspect_for_ad_elements in_page_close_unexpected_windows : keeps.

Lemma adds_in_page pick :
  (forall c, pick c = true -> is_session_cmd c = true) ->
  InPage (adds (avoids pick)).
Proof.
  intros Hp. split.
  - apply adds_cumulative.
  - intros A c sem Hc. apply adds_command. intros r. cbn.
    destruct (pick c) eqn:E; [|reflexivity]. apply Hp in E. congruence.
  - intros d. apply adds_sleep. cbn.
    destruct (pick (CmdSleep d)) eqn:E; [|reflexivity]. apply Hp in E.
    discriminate E.
  - intros msg. now apply adds_emit.
  - intros lvl msg. now apply adds_emit.
Qed.

#[local] Instance avoids_session_in_page : InPage (adds (avoids is_session_cmd)).
Proof. apply adds_in_page. auto. Qed.

#[local] Instance avoids_lifecycle_in_page :
  InPage (adds (avoids is_lifecycle)).
Proof.
  apply adds_in_page. intros c Hc. unfold is_session_cmd. now rewrite Hc.
Qed.

#[local] Instance later_in_page : InPage later.
Proof.
  split.
  - apply later_cumulative.
  - intros A c sem _. apply later_command.
  - apply later_sleep.
  - intros msg. apply later_emit.
  - intros lvl msg. apply later_emit.
Qed.

(** *** The session around the runs *)

Ltac lifecycle_prim :=
  first [ in_page_prim
        | open_command; apply adds_command; intros; reflexivity ].

Lemma managed_driver_bracket {A} (body : M A) :
  keeps (adds (avoids is_lifecycle)) body ->
  keeps session_bracket (Monetag.managed_driver body).
Proof.
  intros Hb env w r w'. unfold Monetag.managed_driver, bind.
  destruct (launch env w) as [[[]|e] w1] eqn:E1;
    unfold launch, query, command in E1;
    destruct (fault env (tick w)); inversion E1; subst; clear E1.
  - unfold finally.
    match goal with
    | |- context [body env ?w0] =>
        destruct (body env w0) as [r1 w2] eqn:E2
    end.
    destruct (Hb _ _ _ _ E2) as (added & Et & F). cbn [trace] in Et.
    intros E3. right.
    destruct (quit env w2) as [rq w3] eqn:E4.
    assert (Eq : trace w3 = trace w2 ++ [Issued CmdQuit (exn_of rq)]).
    { unfold quit, query, command in E4.
      destruct (fault env (tick w2)); inversion E4; subst; reflexivity. }
    exists added, (exn_of rq). split; [|exact F].
    assert (w' = w3) by (destruct rq as [[]|]; inversion E3; reflexivity).
    subst w'. rewrite Eq, Et, <- !app_assoc. reflexivity.
  - intros [= _ <-]. left. eexists. reflexivity.
Qed.

Lemma view_loop_lifecycle views numbers dwell :
  forall results,
    keeps (adds (avoids is_lifecycle))
      (Monetag.view_loop views numbers dwell results).
Proof.
  induction numbers as [|n rest IH]; intros results;
    cbn [Monetag.view_loop]; repeat keeps_step lifecycle_prim.
Qed.

(** X3.  The driver is quit on every way out of a run, once, as the last
    thing the run does, and not at all when it could not be launched:
    the trace of [perform_test_cycle], of [exercise_navigation] and of
    [exercise_games_button] is a failed launch alone, or a launch, commands
    that neither launch nor quit, and one [quit], however the run ends. *)
Theorem driver_is_quit_once views dwell_seconds iterations attempts :
  keeps session_bracket (Monetag.perform_test_cycle views dwell_seconds) /\
  keeps session_bracket (NavClick.exercise_navigation iterations) /\
  keeps session_bracket (PlayButton.exercise_games_button attempts).
Proof.
  split; [|split]; apply managed_driver_bracket.
  - apply view_loop_lifecycle.
  - unfold NavClick.prepare_main_view. in_page.
  - unfold PlayButton.prepare_main_view. in_page.
Qed.

(* ================================================================= *)
(** ** The results of a run *)

Lemma count_cmd_app pick a b :
  count_cmd pick (a ++ b) = count_cmd pick a + count_cmd pick b.
Proof. unfold count_cmd. now rewrite filter_app, length_app. Qed.

Lemma command_trace {A} (c : Cmd)
    (sem : Page -> World -> Outcome A * list Handle * Handle * Millis)
    env w r w1 :
  command c sem env w = (r, w1) -> trace w1 = trace w ++ [Issued c (exn_of r)].
Proof.
  unfold command.
  destruct (fault env (tick w));
    [|destruct (sem (page env (tick w)) w) as [[[r' hs] f] dt]];
    intros [= <- <-]; reflexivity.
Qed.

Lemma seq_but_last views :
  List.length (filter (fun n => negb (n =? views)%nat) (seq 1 views)) = views - 1.
Proof.
  destruct views as [|n]; [reflexivity|].
  rewrite seq_S, filter_app. cbn [filter Nat.add].
  rewrite Nat.eqb_refl. cbn [negb]. rewrite app_nil_r.
  replace (filter _ (seq 1 n)) with (seq 1 n).
  - rewrite length_seq. lia.
  - symmetry. apply forallb_filter_id. apply forallb_forall.
    intros x Hx%in_seq. apply negb_true_iff, Nat.eqb_neq. lia.
Qed.

Lemma simulate_view_number view_number url dwell_seconds env w result w' :
  Monetag.simulate_view view_number url dwell_seconds env w
  = (Normal result, w') ->
  Monetag.number result = view_number.
Proof.
  unfold Monetag.simulate_view, catch.
  match goal with
  | |- context [let (_, _) := ?c env w in _] =>
      destruct (c env w) as [[r|e] w1] eqn:E
  end.
  - intros [= <- _]. repeat peel E. unfold ret in E. now inversion E.
  - destruct (is_webdriver e); [|discriminate]. now intros [= <- _].
Qed.

Lemma forallb_avoids (pick pick' : Cmd -> bool) t :
  (forall c, pick c = true -> pick' c = true) ->
  forallb (avoids pick') t = true ->
  forallb (avoids pick) t = true.
Proof.
  intros Hp Ht. rewrite forallb_forall in *. intros ev Hev.
  specialize (Ht ev Hev). destruct ev as [c r| |]; cbn in *; try reflexivity.
  destruct (pick c) eqn:Ec; [|reflexivity]. apply Hp in Ec.
  rewrite Ec in Ht. discriminate Ht.
Qed.

Lemma count_cmd_avoids pick t :
  forallb (avoids pick) t = true -> count_cmd pick t = 0.
Proof.
  unfold count_cmd. induction t as [|ev t IH]; [reflexivity|].
  cbn [forallb filter]. intros [Hev Ht]%andb_true_iff.
  rewrite Hev. cbn. auto.
Qed.

Lemma lifecycle_session c : is_lifecycle c = true -> is_session_cmd c = true.
Proof. intros Hc. unfold is_session_cmd. now rewrite Hc. Qed.

Lemma refresh_session c : is_refresh c = true -> is_session_cmd c = true.
Proof. intros Hc. unfold is_session_cmd. rewrite Hc. apply orb_true_r. Qed.

Lemma launch_lifecycle c : is_launch c = true -> is_lifecycle c = true.
Proof. intros Hc. unfold is_lifecycle. now rewrite Hc. Qed.

Lemma quit_lifecycle c : is_quit c = true -> is_lifecycle c = true.
Proof. intros Hc. unfold is_lifecycle. rewrite Hc. apply orb_true_r. Qed.

Lemma view_loop_run views dwell_seconds numbers env :
  forall results w rs w',
    Monetag.view_loop views numbers dwell_seconds results env w
    = (Normal rs, w') ->
    exists rs' added,
      rs = results ++ rs' /\
      map Monetag.number rs' = numbers /\
      trace w' = trace w ++ added /\
      forallb (avoids is_lifecycle) added = true /\
      count_cmd is_refresh added
      = List.length (filter (fun n => negb (n =? views)%nat) numbers).
Proof.
  induction numbers as [|n rest IH]; intros results w rs w' H;
    cbn [Monetag.view_loop] in H.
  - inversion H; subst. exists [], []. now rewrite !app_nil_r.
  - do 3 (peel H). apply IH in H.
    destruct H as (rs' & added & -> & Hn & Ht & Hl & Hr).
    pose proof (simulate_view_number _ _ _ _ _ E) as Hnum.
    assert (K := @in_page_simulate_view (adds (avoids is_session_cmd)) _
                   n Monetag.HOME_URL dwell_seconds).
    destruct (K _ _ _ _ E) as (t1 & Et1 & F1).
    assert (Et2 : exists msg, trace w1 = trace w0 ++ [Printed msg]).
    { destruct (truthy (Monetag.error a)); inversion E0; subst;
        eexists; reflexivity. }
    destruct Et2 as (msg & Et2).
    assert (Et3 : exists t3,
               trace w2 = trace w1 ++ t3 /\
               forallb (avoids is_lifecycle) t3 = true /\
               count_cmd is_refresh t3
               = if negb (n =? views)%nat then 1 else 0).
    { destruct (negb (n =? views)%nat).
      - apply command_trace in E1. cbn in E1. eexists. split; [exact E1|].
        split; reflexivity.
      - inversion E1; subst. exists []. now rewrite app_nil_r. }
    destruct Et3 as (t3 & Et3 & Hl3 & Hr3).
    exists (a :: rs'), (t1 ++ [Printed msg] ++ t3 ++ added).
    rewrite <- app_assoc. split; [reflexivity|].
    split; [cbn; now rewrite Hnum, Hn|].
    split; [rewrite Ht, Et3, Et2, Et1, <- !app_assoc; reflexivity|].
    split.
    + rewrite !forallb_app, Hl, Hl3,
        (@forallb_avoids is_lifecycle _ _ lifecycle_session F1). reflexivity.
    + rewrite !count_cmd_app, Hr, Hr3.
      rewrite (@count_cmd_avoids _ _ (@forallb_avoids is_refresh _ _ refresh_session F1)).
      cbn [filter].
      destruct (negb (n =? views)%nat); reflexivity.
Qed.

Lemma view_loop_blocks views dwell_seconds numbers env :
  forall results w rs w',
    Monetag.view_loop views numbers dwell_seconds results env w
    = (Normal rs, w') ->
    exists rs' blocks,
      rs = results ++ rs' /\
      List.length blocks = List.length rs' /\
      Forall (fun block => forallb (avoids is_session_cmd) block = true)
             blocks /\
      trace w'
      = trace w ++ List.concat (map (view_events views) (combine rs' blocks)).
Proof.
  induction numbers as [|n rest IH]; intros results w rs w' H;
    cbn [Monetag.view_loop] in H.
  - inversion H; subst. exists [], []. cbn. now rewrite !app_nil_r.
  - do 3 (peel H). apply IH in H.
    destruct H as (rs' & blocks & -> & Hlen & Hb & Ht).
    pose proof (simulate_view_number _ _ _ _ _ E) as Hnum.
    assert (K := @in_page_simulate_view (adds (avoids is_session_cmd)) _
                   n Monetag.HOME_URL dwell_seconds).
    destruct (K _ _ _ _ E) as (t1 & Et1 & F1).
    assert (Et2 : trace w1 = trace w0 ++ [Printed (view_line a)]).
    { unfold view_line. rewrite Hnum.
      destruct (truthy (Monetag.error a)); now inversion E0. }
    assert (Et3 : trace w2
                  = trace w1 ++ (if (Monetag.number a =? views)%nat then []
                                 else [Issued CmdRefresh None])).
    { rewrite Hnum. destruct (n =? views)%nat; cbn [negb] in E1.
      - inversion E1; subst. now rewrite app_nil_r.
      - apply command_trace in E1. exact E1. }
    exists (a :: rs'), (t1 :: blocks).
    rewrite <- app_assoc. split; [reflexivity|].
    split; [cbn; now rewrite Hlen|].
    split; [constructor; assumption|].
    cbn [combine map List.concat]. unfold view_events at 1. cbn [fst snd].
    rewrite Ht, Et3, Et2, Et1, <- !app_assoc. reflexivity.
Qed.

(** X4.  A run of [perform_test_cycle] that returns has one result per
    view, numbered 1 to [views] in order, and its trace is: the launch of
    the driver; then, for each result in order, the events of the view,
    none of which starts, ends or reloads the session, the line printed
    for the result and, unless the result is that of the last view, one
    reload; then the [quit].  So the driver is launched once and quit
    once, and the page is reloaded after each view but the last, [views
    - 1] times, and not after the last one. *)
Theorem cycle_reloads_between_views views dwell_seconds env w results w' :
  Monetag.perform_test_cycle views dwell_seconds env w
  = (Normal results, w') ->
  map Monetag.number results = seq 1 views /\
  exists blocks,
    List.length blocks = List.length results /\
    Forall (fun block => forallb (avoids is_session_cmd) block = true)
           blocks /\
    trace w' = trace w ++ cycle_events views results blocks /\
    count_cmd is_launch (cycle_events views results blocks) = 1 /\
    count_cmd is_quit (cycle_events views results blocks) = 1 /\
    count_cmd is_refresh (cycle_events views results blocks) = views - 1.
Proof.
  unfold Monetag.perform_test_cycle, Monetag.managed_driver. intros H.
  peel H. apply command_trace in E. cbn in E.
  unfold finally in H.
  match type of H with
  | (let (_, _) := ?c in _) = _ => destruct c as [r1 w1] eqn:E1
  end.
  destruct (quit env w1) as [[[]|e] w2] eqn:E2; [|discriminate H].
  inversion H; subst r1 w2. clear H.
  apply command_trace in E2. cbn in E2.
  pose proof (view_loop_blocks _ _ _ _ _ _ E1)
    as (rs2 & blocks & Hrs & Hlen & Hb & Hs).
  apply view_loop_run in E1.
  destruct E1 as (rs' & added & -> & Hn & Ht & Hl & Hr).
  cbn [app] in *. subst rs2.
  assert (Ha : added
               = List.concat (map (view_events views) (combine rs' blocks))).
  { eapply app_inv_head. rewrite <- Ht. exact Hs. }
  split; [exact Hn|]. exists blocks.
  split; [exact Hlen|]. split; [exact Hb|].
  unfold cycle_events. rewrite <- Ha.
  split; [rewrite E2, Ht, E, <- !app_assoc; reflexivity|].
  rewrite !count_cmd_app, Hr, seq_but_last.
  rewrite (@count_cmd_avoids _ _ (@forallb_avoids is_launch _ _ launch_lifecycle Hl)),
    (@count_cmd_avoids _ _ (@forallb_avoids is_quit _ _ quit_lifecycle Hl)).
  repeat split; cbn; lia.
Qed.

Lemma cycle_reloads_between_views_witness :
  map Monetag.number
    (returned [] (Monetag.perform_test_cycle 3 5000%N with_ads one_tab))
  = [1; 2; 3] /\
  exists blocks,
    List.length blocks = 3 /\
    trace (snd (Monetag.perform_test_cycle 3 5000%N with_ads one_tab))
    = trace one_tab
      ++ cycle_events 3
           (returned [] (Monetag.perform_test_cycle 3 5000%N with_ads one_tab))
           blocks /\
    count_cmd is_refresh
      (cycle_events 3
         (returned [] (Monetag.perform_test_cycle 3 5000%N with_ads one_tab))
         blocks) = 2.
Proof.
  destruct (@cycle_reloads_between_views 3 5000%N with_ads one_tab
              (returned [] (Monetag.perform_test_cycle 3 5000%N with_ads
                              one_tab))
              (snd (Monetag.perform_test_cycle 3 5000%N with_ads one_tab))
              ltac:(vm_compute; reflexivity))
    as (Hn & blocks & Hlen & _ & Ht & _ & _ & Hr).
  split; [exact Hn|]. exists blocks.
  split; [exact Hlen|]. split; [exact Ht | exact Hr].
Defined.

Lemma navigation_attempt_fields env main_handle iteration target w r w' :
  NavClick.navigation_attempt main_handle iteration target env w
  = (Normal r, w') ->
  NavClick.iteration r = iteration /\
  NavClick.clicked_label r = fst target /\
  NavClick.error r = None.
Proof.
  intros H. unfold NavClick.navigation_attempt in H.
  destruct target as [target_label target_locator].
  do 15 (peel H; open_pairs).
  unfold ret in H. inversion H; subst r w'. cbn. auto.
Qed.

Lemma next_button start :
  (start + 1) mod 2 = if Nat.odd start then 0 else 1.
Proof.
  assert (P : forall n,
             ((n + 1) mod 2 = if Nat.odd n then 0 else 1) /\
             ((S n + 1) mod 2 = if Nat.odd (S n) then 0 else 1)).
  { induction n as [|n [IH1 IH2]]; [split; reflexivity|].
    split; [exact IH2|].
    replace (S (S n) + 1) with (n + 1 + 1 * 2) by lia.
    rewrite Nat.Div0.mod_add, Nat.odd_succ, Nat.even_succ. exact IH1. }
  apply P.
Qed.

(** What [exercise_navigation] records of an iteration: the button it
    clicked, Home on the odd and Games on the even iterations, or the fixed
    fields of a failure. *)
Lemma navigation_loop_run env main_handle n :
  forall start button_index results w rs w',
    button_index = (start + 1) mod 2 ->
    NavClick.navigation_loop main_handle (seq start n) button_index results
      env w = (Normal rs, w') ->
    exists rs',
      rs = results ++ rs' /\
      map NavClick.iteration rs' = seq start n /\
      Forall (fun r =>
                match NavClick.error r with
                | None =>
                    NavClick.clicked_label r
                    = if Nat.odd (NavClick.iteration r) then "Home"
                      else "Games"
                | Some _ =>
                    NavClick.clicked_label r = "<unknown>" /\
                    NavClick.href r = "" /\
                    NavClick.ads_detected r = false /\
                    NavClick.both_buttons_visible r = false /\
                    NavClick.popup_urls r = []
                end) rs'.
Proof.
  induction n as [|n IH]; intros start button_index results w rs w' Hb H;
    cbn [seq NavClick.navigation_loop] in H.
  - inversion H; subst. exists []. now rewrite app_nil_r.
  - peel H. eapply IH in H.
    2:{ subst button_index. cbn [List.length NavClick.NAV_BUTTONS].
        rewrite Nat.Div0.add_mod_idemp_l. f_equal. lia. }
    destruct H as (rs' & -> & Hn & Hf).
    assert (Ha : exists r,
               a = results ++ [r] /\ NavClick.iteration r = start /\
               match NavClick.error r with
               | None =>
                   NavClick.clicked_label r
                   = if Nat.odd (NavClick.iteration r) then "Home"
                     else "Games"
               | Some _ =>
                   NavClick.clicked_label r = "<unknown>" /\
                   NavClick.href r = "" /\
                   NavClick.ads_detected r = false /\
                   NavClick.both_buttons_visible r = false /\
                   NavClick.popup_urls r = []
               end).
    { clear IH Hn Hf. unfold catch in E.
      match type of E with
      | (let (_, _) := ?c in _) = _ => destruct c as [[x|exc] wx] eqn:Ex
      end.
      - inversion E; subst. clear E. peel Ex. peel Ex.
        unfold ret in Ex. inversion Ex; subst.
        apply navigation_attempt_fields in E.
        destruct E as (Hi & Hl & He). eexists. split; [reflexivity|].
        split; [exact Hi|]. rewrite He, Hl, Hi, next_button.
        destruct (Nat.odd start); reflexivity.
      - do 5 (peel E). unfold ret in E. inversion E; subst.
        eexists. split; [reflexivity|]. cbn. repeat split. }
    destruct Ha as (r & -> & Hi & Hr).
    exists (r :: rs'). rewrite <- app_assoc. split; [reflexivity|].
    split; [cbn; now rewrite Hi, Hn|]. constructor; assumption.
Qed.

(** X5.  A run of [exercise_navigation] that returns has one result per
    iteration, numbered 1 to [iterations] in order.  A result without an
    error names the button that was clicked: Home on the odd iterations
    and Games on the even ones, also after iterations that failed.  A
    result with an error has the label "<unknown>" and no detection. *)
Theorem navigation_alternates iterations env w results w' :
  NavClick.exercise_navigation iterations env w = (Normal results, w') ->
  map NavClick.iteration results = seq 1 iterations /\
  Forall (fun r =>
            match NavClick.error r with
            | None =>
                NavClick.clicked_label r
                = if Nat.odd (NavClick.iteration r) then "Home" else "Games"
            | Some _ =>
                NavClick.clicked_label r = "<unknown>" /\
                NavClick.href r = "" /\
                NavClick.ads_detected r = false /\
                NavClick.both_buttons_visible r = false /\
                NavClick.popup_urls r = []
            end) results.
Proof.
  unfold NavClick.exercise_navigation. intros H.
  apply managed_driver_normal in H. destruct H as (w0 & w1 & H).
  do 4 (peel H). apply navigation_loop_run in H; [|reflexivity].
  destruct H as (rs' & -> & Hn & Hf). auto.
Qed.

Lemma navigation_alternates_witness :
  map NavClick.iteration
    (returned [] (NavClick.exercise_navigation 4 with_nav one_tab))
  = [1; 2; 3; 4] /\
  map NavClick.clicked_label
    (returned [] (NavClick.exercise_navigation 4 with_nav one_tab))
  = ["Home"; "Games"; "Home"; "Games"].
Proof.
  split.
  - exact (proj1 (@navigation_alternates 4 with_nav one_tab
             (returned [] (NavClick.exercise_navigation 4 with_nav one_tab))
             (snd (NavClick.exercise_navigation 4 with_nav one_tab))
             ltac:(vm_compute; reflexivity))).
  - vm_compute. reflexivity.
Defined.

Lemma record_attempt_fields env attempt main_handle href debug both_visible
    before_handles after_handles w r w' :
  PlayButton.record_attempt attempt main_handle href debug both_visible
    before_handles after_handles env w = (Normal r, w') ->
  PlayButton.attempt r = attempt /\ PlayButton.error r = None.
Proof.
  intros H. unfold PlayButton.record_attempt in H.
  do 4 (peel H; open_pairs).
  unfold ret in H. inversion H; subst r w'. cbn. auto.
Qed.

Lemma click_games_button_fields env attempt main_handle w r w' :
  PlayButton.click_games_button attempt main_handle env w = (Normal r, w') ->
  PlayButton.attempt r = attempt /\
  (PlayButton.error r <> None ->
   (PlayButton.find_first_visible PlayButton.GAMES_LOCATORS env w
    = (Normal None, w') /\
    r = play_failure attempt
          (Explicit Timeout
             "Games button not visible via known locators.")) \/
   (exists button w1,
       PlayButton.find_first_visible PlayButton.GAMES_LOCATORS env w
       = (Normal (Some button), w1) /\
       wait_until_enabled 2500%N button env w1
       = (Raise TimeoutException, w') /\
       r = play_failure attempt TimeoutException)).
Proof.
  intros H. apply click_games_button_inv in H.
  destruct H as [(exc & E & _ & ->)
                |(href & debug & both & before & after & w1 & _ & H)].
  - split; [reflexivity|]. intros _.
    apply click_and_observe_failure in E.
    destruct E as [[F ->]|(b & w1 & F & W & ->)]; [left | right]; eauto.
  - apply record_attempt_fields in H. destruct H as [Ha He].
    split; [exact Ha|]. intros Hn. contradiction.
Qed.

Lemma attempts_loop_run env main_handle attempts :
  forall results w rs w',
    PlayButton.attempts_loop main_handle attempts results env w
    = (Normal rs, w') ->
    exists rs',
      rs = results ++ rs' /\
      map PlayButton.attempt rs' = attempts /\
      Forall (fun r => PlayButton.error r <> None -> is_play_failure r) rs'.
Proof.
  induction attempts as [|attempt rest IH]; intros results w rs w' H;
    cbn [PlayButton.attempts_loop] in H.
  - inversion H; subst. exists []. now rewrite app_nil_r.
  - do 7 (peel H). apply IH in H. destruct H as (rs' & -> & Hn & Hf).
    match goal with
    | Ec : PlayButton.click_games_button _ _ _ _ = (Normal ?r, _) |- _ =>
        apply click_games_button_fields in Ec; destruct Ec as (Hi & Hr);
        exists (r :: rs')
    end.
    rewrite <- app_assoc. split; [reflexivity|].
    split; [cbn; now rewrite Hi, Hn|]. constructor; [|assumption].
    intros He. unfold is_play_failure. rewrite Hi.
    destruct (Hr He) as [[_ ->]|(b & wb & _ & _ & ->)]; auto.
Qed.

(** X6.  A run of [exercise_games_button] that returns has one result per
    attempt, numbered 1 to [attempts] in order.  A result carries an
    error in two cases only, and is then the failure record, every other
    field at its default: the search found no displayed Games button, and
    the error is the text of the [TimeoutException] the function raises
    itself, with its message; or the wait for the button to be enabled
    timed out, and the error is the text of that timeout.  An attempt that
    returns such a record did nothing after the search, or after the
    wait. *)
Theorem play_button_records_timeouts_only env :
  (forall attempts w results w',
      PlayButton.exercise_games_button attempts env w
      = (Normal results, w') ->
      map PlayButton.attempt results = seq 1 attempts /\
      Forall (fun r =>
                PlayButton.error r <> None ->
                r = play_failure (PlayButton.attempt r)
                      (Explicit Timeout
                         "Games button not visible via known locators.") \/
                r = play_failure (PlayButton.attempt r) TimeoutException)
             results) /\
  (forall attempt main_handle w r w',
      PlayButton.click_games_button attempt main_handle env w
      = (Normal r, w') ->
      PlayButton.error r <> None ->
      (PlayButton.find_first_visible PlayButton.GAMES_LOCATORS env w
       = (Normal None, w') /\
       r = play_failure attempt
             (Explicit Timeout
                "Games button not visible via known locators.")) \/
      (exists button w1,
          PlayButton.find_first_visible PlayButton.GAMES_LOCATORS env w
          = (Normal (Some button), w1) /\
          wait_until_enabled 2500%N button env w1
          = (Raise TimeoutException, w') /\
          r = play_failure attempt TimeoutException)).
Proof.
  split.
  - intros attempts w results w' H.
    unfold PlayButton.exercise_games_button in H.
    apply managed_driver_normal in H. destruct H as (w0 & w1 & H).
    do 6 (peel H). apply attempts_loop_run in H.
    destruct H as (rs' & -> & Hn & Hf). auto.
  - intros attempt main_handle w r w' H.
    apply click_games_button_fields in H. apply H.
Qed.

Lemma play_button_records_timeouts_only_witness :
  map PlayButton.attempt
    (returned [] (PlayButton.exercise_games_button 3 calm one_tab))
  = [1; 2; 3] /\
  map PlayButton.error
    (returned [] (PlayButton.exercise_games_button 3 calm one_tab))
  = repeat
      (Some ("Games button not clickable: "
             ++ "Message: Games button not visible via known locators."
             ++ LF)%string) 3 /\
  PlayButton.error
    (returned no_attempt
       (PlayButton.click_games_button 1 "main"
          (showing (page_with_disabled
                      (nth 0 PlayButton.GAMES_LOCATORS (XPATH, ""))) calm)
          one_tab))
  = Some "Games button not clickable: Message: timeout".
Proof.
  split; [|split].
  - exact (proj1 (proj1 (play_button_records_timeouts_only calm)
             3 one_tab
             (returned [] (PlayButton.exercise_games_button 3 calm one_tab))
             (snd (PlayButton.exercise_games_button 3 calm one_tab))
             ltac:(vm_compute; reflexivity))).
  - vm_compute. reflexivity.
  - vm_compute. reflexivity.
Defined.

(* ================================================================= *)
(** ** The search for the navigation buttons *)

Lemma waits_app a b : waits (a ++ b) = waits a ++ waits b.
Proof. apply flat_map_app. Qed.

Lemma is_displayed_run e env w r w1 :
  is_displayed e env w = (r, w1) ->
  trace w1 = trace w ++ [Issued (CmdIsDisplayed (el_by e)) (exn_of r)] /\
  forall d, r = Normal d -> d = el_displayed e.
Proof.
  intros H. split; [exact (command_trace _ _ _ _ H)|].
  unfold is_displayed, on_page, query, command in H.
  destruct (fault env (tick w)); [inversion H; subst; discriminate|].
  destruct (In_b (focus w) (window_handles w)); inversion H; subst;
    [|discriminate]. now intros d [= <-].
Qed.

Lemma find_first_visible_run ls env :
  forall w, exists r w' n,
    PlayButton.find_first_visible ls env w = (Normal r, w') /\
    waits (trace w')
    = waits (trace w)
      ++ map (fun l => (presence_of_element_located l, 1500%N)) (firstn n ls) /\
    match r with
    | Some e => el_displayed e = true /\ 0 < n
    | None => n = List.length ls
    end.
Proof.
  induction ls as [|[by_ value] rest IH]; intros w;
    cbn [PlayButton.find_first_visible].
  - exists None, w, 0. cbn. now rewrite app_nil_r.
  - unfold bind at 1, catch, bind at 1.
    destruct (wait_until 1500%N (presence_of_element_located (by_, value))
                env w) as [[el|e1] w1] eqn:E1;
      pose proof (command_trace _ _ _ _ E1) as T1.
    + unfold bind at 1.
      destruct (is_displayed el env w1) as [[d|e2] w2] eqn:E2;
        pose proof E2 as W2;
        apply is_displayed_run in E2; destruct E2 as (T2 & D2).
      * specialize (D2 d eq_refl). subst d. unfold ret at 1.
        destruct (el_displayed el) eqn:Ed.
        -- exists (Some el), w2, 1. split; [reflexivity|].
           rewrite T2, T1, !waits_app. cbn. rewrite app_nil_r. auto.
        -- destruct (IH w2) as (r & w' & n & E & Tw & Hr).
           exists r, w', (S n). split; [exact E|].
           rewrite Tw, T2, T1, !waits_app. cbn. rewrite app_nil_r, <- app_assoc.
           split; [reflexivity|]. destruct r; [split; [apply Hr | lia] | lia].
      * rewrite (@wd_is_displayed _ _ _ _ _ W2). unfold ret at 1.
        destruct (IH w2) as (r & w' & n & E & Tw & Hr).
        exists r, w', (S n). split; [exact E|].
        rewrite Tw, T2, T1, !waits_app. cbn. rewrite app_nil_r, <- app_assoc.
        split; [reflexivity|]. destruct r; [split; [apply Hr | lia] | lia].
    + rewrite (@wd_wait_until _ _ _ _ _ _ E1). unfold ret at 1.
      destruct (IH w1) as (r & w' & n & E & Tw & Hr).
      exists r, w', (S n). split; [exact E|].
      rewrite Tw, T1, !waits_app. cbn. rewrite <- app_assoc.
      split; [reflexivity|]. destruct r; [split; [apply Hr | lia] | lia].
Qed.

Lemma wait_until_normal timeout c env w e w1 :
  wait_until timeout c env w = (Normal e, w1) ->
  cond_holds (page env (tick w)) c = Some e.
Proof.
  unfold wait_until, command.
  destruct (fault env (tick w)); [discriminate|].
  destruct (In_b (focus w) (window_handles w)); [|discriminate].
  destruct (cond_holds (page env (tick w)) c); [|discriminate].
  now intros [= -> _].
Qed.

Lemma find_first_visible_steps ls env :
  forall w, exists r w' skipped,
    PlayButton.find_first_visible ls env w = (Normal r, w') /\
    Forall skipped_ok skipped /\
    match r with
    | None =>
        List.length skipped = List.length ls /\
        trace w' = trace w ++ flat_map skipped_events (combine ls skipped)
    | Some e =>
        exists pre l post k,
          ls = pre ++ l :: post /\
          List.length skipped = List.length pre /\
          cond_holds (page env k) (presence_of_element_located l) = Some e /\
          el_displayed e = true /\
          trace w'
          = trace w ++ flat_map skipped_events (combine pre skipped)
            ++ [Issued (CmdWait (presence_of_element_located l) 1500%N) None;
                Issued (CmdIsDisplayed (el_by e)) None]
    end.
Proof.
  assert (Step : forall l rest step w w2,
             skipped_ok step ->
             trace w2 = trace w ++ skipped_events (l, step) ->
             (exists r w' skipped,
                 PlayButton.find_first_visible rest env w2 = (Normal r, w') /\
                 Forall skipped_ok skipped /\
                 match r with
                 | None =>
                     List.length skipped = List.length rest /\
                     trace w'
                     = trace w2
                       ++ flat_map skipped_events (combine rest skipped)
                 | Some e =>
                     exists pre l0 post k,
                       rest = pre ++ l0 :: post /\
                       List.length skipped = List.length pre /\
                       cond_holds (page env k)
                         (presence_of_element_located l0) = Some e /\
                       el_displayed e = true /\
                       trace w'
                       = trace w2
                         ++ flat_map skipped_events (combine pre skipped)
                         ++ [Issued (CmdWait (presence_of_element_located l0)
                                       1500%N) None;
                             Issued (CmdIsDisplayed (el_by e)) None]
                 end) ->
             exists r w' skipped,
               PlayButton.find_first_visible rest env w2 = (Normal r, w') /\
               Forall skipped_ok skipped /\
               match r with
               | None =>
                   List.length skipped = List.length (l :: rest) /\
                   trace w'
                   = trace w
                     ++ flat_map skipped_events (combine (l :: rest) skipped)
               | Some e =>
                   exists pre l0 post k,
                     l :: rest = pre ++ l0 :: post /\
                     List.length skipped = List.length pre /\
                     cond_holds (page env k)
                       (presence_of_element_located l0) = Some e /\
                     el_displayed e = true /\
                     trace w'
                     = trace w
                       ++ flat_map skipped_events (combine pre skipped)
                       ++ [Issued (CmdWait (presence_of_element_located l0)
                                     1500%N) None;
                           Issued (CmdIsDisplayed (el_by e)) None]
               end).
  { intros l rest step w w2 Hok T2 (r & w' & skipped & E & Hf & Hr).
    exists r, w', (step :: skipped). split; [exact E|].
    split; [constructor; assumption|].
    destruct r as [e|].
    - destruct Hr as (pre & l0 & post & k & -> & Hl & Hc & Hd & Ht).
      exists (l :: pre), l0, post, k. split; [reflexivity|].
      split; [cbn; now rewrite Hl|]. split; [exact Hc|].
      split; [exact Hd|]. cbn [combine flat_map].
      rewrite Ht, T2, <- !app_assoc. reflexivity.
    - destruct Hr as (Hl & Ht). split; [cbn; now rewrite Hl|].
      cbn [combine flat_map]. rewrite Ht, T2, <- !app_assoc. reflexivity. }
  induction ls as [|[by_ value] rest IH]; intros w;
    cbn [PlayButton.find_first_visible].
  - exists None, w, []. cbn. rewrite app_nil_r. auto.
  - unfold bind at 1, catch, bind at 1.
    destruct (wait_until 1500%N (presence_of_element_located (by_, value))
                env w) as [[el|e1] w1] eqn:E1;
      pose proof (command_trace _ _ _ _ E1) as T1.
    + unfold bind at 1.
      destruct (is_displayed el env w1) as [[d|e2] w2] eqn:E2;
        pose proof E2 as W2;
        apply is_displayed_run in E2; destruct E2 as (T2 & D2).
      * specialize (D2 d eq_refl). subst d. unfold ret at 1.
        destruct (el_displayed el) eqn:Ed.
        -- exists (Some el), w2, []. split; [reflexivity|].
           split; [constructor|].
           exists [], (by_, value), rest, (tick w).
           split; [reflexivity|]. split; [reflexivity|].
           split; [exact (wait_until_normal _ _ _ _ E1)|].
           split; [exact Ed|]. cbn. rewrite T2, T1, <- app_assoc.
           reflexivity.
        -- apply (Step (by_, value) rest (NotDisplayed el) w w2);
             [exact Ed | | apply IH].
           rewrite T2, T1, <- app_assoc. reflexivity.
      * rewrite (@wd_is_displayed _ _ _ _ _ W2). unfold ret at 1.
        apply (Step (by_, value) rest (NotReadable el e2) w w2);
          [exact (@wd_is_displayed _ _ _ _ _ W2) | | apply IH].
        rewrite T2, T1, <- app_assoc. reflexivity.
    + rewrite (@wd_wait_until _ _ _ _ _ _ E1). unfold ret at 1.
      apply (Step (by_, value) rest (NotFound e1) w w1);
        [exact (@wd_wait_until _ _ _ _ _ _ E1) | exact T1 | apply IH].
Qed.

(** When nothing fails and the page stays as it is, the search returns the
    first displayed element. *)
Lemma find_first_visible_reliable env p ls :
  Reliable env -> (forall n, page env n = p) ->
  forall w, focused w ->
  exists w',
    PlayButton.find_first_visible ls env w = (Normal (first_visible p ls), w')
    /\ focused w'.
Proof.
  intros R Hp. induction ls as [|[by_ value] rest IH]; intros w Hf;
    cbn [PlayButton.find_first_visible first_visible].
  - exists w. split; [reflexivity | exact Hf].
  - unfold bind at 1, catch, bind at 1.
    destruct (wait_until_run 1500%N
                (presence_of_element_located (by_, value)) env
                (R (tick w)) Hf) as (w1 & E1 & M1).
    rewrite E1. pose proof (moved_focused Hf M1) as Hf1.
    rewrite Hp. cbn [cond_holds]. unfold first_match.
    destruct (matches p (by_, value)) as [|el els].
    + cbn [is_webdriver]. unfold ret at 1. apply IH. exact Hf1.
    + unfold bind at 1.
      destruct (on_page_run (CmdIsDisplayed (el_by el))
                  (fun _ => Normal (el_displayed el)) env (R (tick w1)) Hf1)
        as (w2 & E2 & M2).
      unfold is_displayed. rewrite E2.
      pose proof (moved_focused Hf1 M2) as Hf2. unfold ret at 1.
      destruct (el_displayed el).
      * exists w2. split; [reflexivity | exact Hf2].
      * apply IH. exact Hf2.
Qed.

(** X7.  [find_first_visible] never raises.  It goes through the locators
    in their order: for each it waits for the presence of an element,
    1.5 s at most, and asks the element whether it is displayed.  It goes
    past a locator when the wait or [is_displayed] failed, or when the
    element is not displayed, and it stops at the first locator whose
    element is displayed: that element, the one the wait for this locator
    found, is returned, and nothing is done after its [is_displayed].
    [None] means that every locator was tried and passed.  When nothing
    fails and the page stays as it is, the result is the first match of
    the first locator whose first match is displayed. *)
Theorem find_first_visible_scans ls env w :
  exists r w' skipped,
    PlayButton.find_first_visible ls env w = (Normal r, w') /\
    Forall skipped_ok skipped /\
    match r with
    | None =>
        List.length skipped = List.length ls /\
        trace w' = trace w ++ flat_map skipped_events (combine ls skipped)
    | Some e =>
        exists pre l post k,
          ls = pre ++ l :: post /\
          List.length skipped = List.length pre /\
          cond_holds (page env k) (presence_of_element_located l) = Some e /\
          el_displayed e = true /\
          trace w'
          = trace w ++ flat_map skipped_events (combine pre skipped)
            ++ [Issued (CmdWait (presence_of_element_located l) 1500%N) None;
                Issued (CmdIsDisplayed (el_by e)) None]
    end /\
    waits (trace w')
    = waits (trace w)
      ++ map (fun l => (presence_of_element_located l, 1500%N))
             (firstn (List.length skipped
                      + match r with Some _ => 1 | None => 0 end) ls) /\
    (Reliable env -> focused w ->
     forall p, (forall n, page env n = p) -> r = first_visible p ls).
Proof.
  destruct (find_first_visible_steps ls env w)
    as (r & w' & skipped & E & Hok & Hr).
  exists r, w', skipped. split; [exact E|]. split; [exact Hok|].
  split; [exact Hr|]. split.
  - assert (Hw : forall sts,
               waits (flat_map skipped_events sts)
               = map (fun l => (presence_of_element_located l, 1500%N))
                     (map fst sts)).
    { induction sts as [|[l0 [exc|e0 exc|e0]] sts IHs];
        [reflexivity|..]; cbn [flat_map map fst]; rewrite waits_app, IHs;
        reflexivity. }
    destruct r as [e|].
    + destruct Hr as (pre & l & post & k & -> & Hl & _ & _ & Ht).
      rewrite Ht, !waits_app, Hw. cbn [waits flat_map app].
      f_equal. rewrite Hl, firstn_app.
      replace (List.length pre + 1 - List.length pre) with 1 by lia.
      rewrite firstn_all2 by lia. cbn [firstn]. rewrite map_app.
      f_equal. f_equal.
      clear - Hl. revert skipped Hl.
      induction pre as [|a pre IHp]; intros [|s skipped] Hl;
        try discriminate; [reflexivity|].
      cbn. f_equal. apply IHp. now inversion Hl.
    + destruct Hr as (Hl & Ht). rewrite Ht, waits_app, Hw.
      f_equal. rewrite Hl, Nat.add_0_r, firstn_all. f_equal.
      clear - Hl. revert skipped Hl.
      induction ls as [|a ls IHp]; intros [|s skipped] Hl;
        try discriminate; [reflexivity|].
      cbn. f_equal. apply IHp. now inversion Hl.
  - intros R Hf p Hp.
    destruct (find_first_visible_reliable ls R Hp Hf) as (w2 & E2 & _).
    rewrite E in E2. now inversion E2.
Qed.

Lemma find_first_visible_scans_witness :
  fst (PlayButton.find_first_visible PlayButton.GAMES_LOCATORS with_nav
         one_tab)
  = Normal (first_visible page_with_nav PlayButton.GAMES_LOCATORS) /\
  first_visible page_with_nav PlayButton.GAMES_LOCATORS
  = Some (button_at (nth 0 PlayButton.GAMES_LOCATORS (XPATH, ""))).
Proof.
  destruct (find_first_visible_scans PlayButton.GAMES_LOCATORS with_nav
              one_tab) as (r & w' & skipped & E & _ & _ & _ & Hrel).
  split; [|vm_compute; reflexivity].
  rewrite E. cbn [fst]. f_equal. apply Hrel.
  - intros n. reflexivity.
  - vm_compute. reflexivity.
  - intros n. reflexivity.
Defined.

Lemma are_nav_buttons_visible_loop_run env deadline fuel :
  forall w,
    (deadline < now w + 200 * N.of_nat fuel)%N ->
    exists b w',
      PlayButton.are_nav_buttons_visible_loop fuel deadline env w
      = (Normal b, w') /\
      (b = false -> (deadline <= now w')%N).
Proof.
  induction fuel as [|fuel IH]; intros w Hd.
  - rewrite are_nav_buttons_visible_loop_out. exists false, w.
    split; [reflexivity|]. intros _. lia.
  - rewrite are_nav_buttons_visible_loop_step.
    destruct (now w <? deadline)%N eqn:Hn.
    + destruct (find_first_visible_run PlayButton.HOME_LOCATORS env w)
        as (home & w1 & n1 & E1 & _).
      destruct (find_first_visible_run PlayButton.GAMES_LOCATORS env w1)
        as (games & w2 & n2 & E2 & _).
      unfold bind at 1. rewrite E1. unfold bind at 1. rewrite E2.
      apply find_first_visible_later in E1, E2.
      assert (Hs : exists b w',
                 (sleep 200%N ;;
                  PlayButton.are_nav_buttons_visible_loop fuel deadline)
                   env w2 = (Normal b, w') /\
                 (b = false -> (deadline <= now w')%N)).
      { unfold bind.
        destruct (sleep 200%N env w2) as [[[]|e] w3] eqn:E3;
          [|discriminate E3].
        apply sleep_later in E3. apply IH. lia. }
      destruct home, games; try exact Hs.
      exists true, w2. split; [reflexivity|]. discriminate.
    + exists false, w. split; [reflexivity|]. intros _.
      apply N.ltb_ge in Hn. exact Hn.
Qed.

(** X8.  [are_nav_buttons_visible] never raises, and it answers [False]
    only once its deadline has passed: at least [timeout] after the call.
    With no time allowed it answers [False] without a single driver
    call. *)
Theorem nav_buttons_polled_until_deadline timeout env w :
  exists b w',
    PlayButton.are_nav_buttons_visible timeout env w = (Normal b, w') /\
    (b = false -> (now w + timeout <= now w')%N) /\
    (timeout = 0%N -> b = false /\ w' = w).
Proof.
  unfold PlayButton.are_nav_buttons_visible, bind, time_time. cbv zeta.
  destruct (@are_nav_buttons_visible_loop_run env (now w + timeout)%N
              (S (N.to_nat (timeout / 200))) w) as (b & w' & E & Hb).
  { rewrite Nat2N.inj_succ, N2Nat.id.
    pose proof (N.mod_lt timeout 200 ltac:(discriminate)).
    pose proof (N.div_mod timeout 200 ltac:(discriminate)). lia. }
  exists b, w'. split; [exact E|]. split; [exact Hb|].
  intros ->. rewrite are_nav_buttons_visible_loop_step in E.
  assert (Hn : (now w <? now w + 0)%N = false) by (apply N.ltb_ge; lia).
  rewrite Hn in E. now inversion E.
Qed.

(* ================================================================= *)
(** ** The popup loops *)

Ltac adds_prim :=
  first [ solve [auto with keeps typeclass_instances]
        | open_command; unfold print, logger;
          first [apply adds_command | apply adds_sleep | apply adds_emit];
          intros; reflexivity ].

Ltac adds_auto := repeat keeps_step adds_prim.

Lemma wait_for_ads_no_window_cmd timeout :
  keeps (adds (avoids is_window_cmd)) (Monetag.wait_for_ads timeout).
Proof.
  unfold Monetag.wait_for_ads. generalize Monetag.AD_IDENTIFIERS.
  intros ls. induction ls as [|l rest IH];
    cbn [Monetag.wait_for_ads_loop]; adds_auto.
Qed.

Lemma closes_app a b : closes (a ++ b) = closes a + closes b.
Proof. unfold closes. now rewrite filter_app, length_app. Qed.

Lemma no_window_cmd_marks t :
  forallb (avoids is_window_cmd) t = true ->
  switch_targets t = [] /\ closes t = 0.
Proof.
  induction t as [|ev t IH]; [split; reflexivity|].
  cbn [forallb]. intros [Hev Ht]%andb_true_iff.
  destruct (IH Ht) as [Hs Hc]. unfold closes in *.
  destruct ev as [[] r| |]; cbn in *; try discriminate Hev; auto.
Qed.

(** One popup: the switch, what is done in the popup, and the [close] of
    the [finally]. *)
Lemma popup_visit {A B} (handle : Handle) (k : M A) (h : Exn -> M A)
    (k2 : A -> M B) env w r w' :
  (keeps (adds (avoids is_window_cmd)) k) ->
  (forall e, keeps (adds (avoids is_window_cmd)) (h e)) ->
  (forall a, keeps (adds (avoids is_window_cmd)) (k2 a)) ->
  finally (x <- catch (switch_to_window handle ;; k) h ;; k2 x)
          (suppress close) env w = (r, w') ->
  switch_targets (trace w') = switch_targets (trace w) ++ [handle] /\
  closes (trace w') = closes (trace w) + 1.
Proof.
  intros Hk Hh Hk2. unfold finally.
  match goal with
  | |- context [let (_, _) := ?c env w in _] =>
      destruct (c env w) as [r1 w1] eqn:E1
  end.
  assert (T1 : switch_targets (trace w1) = switch_targets (trace w) ++ [handle]
               /\ closes (trace w1) = closes (trace w)).
  { unfold bind at 1, catch, bind at 1 in E1.
    destruct (switch_to_window handle env w) as [[[]|e] w0] eqn:E0;
      apply command_trace in E0;
      match type of E1 with
      | ?run = _ =>
          assert (K : exists added,
                     trace w1 = trace w0 ++ added /\
                     forallb (avoids is_window_cmd) added = true)
      end.
    - assert (Hc : keeps (adds (avoids is_window_cmd))
                     (x <- catch k h ;; k2 x)) by adds_auto.
      apply (Hc env w0 r1 w1). unfold bind at 1, catch. exact E1.
    - destruct K as (added & Et & F). apply no_window_cmd_marks in F.
      destruct F as [Fs Fc].
      rewrite Et, E0, !switch_targets_app, !closes_app, Fs, Fc.
      cbn. rewrite app_nil_r. split; [reflexivity | lia].
    - assert (Hc : keeps (adds (avoids is_window_cmd))
                     (x <- h e ;; k2 x)) by adds_auto.
      apply (Hc env w0 r1 w1). unfold bind at 1. exact E1.
    - destruct K as (added & Et & F). apply no_window_cmd_marks in F.
      destruct F as [Fs Fc].
      rewrite Et, E0, !switch_targets_app, !closes_app, Fs, Fc.
      cbn. rewrite app_nil_r. split; [reflexivity | lia]. }
  unfold suppress, catch.
  destruct (close env w1) as [[[]|e] w2] eqn:E2;
    pose proof (command_trace _ _ _ _ E2) as T2.
  - intros [= _ <-]. rewrite T2, switch_targets_app, closes_app.
    destruct T1 as [-> ->]. cbn. now rewrite app_nil_r.
  - rewrite (@wd_close _ _ _ _ E2). intros [= _ <-].
    rewrite T2, switch_targets_app, closes_app.
    destruct T1 as [-> ->]. cbn. now rewrite app_nil_r.
Qed.

Lemma popup_visit_returns {A B} (handle : Handle) (k : M A) (h : Exn -> M A)
    (k2 : A -> M B) :
  wd k ->
  (forall e, is_webdriver e = true -> returns (fun _ => True) (h e)) ->
  (forall a, returns (fun _ => True) (k2 a)) ->
  returns (fun _ => True)
    (finally (x <- catch (switch_to_window handle ;; k) h ;; k2 x)
             (suppress close)).
Proof.
  intros Hk Hh Hk2. apply returns_finally.
  - eapply returns_bind with (Q := fun _ => True).
    + apply returns_catch; [wd_auto | trivial | exact Hh].
    + intros a _. apply Hk2.
  - apply returns_suppress, wd_close.
Qed.

Lemma nav_inspect_popups_run label hs env :
  forall st w, exists st' w' more,
    NavClick.inspect_popups label hs st env w = (Normal st', w') /\
    switch_targets (trace w') = switch_targets (trace w) ++ hs /\
    closes (trace w') = closes (trace w) + List.length hs /\
    fst (fst st') = fst (fst st) ++ more /\
    List.length more <= List.length hs /\
    (snd (fst st) = true -> snd (fst st') = true).
Proof.
  induction hs as [|handle rest IH]; intros [[urls ads] notes] w;
    cbn [NavClick.inspect_popups].
  - exists (urls, ads, notes), w, []. cbn. rewrite !app_nil_r.
    repeat split; auto.
  - unfold bind at 1.
    match goal with
    | |- context [finally ?c ?f env w] =>
        assert (Hr : returns (fun _ => True) (finally c f));
        [|destruct (Hr env w) as (st1 & w1 & E1 & _)]
    end.
    { apply popup_visit_returns.
      - wd_auto.
      - intros e He. rewrite He. now apply returns_ret.
      - intros [u|exc]; [|now apply returns_ret].
        eapply returns_bind with (Q := fun _ => True).
        + apply returns_catch; [wd_auto | trivial |].
          intros e He. rewrite He. now apply returns_ret.
        + intros [[|]|exc] _; now apply returns_ret. }
    rewrite E1.
    destruct (IH st1 w1) as (st' & w' & more & E & Hs & Hc & Hu & Hl & Ha).
    pose proof E1 as V1. apply popup_visit in E1.
    2:{ adds_auto. }
    2:{ intros e. adds_auto. }
    2:{ intros a. pose proof (wait_for_ads_no_window_cmd 3000%N). adds_auto. }
    destruct E1 as [Hs1 Hc1].
    assert (V : exists more1,
               fst (fst st1) = urls ++ more1 /\ List.length more1 <= 1 /\
               (ads = true -> snd (fst st1) = true)).
    { apply finally_normal in V1. destruct V1 as (w2 & V1).
      peel V1. destruct a as [u|exc].
      - peel V1. destruct a as [[|]|exc]; unfold ret in V1;
          inversion V1; subst; exists [u]; cbn; auto.
      - unfold ret in V1. inversion V1; subst. exists []. cbn.
        rewrite app_nil_r. auto. }
    destruct V as (more1 & Hu1 & Hl1 & Ha1).
    exists st', w', (more1 ++ more). split; [exact E|].
    rewrite Hs, Hs1, Hc, Hc1, Hu, Hu1, <- !app_assoc, length_app.
    cbn [List.length fst snd app]. repeat split; auto; lia.
Qed.

Lemma play_inspect_popups_run label hs env :
  forall st w, exists st' w' more,
    PlayButton.inspect_popups label hs st env w = (Normal st', w') /\
    switch_targets (trace w') = switch_targets (trace w) ++ hs /\
    closes (trace w') = closes (trace w) + List.length hs /\
    fst (fst st') = fst (fst st) ++ more /\
    List.length more <= List.length hs /\
    (snd (fst st) = true -> snd (fst st') = true).
Proof.
  induction hs as [|handle rest IH]; intros [[urls ads] notes] w;
    cbn [PlayButton.inspect_popups].
  - exists (urls, ads, notes), w, []. cbn. rewrite !app_nil_r.
    repeat split; auto.
  - unfold bind at 1.
    match goal with
    | |- context [finally ?c ?f env w] =>
        assert (Hr : returns (fun _ => True) (finally c f));
        [|destruct (Hr env w) as (st1 & w1 & E1 & _)]
    end.
    { apply popup_visit_returns.
      - wd_auto.
      - intros e He. rewrite He. now apply returns_ret.
      - intros [u|exc]; [|now apply returns_ret].
        eapply returns_bind with (Q := fun _ => True).
        + apply returns_catch; [wd_auto | trivial |].
          intros e He. rewrite He. now apply returns_ret.
        + intros [[|]|exc] _; now apply returns_ret. }
    rewrite E1.
    destruct (IH st1 w1) as (st' & w' & more & E & Hs & Hc & Hu & Hl & Ha).
    pose proof E1 as V1. apply popup_visit in E1.
    2:{ adds_auto. }
    2:{ intros e. adds_auto. }
    2:{ intros a. pose proof (wait_for_ads_no_window_cmd 3000%N). adds_auto. }
    destruct E1 as [Hs1 Hc1].
    assert (V : exists more1,
               fst (fst st1) = urls ++ more1 /\ List.length more1 <= 1 /\
               (ads = true -> snd (fst st1) = true)).
    { apply finally_normal in V1. destruct V1 as (w2 & V1).
      peel V1. destruct a as [u|exc].
      - peel V1. destruct a as [[|]|exc]; unfold ret in V1;
          inversion V1; subst; exists [u]; cbn; auto.
      - unfold ret in V1. inversion V1; subst. exists []. cbn.
        rewrite app_nil_r. auto. }
    destruct V as (more1 & Hu1 & Hl1 & Ha1).
    exists st', w', (more1 ++ more). split; [exact E|].
    rewrite Hs, Hs1, Hc, Hc1, Hu, Hu1, <- !app_assoc, length_app.
    cbn [List.length fst snd app]. repeat split; auto; lia.
Qed.

(** X9.  The popup loops of the navigation tester and of the play-button
    tester never raise.  They switch to every new handle, in order, and
    call [close] once for each one, whatever happened in the popup; they
    record at most one address per handle, after those already recorded,
    and never take back a detection. *)
Theorem popups_are_always_closed label hs st env w :
  (exists st' w' more,
      NavClick.inspect_popups label hs st env w = (Normal st', w') /\
      switch_targets (trace w') = switch_targets (trace w) ++ hs /\
      closes (trace w') = closes (trace w) + List.length hs /\
      fst (fst st') = fst (fst st) ++ more /\
      List.length more <= List.length hs /\
      (snd (fst st) = true -> snd (fst st') = true)) /\
  (exists st' w' more,
      PlayButton.inspect_popups label hs st env w = (Normal st', w') /\
      switch_targets (trace w') = switch_targets (trace w) ++ hs /\
      closes (trace w') = closes (trace w) + List.length hs /\
      fst (fst st') = fst (fst st) ++ more /\
      List.length more <= List.length hs /\
      (snd (fst st) = true -> snd (fst st') = true)).
Proof.
  split; [apply nav_inspect_popups_run | apply play_inspect_popups_run].
Qed.

(* ================================================================= *)
(** ** The popup dismisser of the Edge tester *)

Lemma ends_in_click_after (w w0 w' : World) :
  adds unclicked w w0 -> ends_in_click w0 w' -> ends_in_click w w'.
Proof.
  intros (t & Et & Ft) (before & l & msg & Eb & Fb).
  exists (t ++ before), l, msg. rewrite Eb, Et, <- !app_assoc.
  split; [reflexivity|]. now rewrite forallb_app, Ft, Fb.
Qed.

(** One locator of [close_ad_popup_if_present]: [True] after a click that
    went through, [False] otherwise, and no exception. *)
Lemma popup_attempt locator env w :
  exists b w',
    catch
      (candidate <- wait_until 2000%N (element_to_be_clickable locator) ;;
       execute_script (scrollIntoView (el_by candidate)) ;;
       click candidate ;;
       logger INFO ("Closed ad popup using locator "
                    ++ Edge.locator_str locator) ;;
       ret true)
      (fun exc =>
         if is_timeout exc then ret false
         else if is_webdriver exc then
           logger DEBUG ("Attempt to close popup with locator "
                         ++ Edge.locator_str locator ++ " failed: "
                         ++ Exn_str exc) ;;
           ret false
         else raise exc) env w = (Normal b, w') /\
    if b then ends_in_click w w' else adds unclicked w w'.
Proof.
  assert (Hh : forall e w0,
             is_webdriver e = true -> adds unclicked w w0 ->
             exists b w',
               (if is_timeout e then ret false
                else if is_webdriver e then
                  logger DEBUG ("Attempt to close popup with locator "
                                ++ Edge.locator_str locator ++ " failed: "
                                ++ Exn_str e) ;;
                  ret false
                else raise e) env w0 = (Normal b, w') /\
               if b then ends_in_click w w' else adds unclicked w w').
  { intros e w0 He Hw. rewrite He. destruct (is_timeout e).
    - exists false, w0. split; [reflexivity | exact Hw].
    - eexists false, _. split; [reflexivity|].
      eapply cumulative_trans; [exact Hw|]. eexists [_]. cbn. auto. }
  unfold catch, bind at 1.
  destruct (wait_until 2000%N (element_to_be_clickable locator) env w)
    as [[candidate|e1] w1] eqn:E1;
    pose proof (command_trace _ _ _ _ E1) as T1.
  2:{ apply Hh; [exact (@wd_wait_until _ _ _ _ _ _ E1)|].
      eexists [_]. split; [exact T1 | reflexivity]. }
  unfold bind at 1.
  destruct (execute_script (scrollIntoView (el_by candidate)) env w1)
    as [[[]|e2] w2] eqn:E2;
    pose proof (command_trace _ _ _ _ E2) as T2.
  2:{ apply Hh; [exact (@wd_execute_script _ _ _ _ _ E2)|].
      eexists [_; _]. rewrite T2, T1, <- app_assoc. split; reflexivity. }
  unfold bind at 1.
  destruct (click candidate env w2) as [[[]|e3] w3] eqn:E3;
    pose proof (command_trace _ _ _ _ E3) as T3.
  2:{ apply Hh; [exact (@wd_click _ _ _ _ _ E3)|].
      eexists [_; _; _]. rewrite T3, T2, T1, <- !app_assoc.
      split; reflexivity. }
  eexists true, _. split; [reflexivity|].
  eexists [_; _], _, _. cbn [trace].
  rewrite T3, T2, T1, <- !app_assoc. split; reflexivity.
Qed.

Lemma close_popup_by_locator_any ls env :
  forall w, exists b w',
    Edge.close_popup_by_locator ls env w = (Normal b, w') /\
    if b then ends_in_click w w' else adds unclicked w w'.
Proof.
  induction ls as [|locator rest IH]; intros w;
    cbn [Edge.close_popup_by_locator].
  - exists false, w. split; [reflexivity | apply cumulative_refl].
  - unfold bind at 1.
    destruct (popup_attempt locator env w) as ([|] & w1 & E1 & H1);
      rewrite E1.
    + exists true, w1. split; [reflexivity | exact H1].
    + destruct (IH w1) as (b & w' & E & Hb). exists b, w'.
      split; [exact E|]. destruct b.
      * eapply ends_in_click_after; eassumption.
      * eapply cumulative_trans; eassumption.
Qed.

Lemma click_first_usable_any buttons env :
  forall w r w',
    Edge.click_first_usable buttons env w = (r, w') ->
    match r with
    | Normal true => ends_in_click w w'
    | _ => adds unclicked w w'
    end.
Proof.
  induction buttons as [|button rest IH]; intros w r w' H;
    cbn [Edge.click_first_usable] in H.
  - inversion H; subst. apply cumulative_refl.
  - unfold bind at 1 in H.
    destruct (is_displayed button env w) as [[d|e1] w1] eqn:E1;
      pose proof (command_trace _ _ _ _ E1) as T1.
    2:{ inversion H; subst. eexists [_]. split; [exact T1 | reflexivity]. }
    assert (A1 : adds unclicked w w1)
      by (eexists [_]; split; [exact T1 | reflexivity]).
    unfold bind at 1 in H.
    assert (A2 : forall ru w2,
               (if d then is_enabled button else ret false) env w1 = (ru, w2) ->
               adds unclicked w w2).
    { intros ru w2 E2. eapply cumulative_trans; [exact A1|]. destruct d.
      - apply command_trace in E2. eexists [_]. split; [exact E2 | reflexivity].
      - inversion E2; subst. apply cumulative_refl. }
    destruct ((if d then is_enabled button else ret false) env w1)
      as [[usable|e2] w2] eqn:E2; specialize (A2 _ _ eq_refl).
    2:{ inversion H; subst. exact A2. }
    destruct usable.
    + unfold bind at 1 in H.
      destruct (click button env w2) as [[[]|e3] w3] eqn:E3;
        pose proof (command_trace _ _ _ _ E3) as T3.
      * inversion H; subst. eapply ends_in_click_after; [exact A2|].
        eexists [], _, _. cbn [trace]. rewrite T3, <- app_assoc.
        split; reflexivity.
      * inversion H; subst. eapply cumulative_trans; [exact A2|].
        eexists [_]. split; [exact T3 | reflexivity].
    + apply IH in H. destruct r as [[|]|e].
      * eapply ends_in_click_after; eassumption.
      * eapply cumulative_trans; eassumption.
      * eapply cumulative_trans; eassumption.
Qed.

(** X10.  [close_ad_popup_if_present] never raises, whatever the driver
    does.  It returns [True] exactly after a click that went through, which
    is then the last thing it did apart from logging it, and the only click
    that went through; it returns [False] when no click went through. *)
Theorem popup_dismisser_reports_its_click env w :
  exists b w',
    Edge.close_ad_popup_if_present env w = (Normal b, w') /\
    if b then ends_in_click w w' else adds unclicked w w'.
Proof.
  unfold Edge.close_ad_popup_if_present, bind at 1.
  destruct (close_popup_by_locator_any Edge.popup_locators env w)
    as ([|] & w1 & E1 & H1); rewrite E1.
  - exists true, w1. split; [reflexivity | exact H1].
  - unfold catch, bind at 1.
    match goal with
    | |- context [find_elements ?l env w1] =>
        destruct (find_elements l env w1) as [[buttons|e2] w2] eqn:E2;
        pose proof (command_trace _ _ _ _ E2) as T2
    end.
    + assert (A2 : adds unclicked w w2).
      { eapply cumulative_trans; [exact H1|]. eexists [_].
        split; [exact T2 | reflexivity]. }
      destruct (Edge.click_first_usable buttons env w2) as [r w3] eqn:E3.
      pose proof E3 as W3.
      apply click_first_usable_any in E3. destruct r as [[|]|e3].
      * exists true, w3. split; [reflexivity|].
        eapply ends_in_click_after; eassumption.
      * exists false, w3. split; [reflexivity|].
        eapply cumulative_trans; eassumption.
      * rewrite (@wd_click_first_usable _ _ _ _ _ W3).
        eexists false, _. split; [reflexivity|].
        eapply cumulative_trans; [exact A2|].
        eapply cumulative_trans; [exact E3|]. eexists [_].
        split; reflexivity.
    + rewrite (@wd_find_elements _ _ _ _ _ E2).
      eexists false, _. split; [reflexivity|].
      eapply cumulative_trans; [exact H1|]. eexists [_; _]. cbn [trace].
      rewrite T2, <- app_assoc. split; reflexivity.
Qed.

(* ================================================================= *)
(** ** Waits that time out and waits that fail *)

Lemma timeout_is s : is_timeout (Selenium s) = true -> s = Timeout.
Proof. destruct s; try discriminate. reflexivity. Qed.

Lemma wait_until_raises timeout c env w e w' :
  wait_until timeout c env w = (Raise e, w') -> exists s, e = Selenium s.
Proof.
  unfold wait_until, command.
  destruct (fault env (tick w));
    [|destruct (In_b _ _); [destruct (cond_holds _ _)|]];
    intros [= <- _]; eauto.
Qed.

Lemma wait_for_ads_loop_any timeout ls env :
  forall w r w',
    Monetag.wait_for_ads_loop timeout ls env w = (r, w') ->
    exists added,
      trace w' = trace w ++ added /\
      map fst (calls added)
      = map (fun l => CmdWait (presence_of_element_located l) timeout)
            (firstn (List.length added) ls) /\
      match r with
      | Normal true =>
          0 < List.length added /\
          timeouts (calls added) = List.length added - 1
      | Normal false =>
          List.length added = List.length ls /\
          timeouts (calls added) = List.length ls
      | Raise e =>
          is_webdriver e = true /\ is_timeout e = false /\
          0 < List.length added /\
          timeouts (calls added) = List.length added - 1
      end.
Proof.
  induction ls as [|l rest IH]; intros w r w' H;
    cbn [Monetag.wait_for_ads_loop] in H.
  - inversion H; subst. exists []. rewrite app_nil_r. cbn. auto.
  - unfold bind at 1, catch, bind at 1 in H.
    destruct (wait_until timeout (presence_of_element_located l) env w)
      as [[el|e1] w1] eqn:E1;
      pose proof (command_trace _ _ _ _ E1) as T1.
    + inversion H; subst. eexists [_]. split; [exact T1|]. cbn. auto.
    + destruct (wait_until_raises _ _ _ _ E1) as [s ->].
      destruct (is_timeout (Selenium s)) eqn:Ht.
      * apply timeout_is in Ht. subst s. unfold ret at 1 in H.
        apply IH in H. destruct H as (added & Et & Hc & Hr).
        eexists (_ :: added). rewrite Et, T1, <- app_assoc.
        split; [reflexivity|]. cbn [calls flat_map app map fst List.length
                                     firstn exn_of].
        fold (calls added). rewrite Hc. split; [reflexivity|].
        change (timeouts (?x :: calls added)) with (S (timeouts (calls added))).
        destruct r as [[|]|e]; cbn [List.length]; intuition lia.
      * inversion H; subst. eexists [_]. split; [exact T1|]. cbn.
        split; [reflexivity|]. split; [exact (@wd_wait_until _ _ _ _ _ _ E1)|].
        split; [exact Ht|]. split; [lia|].
        unfold timeouts. cbn.
        destruct s; try reflexivity. discriminate Ht.
Qed.

(** X11.  Whatever the driver does, [wait_for_ads] issues nothing but its
    waits: for the presence of the ad locators, in their order, each with
    the timeout it was given, each at most once.  It never raises a
    [TimeoutException]: a wait that times out moves it to the next locator,
    and [False] means that every wait timed out.  Any other failure of a
    wait leaves the function at once, the later locators untried. *)
Theorem wait_for_ads_only_waits timeout env w r w' :
  Monetag.wait_for_ads timeout env w = (r, w') ->
  exists added,
    trace w' = trace w ++ added /\
    map fst (calls added)
    = map (fun l => CmdWait (presence_of_element_located l) timeout)
          (firstn (List.length added) Monetag.AD_IDENTIFIERS) /\
    match r with
    | Normal true =>
        0 < List.length added /\
        timeouts (calls added) = List.length added - 1
    | Normal false =>
        List.length added = List.length Monetag.AD_IDENTIFIERS /\
        timeouts (calls added) = List.length Monetag.AD_IDENTIFIERS
    | Raise e =>
        is_webdriver e = true /\ is_timeout e = false /\
        0 < List.length added /\
        timeouts (calls added) = List.length added - 1
    end.
Proof. apply wait_for_ads_loop_any. Qed.

Lemma wait_for_ads_only_waits_witness :
  exists added,
    trace (snd (Monetag.wait_for_ads 3000%N no_driver one_tab))
    = trace one_tab ++ added /\
    map fst (calls added)
    = [CmdWait (presence_of_element_located
                  (nth 0 Monetag.AD_IDENTIFIERS (XPATH, ""))) 3000%N].
Proof.
  destruct (@wait_for_ads_only_waits 3000%N no_driver one_tab
              (Raise WebDriverException)
              (snd (Monetag.wait_for_ads 3000%N no_driver one_tab))
              ltac:(vm_compute; reflexivity))
    as (added & Et & Hc & _ & _ & _ & Hn).
  exists added. split; [exact Et|].
  assert (El : added = [Issued (CmdWait (presence_of_element_located
                 (nth 0 Monetag.AD_IDENTIFIERS (XPATH, ""))) 3000%N)
                 (Some WebDriverException)]).
  { eapply app_inv_head. rewrite <- Et. vm_compute. reflexivity. }
  rewrite El. reflexivity.
Defined.

(** X12.  [are_both_buttons_visible] never raises a [TimeoutException]: a
    wait that times out is answered with [False].  It answers [True] only
    after four calls that all went through: the waits for the visibility of
    the Home and of the Games button, in this order and with the timeout it
    was given, and the check that each of the two elements is displayed. *)
Theorem both_buttons_confirmed timeout env w r w' :
  NavClick.are_both_buttons_visible timeout env w = (r, w') ->
  match r with
  | Raise e => is_webdriver e = true /\ is_timeout e = false
  | Normal false => True
  | Normal true =>
      exists home games,
        el_displayed home = true /\ el_displayed games = true /\
        trace w'
        = trace w
          ++ [Issued (CmdWait (visibility_of_element_located
                                 (snd (NavClick.NAV_BUTTONS_at 0))) timeout)
                     None;
              Issued (CmdWait (visibility_of_element_located
                                 (snd (NavClick.NAV_BUTTONS_at 1))) timeout)
                     None;
              Issued (CmdIsDisplayed (el_by home)) None;
              Issued (CmdIsDisplayed (el_by games)) None]
  end.
Proof.
  unfold NavClick.are_both_buttons_visible, catch. intros H.
  match type of H with
  | (let (_, _) := ?c env w in _) = _ =>
      assert (Hwd : wd c) by wd_auto;
      destruct (c env w) as [[b|e] w1] eqn:E
  end.
  - inversion H; subst. destruct b; [|exact I]. clear H.
    peel E. pose proof (command_trace _ _ _ _ E0) as T0.
    peel E. pose proof (command_trace _ _ _ _ E1) as T1.
    peel E. apply is_displayed_run in E2. destruct E2 as (T2 & D2).
    specialize (D2 _ eq_refl). subst a1.
    destruct (el_displayed a) eqn:Dh; [|discriminate E].
    apply is_displayed_run in E. destruct E as (T3 & D3).
    specialize (D3 _ eq_refl). exists a, a0.
    split; [exact Dh|]. split; [now symmetry|].
    rewrite T3, T2, T1, T0, <- !app_assoc. reflexivity.
  - pose proof (Hwd _ _ _ _ E) as He.
    destruct (is_timeout e) eqn:Ht; inversion H; subst; [exact I | auto].
Qed.

Lemma both_buttons_confirmed_witness :
  exists home games,
    el_displayed home = true /\ el_displayed games = true /\
    List.length
      (trace (snd (NavClick.are_both_buttons_visible 2500%N with_nav one_tab)))
    = 4 /\
    trace (snd (NavClick.are_both_buttons_visible 2500%N with_nav one_tab))
    = trace one_tab
      ++ [Issued (CmdWait (visibility_of_element_located
                             (snd (NavClick.NAV_BUTTONS_at 0))) 2500%N) None;
          Issued (CmdWait (visibility_of_element_located
                             (snd (NavClick.NAV_BUTTONS_at 1))) 2500%N) None;
          Issued (CmdIsDisplayed (el_by home)) None;
          Issued (CmdIsDisplayed (el_by games)) None].
Proof.
  destruct (@both_buttons_confirmed 2500%N with_nav one_tab (Normal true)
              (snd (NavClick.are_both_buttons_visible 2500%N with_nav one_tab))
              ltac:(vm_compute; reflexivity))
    as (home & games & Dh & Dg & Et).
  exists home, games. split; [exact Dh|]. split; [exact Dg|].
  split; [vm_compute; reflexivity | exact Et].
Defined.

(* ================================================================= *)
(** ** Where the exceptions of a run come from *)

Lemma close_additional_loop_returns p hs :
  returns (fun _ => True) (Monetag.close_additional_loop p hs).
Proof.
  intros env w. destruct (close_additional_loop_run env p hs w)
    as (w' & E & _). exists tt, w'. auto.
Qed.

(** X13.  The only exception that leaves [close_additional_windows] is a
    failure of its read of [driver.window_handles], the second call it
    makes: it returns when the current handle cannot be read, and no
    failure while it switches or closes can leave it. *)
Theorem close_additional_windows_raises_from_the_enumeration env w :
  (exists w', Monetag.close_additional_windows env w = (Normal tt, w')) \/
  (exists e w',
      Monetag.close_additional_windows env w = (Raise e, w') /\
      is_webdriver e = true /\
      trace w' = trace w ++ [Issued CmdCurrentWindowHandle None;
                             Issued CmdWindowHandles (Some e)]).
Proof.
  destruct (Monetag.close_additional_windows env w) as [[[]|e] w'] eqn:R;
    [left; eauto|].
  right. exists e, w'. split; [reflexivity|].
  unfold Monetag.close_additional_windows, bind at 1, catch, bind at 1 in R.
  destruct (current_window_handle env w) as [[h|e0] w0] eqn:E0;
    pose proof (command_trace _ _ _ _ E0) as T0.
  - unfold ret at 1 in R. unfold bind at 1 in R.
    destruct (get_window_handles env w0) as [[hs|e1] w1] eqn:E1;
      pose proof (command_trace _ _ _ _ E1) as T1.
    + assert (Hr : returns (fun _ => True)
                     (Monetag.close_additional_loop h hs ;;
                      suppress (switch_to_window h))).
      { eapply returns_bind; [apply close_additional_loop_returns|].
        intros _ _. apply returns_suppress, wd_switch_to_window. }
      destruct (Hr env w1) as ([] & w2 & E & _). rewrite E in R.
      discriminate R.
    + inversion R; subst.
      split; [exact (@wd_get_window_handles _ _ _ _ E1)|].
      rewrite T1, T0, <- app_assoc. reflexivity.
  - rewrite (@wd_current_window_handle _ _ _ _ E0) in R. discriminate R.
Qed.

Lemma simulate_view_returns view_number url dwell_seconds :
  returns (fun _ => True)
    (Monetag.simulate_view view_number url dwell_seconds).
Proof.
  unfold Monetag.simulate_view. apply returns_catch; [wd_auto | trivial |].
  intros e He. rewrite He. now apply returns_ret.
Qed.

(** The views themselves cannot fail: an exception that leaves the loop
    over the views comes from a [refresh] between two views. *)
Lemma view_loop_raises views dwell_seconds numbers env :
  forall results w e w',
    Monetag.view_loop views numbers dwell_seconds results env w
    = (Raise e, w') ->
    exists t, trace w' = trace w ++ t ++ [Issued CmdRefresh (Some e)].
Proof.
  induction numbers as [|n rest IH]; intros results w e w' H;
    cbn [Monetag.view_loop] in H; [discriminate H|].
  unfold bind at 1 in H.
  destruct (simulate_view_returns n Monetag.HOME_URL dwell_seconds env w)
    as (result & w1 & E1 & _).
  rewrite E1 in H.
  assert (K := @in_page_simulate_view (adds (avoids is_session_cmd)) _
                 n Monetag.HOME_URL dwell_seconds).
  destruct (K _ _ _ _ E1) as (t1 & Et1 & _). clear K.
  unfold bind at 1 in H.
  assert (P : exists msg w2,
             (if truthy (Monetag.error result)
              then print ("[!] View " ++ str_of_nat n ++ ": error -> "
                          ++ or_else (Monetag.error result) "")
              else print ("[+] View " ++ str_of_nat n ++ ": ads "
                          ++ (if Monetag.ads_detected result
                              then "found" else "missing"))) env w1
             = (Normal tt, w2) /\ trace w2 = trace w1 ++ [Printed msg]).
  { destruct (truthy (Monetag.error result)); eexists _, _;
      split; reflexivity. }
  destruct P as (msg & w2 & E2 & Et2). rewrite E2 in H.
  unfold bind at 1 in H.
  destruct (negb (n =? views)%nat).
  - destruct (refresh env w2) as [[[]|e3] w3] eqn:E3;
      pose proof (command_trace _ _ _ _ E3) as T3.
    + apply IH in H. destruct H as (t & Et).
      exists (t1 ++ [Printed msg] ++ [Issued CmdRefresh None] ++ t).
      rewrite Et, T3, Et2, Et1, <- !app_assoc. reflexivity.
    + inversion H; subst. exists (t1 ++ [Printed msg]).
      rewrite T3, Et2, Et1, <- !app_assoc. reflexivity.
  - unfold ret at 1 in H. apply IH in H. destruct H as (t & Et).
    exists (t1 ++ [Printed msg] ++ t).
    rewrite Et, Et2, Et1, <- !app_assoc. reflexivity.
Qed.

Lemma perform_test_cycle_raises views dwell_seconds env w e w' :
  Monetag.perform_test_cycle views dwell_seconds env w = (Raise e, w') ->
  exists before c after,
    trace w' = trace w ++ before ++ Issued c (Some e) :: after /\
    is_session_cmd c = true /\
    (after = [] \/ after = [Issued CmdQuit None]).
Proof.
  unfold Monetag.perform_test_cycle, Monetag.managed_driver, bind.
  destruct (launch env w) as [[[]|e0] w0] eqn:E0;
    pose proof (command_trace _ _ _ _ E0) as T0.
  2:{ intros [= <- <-]. exists [], CmdLaunch, []. rewrite T0. auto. }
  unfold finally.
  destruct (Monetag.view_loop views (seq 1 views) dwell_seconds [] env w0)
    as [rb wb] eqn:Eb.
  destruct (quit env wb) as [[[]|eq] wq] eqn:Eq;
    pose proof (command_trace _ _ _ _ Eq) as Tq.
  - intros [= -> <-]. apply view_loop_raises in Eb. destruct Eb as (t & Et).
    exists (Issued CmdLaunch None :: t), CmdRefresh, [Issued CmdQuit None].
    rewrite Tq, Et, T0, <- !app_assoc. auto.
  - intros [= <- <-].
    pose proof (view_loop_lifecycle views (seq 1 views) dwell_seconds [])
      as K.
    destruct (K _ _ _ _ Eb) as (t & Et & _).
    exists (Issued CmdLaunch None :: t), CmdQuit, [].
    rewrite Tq, Et, T0, <- !app_assoc. auto.
Qed.

(** X14.  [monetag_ad_tester.main] returns 1, after printing that the
    driver could not be initialised, exactly when the launch, a [refresh]
    between two views or the [quit] failed: the failed command is in the
    trace, followed by nothing but the [quit] and the line printed.  No
    failure inside a view gives this exit status. *)
Theorem exit_one_is_a_session_failure env w w' :
  Monetag.main env w = (Normal 1, w') ->
  exists before c e after,
    trace w'
    = trace w ++ before ++ Issued c (Some e) :: after
      ++ [Printed ("Failed to initialise Edge WebDriver: " ++ Exn_str e)] /\
    is_session_cmd c = true /\
    (after = [] \/ after = [Issued CmdQuit None]).
Proof.
  unfold Monetag.main, bind at 1, catch, bind at 1.
  destruct (Monetag.perform_test_cycle Monetag.DEFAULT_VIEW_COUNT
              Monetag.DEFAULT_VIEW_DELAY env w) as [[results|e] w1] eqn:E.
  - unfold ret at 1. destruct (nonempty (Monetag.failures results));
      intros H; inversion H.
  - rewrite (@wd_perform_test_cycle _ _ _ _ _ _ E).
    intros H. inversion H; subst. clear H.
    apply perform_test_cycle_raises in E.
    destruct E as (before & c & after & Et & Hc & Ha).
    exists before, c, e, after. cbn [trace].
    rewrite Et, <- !app_assoc. auto.
Qed.

Lemma exit_one_is_a_session_failure_witness :
  exists before c e after,
    trace (snd (Monetag.main (failing_at 27 OtherWebDriverError calm) one_tab))
    = trace one_tab ++ before ++ Issued c (Some e) :: after
      ++ [Printed ("Failed to initialise Edge WebDriver: " ++ Exn_str e)] /\
    is_session_cmd c = true /\
    (after = [] \/ after = [Issued CmdQuit None]).
Proof.
  exact (@exit_one_is_a_session_failure
           (failing_at 27 OtherWebDriverError calm) one_tab
           (snd (Monetag.main (failing_at 27 OtherWebDriverError calm) one_tab))
           ltac:(vm_compute; reflexivity)).
Defined.

(* ================================================================= *)
(** ** Reconciling twice *)

Lemma close_additional_windows_settled env w p :
  Reliable env -> Quiet env ->
  window_handles w = [p] -> focus w = p ->
  exists w',
    Monetag.close_additional_windows env w = (Normal tt, w') /\
    trace w' = trace w ++ [Issued CmdCurrentWindowHandle None;
                           Issued CmdWindowHandles None;
                           Issued (CmdSwitchTo p) None] /\
    window_handles w' = [p] /\ focus w' = p.
Proof.
  intros R Q Hw Hf. unfold Monetag.close_additional_windows.
  unfold bind at 1, catch, bind at 1, current_window_handle, query, command.
  rewrite R, Hw, Hf. cbn [In_b existsb]. rewrite String.eqb_refl. cbn.
  unfold bind at 1, get_window_handles, query, command. cbn.
  rewrite R, !Q. cbn. rewrite String.eqb_refl. cbn.
  unfold suppress, catch, switch_to_window, command. cbn.
  rewrite R, !Q. cbn. rewrite String.eqb_refl. cbn.
  eexists. split; [reflexivity|]. cbn. rewrite <- !app_assoc. auto.
Qed.

Lemma close_unexpected_windows_settled env w p :
  Reliable env -> Quiet env ->
  window_handles w = [p] ->
  exists w',
    Edge.close_unexpected_windows p env w = (Normal p, w') /\
    trace w' = trace w ++ [Issued CmdWindowHandles None;
                           Issued CmdWindowHandles None;
                           Issued (CmdSwitchTo p) None] /\
    window_handles w' = [p] /\ focus w' = p.
Proof.
  intros R Q Hw. unfold Edge.close_unexpected_windows.
  unfold bind at 1, get_window_handles, query, command.
  rewrite R, Hw, !Q. cbn. rewrite String.eqb_refl. cbn.
  unfold bind at 1, get_window_handles, query, command. cbn.
  rewrite R, !Q. cbn. rewrite String.eqb_refl. cbn.
  unfold bind at 1, switch_to_window, command. cbn.
  rewrite R, !Q. cbn. rewrite String.eqb_refl. cbn.
  eexists. split; [reflexivity|]. cbn. rewrite <- !app_assoc. auto.
Qed.

(** X15.  Reconciling twice changes nothing the second time.  In a session
    where no command fails and no window opens by itself, a second call of
    [close_additional_windows], or of [close_unexpected_windows] with the
    handle the first call returned, makes three calls, the last one the
    switch to the primary window, closes nothing and leaves the one window
    and the focus as they are. *)
Theorem reconciliation_settles env w :
  Reliable env -> Quiet env -> NoDup (window_handles w) ->
  (focused w ->
   exists w1 w2,
     Monetag.close_additional_windows env w = (Normal tt, w1) /\
     Monetag.close_additional_windows env w1 = (Normal tt, w2) /\
     trace w2 = trace w1 ++ [Issued CmdCurrentWindowHandle None;
                             Issued CmdWindowHandles None;
                             Issued (CmdSwitchTo (focus w)) None] /\
     window_handles w2 = window_handles w1 /\ focus w2 = focus w1) /\
  (forall main_handle r w1,
      Edge.close_unexpected_windows main_handle env w = (Normal r, w1) ->
      exists w2,
        Edge.close_unexpected_windows r env w1 = (Normal r, w2) /\
        trace w2 = trace w1 ++ [Issued CmdWindowHandles None;
                                Issued CmdWindowHandles None;
                                Issued (CmdSwitchTo r) None] /\
        window_handles w2 = window_handles w1 /\ focus w2 = focus w1).
Proof.
  intros R Q Hnd. split.
  - intros Hf.
    destruct (@close_additional_windows_reliable env w R Q Hnd Hf)
      as (w1 & E1 & Hw1 & Hf1).
    destruct (@close_additional_windows_settled env w1 (focus w) R Q Hw1 Hf1)
      as (w2 & E2 & T2 & Hw2 & Hf2).
    exists w1, w2. rewrite Hw1, Hw2, Hf1, Hf2. auto.
  - intros main_handle r w1 H.
    apply close_unexpected_windows_normal in H; [|exact Q].
    destruct H as (Hin & -> & Hw1 & Hf1).
    rewrite filter_eq_NoDup in Hw1 by assumption.
    destruct (@close_unexpected_windows_settled env w1 main_handle R Q Hw1)
      as (w2 & E2 & T2 & Hw2 & Hf2).
    exists w2. rewrite Hw1, Hw2, Hf1, Hf2. auto.
Qed.

Lemma reconciliation_settles_witness :
  (exists w1 w2,
     Monetag.close_additional_windows calm three_tabs = (Normal tt, w1) /\
     Monetag.close_additional_windows calm w1 = (Normal tt, w2) /\
     trace w2 = trace w1 ++ [Issued CmdCurrentWindowHandle None;
                             Issued CmdWindowHandles None;
                             Issued (CmdSwitchTo "main") None] /\
     window_handles w2 = window_handles w1 /\ focus w2 = focus w1) /\
  exists w2,
    Edge.close_unexpected_windows "main" calm
      (snd (Edge.close_unexpected_windows "main" calm three_tabs))
    = (Normal "main", w2) /\
    window_handles w2 = ["main"].
Proof.
  assert (R : Reliable calm) by (intros n; reflexivity).
  assert (Q : Quiet calm) by (intros n; reflexivity).
  assert (Hnd : NoDup (window_handles three_tabs)).
  { repeat constructor; simpl; intuition discriminate. }
  destruct (@reconciliation_settles calm three_tabs R Q Hnd) as [HA HB].
  split.
  - apply HA. vm_compute. reflexivity.
  - destruct (HB "main" "main"
                (snd (Edge.close_unexpected_windows "main" calm three_tabs))
                ltac:(vm_compute; reflexivity))
      as (w2 & E2 & _ & Hw2 & _).
    exists w2. split; [exact E2|]. rewrite Hw2. vm_compute. reflexivity.
Defined.

(* ================================================================= *)
(** ** The fallback of the overlay dismisser, from the snapshot on *)

#[local] Instance grows_cumulative : Cumulative grows.
Proof.
  split; unfold grows.
  - intros w. apply incl_refl.
  - intros a b c H1 H2. eapply incl_tran; eassumption.
Qed.

Lemma command_grows {A} (c : Cmd)
    (sem : Page -> World -> Outcome A * list Handle * Handle * Millis) :
  (forall q w0 r0 hs f dt,
      sem q w0 = (r0, hs, f, dt) -> hs = window_handles w0) ->
  keeps grows (command c sem).
Proof.
  intros Hs env w r w'. unfold command, grows.
  destruct (fault env (tick w)).
  - intros [= _ <-]. cbn. apply incl_appl, incl_refl.
  - destruct (sem (page env (tick w)) w) as [[[r0 hs] f] dt] eqn:E.
    intros [= _ <-]. cbn. rewrite (Hs _ _ _ _ _ _ E).
    apply incl_appl, incl_refl.
Qed.

Lemma grows_query {A} (c : Cmd) (f : Page -> World -> Outcome A) :
  keeps grows (query c f).
Proof.
  unfold query. apply command_grows.
  intros q w0 r0 hs f0 dt [= _ <- _ _]. reflexivity.
Qed.

Lemma grows_wait_until timeout c : keeps grows (wait_until timeout c).
Proof.
  unfold wait_until. apply command_grows. intros q w0 r0 hs f dt.
  destruct (In_b _ _); [destruct (cond_holds q c)|];
    intros [= _ <- _ _]; reflexivity.
Qed.

Lemma grows_sleep d : keeps grows (sleep d).
Proof.
  intros env w r w'. unfold sleep, grows. intros [= _ <-]. cbn.
  apply incl_appl, incl_refl.
Qed.

Lemma grows_emit ev : keeps grows (emit ev).
Proof. intros env w r w' [= _ <-]. apply incl_refl. Qed.

(** The commands that close no window. *)
Ltac grows_prim :=
  first [ assumption
        | refine (@grows_wait_until _ _)
        | refine (@grows_sleep _)
        | unfold print, logger; refine (@grows_emit _)
        | unfold get_window_handles, current_window_handle, get_title,
            get_current_url, get, refresh, find_element, find_elements,
            click, is_displayed, is_enabled, get_attribute, execute_script,
            offset_click, on_page;
          refine (@grows_query _ _ _) ].

Lemma grows_click_close_button label ls :
  keeps grows (Monetag.click_close_button label ls).
Proof.
  induction ls as [|[locator_by locator_value] rest IH];
    cbn [Monetag.click_close_button]; repeat keeps_step grows_prim.
Qed.

Lemma grows_synthetic_click label : keeps grows (synthetic_click label).
Proof. unfold synthetic_click. repeat keeps_step grows_prim. Qed.

(** C4, amended.  Take a call of [dismiss_initial_overlay] that comes to
    its fallback: the focused handle was read, the first pass over the
    close-button locators clicked nothing, the address was read, the
    window handles were enumerated (the snapshot of line 120), the
    synthetic click went through, and the enumeration after it can be
    read.  Then the call returns, and what it takes as new are the
    handles of the enumeration after the click that were not in that
    snapshot, each once, in the order the interpreter iterates the set:
    it switches to each of them (to close it, a failure being suppressed
    for that window) and then back to the original handle; it loads the
    original address again exactly when there is a new handle, once; and
    it then runs the retry pass over the close-button locators once,
    looking each up at most once and at least the first, whether or not
    there was a new handle.  When nothing fails and nothing opens any
    more, the new windows are gone afterwards, every other window is
    still there, and the focus is on the original handle. *)
Theorem fallback_closes_new_windows env debug_label w primary w1 w2 url w3
    before w4 w5 :
  current_window_handle env w = (Normal primary, w1) ->
  Monetag.click_close_button (overlay_label debug_label)
    Monetag.CLOSE_BUTTON_LOCATORS env w1 = (Normal false, w2) ->
  get_current_url env w2 = (Normal url, w3) ->
  get_window_handles env w3 = (Normal before, w4) ->
  synthetic_click (overlay_label debug_label) env
    (printed (overlay_label debug_label
              ++ " Attempting body click to dismiss blocking overlay.") w4)
  = (Normal true, w5) ->
  fault env (tick w5) = None ->
  exists w' tried rest,
    Monetag.dismiss_initial_overlay debug_label env w = (Normal tt, w') /\
    before = window_handles w3 /\
    (SetOrder env ->
     NoDup (set_order env (Monetag.new_windows (window_handles w5) before)) /\
     forall h,
       In h (set_order env (Monetag.new_windows (window_handles w5) before))
       <-> In h (window_handles w5) /\ ~ In h before) /\
    switch_targets (trace w')
    = switch_targets (trace w5)
      ++ set_order env (Monetag.new_windows (window_handles w5) before)
      ++ [primary] /\
    loads (trace w')
    = loads (trace w5)
      ++ (if nonempty
               (set_order env
                  (Monetag.new_windows (window_handles w5) before))
          then [url] else []) /\
    lookups (trace w') = lookups (trace w5) ++ tried /\
    Monetag.CLOSE_BUTTON_LOCATORS = tried ++ rest /\ tried <> [] /\
    (Reliable env -> SetOrder env -> Quiet_from env (tick w5) ->
     (forall h, In h (window_handles w') <->
                In h (window_handles w5) /\ In h before) /\
     focus w' = primary).
Proof.
  intros H1 H2 H3 H4 H5 F.
  pose proof (proj1 (proj2 (get_window_handles_normal _ _ H4))) as Hb.
  destruct (@reconcile_and_retry_marks env (overlay_label debug_label)
              primary url before w5 F)
    as (w' & tried & rest & E & (Ms & Ml & Mk) & Hs & Hne).
  exists w', tried, rest. cbn [m_switches m_loads m_lookups] in *.
  split.
  { unfold Monetag.dismiss_initial_overlay. cbv zeta.
    fold (overlay_label debug_label).
    unfold bind at 1, catch at 1, bind at 1. rewrite H1.
    unfold ret at 1. unfold bind at 1. rewrite H2.
    unfold bind at 1. rewrite H3. unfold bind at 1. rewrite H4.
    unfold bind at 1. rewrite print_run. unfold bind at 1.
    unfold synthetic_click, printed in H5. rewrite H5. exact E. }
  split; [exact Hb|].
  split.
  { intros P. split.
    - eapply Permutation_NoDup; [symmetry; apply P|].
      unfold Monetag.new_windows. apply NoDup_nodup.
    - intros h. rewrite <- In_b_false, <- new_windows_spec.
      split; apply Permutation_in; [apply P | symmetry; apply P]. }
  repeat (split; [assumption|]).
  intros R P Q.
  assert (Hin : In primary (window_handles w)).
  { apply In_b_In. apply (current_window_handle_normal _ _ H1). }
  assert (G1 : grows w w1).
  { assert (K : keeps grows current_window_handle) by grows_prim.
    exact (K _ _ _ _ H1). }
  pose proof (@grows_click_close_button _ _ _ _ _ _ H2) as G2.
  assert (G3 : grows w2 w3).
  { assert (K : keeps grows get_current_url) by grows_prim.
    exact (K _ _ _ _ H3). }
  assert (G4 : grows w3 w4).
  { assert (K : keeps grows get_window_handles) by grows_prim.
    exact (K _ _ _ _ H4). }
  pose proof (@grows_synthetic_click _ _ _ _ _ H5) as G5.
  unfold grows in G5. cbn [printed window_handles] in G5.
  assert (Hbefore : In primary before).
  { subst before. apply G3, G2, G1, Hin. }
  assert (Hafter : In primary (window_handles w5)).
  { apply G5, G4. subst before. exact Hbefore. }
  destruct (@reconcile_and_retry_reliable env (overlay_label debug_label)
              primary url before w5 (Normal tt) w' R P Q Hafter Hbefore E)
    as [Hw Hf].
  split; [|exact Hf].
  intros h. rewrite Hw, filter_In, negb_true_iff, In_b_false,
    new_windows_spec, In_b_false.
  split.
  - intros [Ha Hn]. split; [exact Ha|].
    destruct (in_dec string_dec h before) as [Hy|Hy]; [exact Hy|].
    exfalso. apply Hn. now split.
  - intros [Ha Hy]. split; [exact Ha|]. intros [_ Hn]. contradiction.
Qed.

Lemma fallback_closes_new_windows_witness :
  exists w',
    Monetag.dismiss_initial_overlay "view 1" with_popups one_tab
    = (Normal tt, w') /\
    switch_targets (trace w') = ["extra"; "popup"; "main"] /\
    loads (trace w') = [Monetag.HOME_URL] /\
    (forall h, In h (window_handles w') <->
               In h ["main"; "early"; "popup"; "extra"] /\
               In h ["main"; "early"]) /\
    focus w' = "main".
Proof.
  destruct (@fallback_closes_new_windows with_popups "view 1" one_tab
              "main" popups_w1 popups_w2 Monetag.HOME_URL popups_w3
              ["main"; "early"] popups_w4 popups_w5
              ltac:(vm_compute; reflexivity) ltac:(vm_compute; reflexivity)
              ltac:(vm_compute; reflexivity) ltac:(vm_compute; reflexivity)
              ltac:(vm_compute; reflexivity) ltac:(vm_compute; reflexivity))
    as (w' & tried & rest & E & _ & _ & Ms & Ml & _ & _ & _ & Hrel).
  assert (R : Reliable with_popups) by (intros n; reflexivity).
  assert (P : SetOrder with_popups).
  { intros s. cbn. symmetry. apply Permutation_rev. }
  assert (Q : Quiet_from with_popups (tick popups_w5)).
  { intros n Hn. change (tick popups_w5) with 11 in Hn. cbn.
    destruct (Nat.eqb_spec n 9) as [->|_]; [lia|].
    destruct (Nat.eqb_spec n 3) as [->|_]; [lia | reflexivity]. }
  destruct (Hrel R P Q) as [Hw Hf].
  exists w'. split; [exact E|].
  split; [rewrite Ms; vm_compute; reflexivity|].
  split; [rewrite Ml; vm_compute; reflexivity|].
  split; [exact Hw | exact Hf].
Defined.

(* ================================================================= *)
(** ** What a failed attempt and the detector leave alone *)

Lemma find_first_visible_searches ls :
  keeps (adds (only is_search)) (PlayButton.find_first_visible ls).
Proof.
  induction ls as [|[by_ value] rest IH];
    cbn [PlayButton.find_first_visible]; adds_auto.
Qed.

(** X16.  An attempt that [click_games_button] records as an error has
    clicked nothing: all it did was to search for the Games button, with
    waits and [is_displayed]. *)
Theorem failed_attempt_clicked_nothing attempt main_handle env w r w' :
  PlayButton.click_games_button attempt main_handle env w = (Normal r, w') ->
  PlayButton.error r <> None ->
  adds (only is_search) w w'.
Proof.
  intros H Herr. apply click_games_button_fields in H.
  destruct H as [_ H].
  destruct (H Herr) as [[F _]|(button & w1 & F & W & _)].
  - exact (@find_first_visible_searches _ _ _ _ _ F).
  - eapply cumulative_trans.
    + exact (@find_first_visible_searches _ _ _ _ _ F).
    + assert (K : keeps (adds (only is_search))
                    (wait_until_enabled 2500%N button)) by adds_auto.
      exact (K _ _ _ _ W).
Qed.

Lemma failed_attempt_clicked_nothing_witness :
  adds (only is_search) one_tab
    (snd (PlayButton.click_games_button 1 "main" calm one_tab)).
Proof.
  apply (@failed_attempt_clicked_nothing 1 "main" calm one_tab
           (returned no_attempt
              (PlayButton.click_games_button 1 "main" calm one_tab))
           (snd (PlayButton.click_games_button 1 "main" calm one_tab))
           ltac:(vm_compute; reflexivity)).
  vm_compute. discriminate.
Defined.

Lemma log_detected_logs found env :
  forall w r w',
    Edge.log_detected found env w = (r, w') ->
    r = Normal tt /\
    exists lines,
      trace w' = trace w ++ map (Logged INFO) lines /\
      List.length lines = List.length found.
Proof.
  induction found as [|[k d] rest IH]; intros w r w' H;
    cbn [Edge.log_detected] in H.
  - inversion H; subst. split; [reflexivity|]. exists [].
    now rewrite app_nil_r.
  - unfold bind at 1, logger, emit in H. apply IH in H.
    destruct H as (-> & lines & Et & Hl). split; [reflexivity|].
    eexists (_ :: lines). cbn [trace] in Et. rewrite Et, <- app_assoc.
    cbn. now rewrite Hl.
Qed.

(** X17.  [inspect_for_ad_elements] only looks at the page: whatever the
    driver does, the calls it makes are [find_elements] and
    [get_attribute], no click, no navigation, no window command.  When it
    returns it has logged something last: the warning that nothing was
    found with [False], a line for a match with [True]. *)
Theorem detector_only_reads env w r w' :
  Edge.inspect_for_ad_elements env w = (r, w') ->
  adds (only is_scan) w w' /\
  forall b,
    r = Normal b ->
    exists t msg,
      trace w' = t ++ [Logged (if b then INFO else WARNING) msg].
Proof.
  intros H. split.
  - revert H.
    assert (S : forall kind tags found,
               keeps (adds (only is_scan)) (Edge.scan_tags kind tags found)).
    { intros kind tags. induction tags as [|t rest IH]; intros found;
        cbn [Edge.scan_tags]; unfold Edge.descriptor_of; adds_auto. }
    assert (L : forall found, keeps (adds (only is_scan))
                                (Edge.log_detected found)).
    { intros found. induction found as [|[k d] rest IH];
        cbn [Edge.log_detected]; adds_auto. }
    assert (K : keeps (adds (only is_scan)) Edge.inspect_for_ad_elements).
    { unfold Edge.inspect_for_ad_elements, Edge.collect_ad_elements.
      adds_auto. }
    apply K.
  - intros b ->. unfold Edge.inspect_for_ad_elements in H. peel H.
    destruct a as [|m found]; cbn [nonempty] in H.
    + unfold bind, logger, emit, ret in H. inversion H; subst. cbn.
      eauto.
    + unfold bind at 1 in H.
      destruct (Edge.log_detected (m :: found) env w0) as [r1 w1] eqn:E1.
      apply log_detected_logs in E1. destruct E1 as (-> & lines & Et & Hl).
      unfold ret in H. inversion H; subst.
      destruct (exists_last (l := lines)) as (front & msg & ->).
      { intros ->. discriminate Hl. }
      exists (trace w0 ++ map (Logged INFO) front), msg.
      rewrite Et, map_app, app_assoc. reflexivity.
Qed.

Lemma detector_only_reads_witness :
  adds (only is_scan) one_tab
    (snd (Edge.inspect_for_ad_elements with_ads one_tab)).
Proof.
  exact (proj1 (@detector_only_reads with_ads one_tab
                  (fst (Edge.inspect_for_ad_elements with_ads one_tab))
                  (snd (Edge.inspect_for_ad_elements with_ads one_tab))
                  ltac:(vm_compute; reflexivity))).
Defined.

(* ================================================================= *)
(** ** The pauses *)

Lemma in_page_nav_prepare_main_view R `{InPage R} label :
  keeps R (NavClick.prepare_main_view label).
Proof. unfold NavClick.prepare_main_view. in_page. Qed.

Lemma in_page_play_prepare_main_view R `{InPage R} label :
  keeps R (PlayButton.prepare_main_view label).
Proof. unfold PlayButton.prepare_main_view. in_page. Qed.

#[local] Hint Resolve in_page_nav_prepare_main_view
  in_page_play_prepare_main_view : keeps.

(** What the steps of a run that returned say about the clock. *)
Ltac clock :=
  repeat match goal with
         | E : sleep _ _ _ = _ |- _ => apply sleep_later in E
         | E : ?c ?env ?wa = (_, ?wb) |- _ =>
             let Hk := fresh in
             assert (Hk : keeps later c) by in_page;
             apply Hk in E; unfold later in E; clear Hk
         end.

(** X18.  The pauses of the testers are always observed.  A view without
    an error took at least the second after the page load and the dwell
    time; an iteration of the navigation tester and an attempt of the
    play-button tester that ran to their end took at least the pause after
    the click. *)
Theorem pauses_are_observed env w :
  (forall view_number url dwell_seconds result w',
      Monetag.simulate_view view_number url dwell_seconds env w
      = (Normal result, w') ->
      Monetag.error result = None ->
      (now w + 1000 + dwell_seconds <= now w')%N) /\
  (forall main_handle iteration target result w',
      NavClick.navigation_attempt main_handle iteration target env w
      = (Normal result, w') ->
      (now w + NavClick.POST_CLICK_WAIT <= now w')%N) /\
  (forall attempt main_handle result w',
      PlayButton.click_games_button attempt main_handle env w
      = (Normal result, w') ->
      PlayButton.error result = None ->
      (now w + PlayButton.POST_CLICK_WAIT <= now w')%N).
Proof.
  split; [|split].
  - intros view_number url dwell_seconds result w' H Herr.
    unfold Monetag.simulate_view, catch in H.
    match type of H with
    | (let (_, _) := ?c env w in _) = _ =>
        destruct (c env w) as [[r|e] w1] eqn:E
    end.
    + inversion H; subst. clear H. repeat peel E.
      unfold ret in E. inversion E; subst. clear E. clock. lia.
    + destruct (is_webdriver e); inversion H; subst. discriminate Herr.
  - intros main_handle iteration target result w' H.
    unfold NavClick.navigation_attempt in H.
    destruct target as [target_label target_locator].
    do 15 (peel H; open_pairs).
    unfold ret in H. inversion H; subst. clear H.
    clock. lia.
  - intros attempt main_handle result w' H Herr.
    apply click_games_button_inv in H.
    destruct H as [(exc & _ & _ & ->)
                  |(href & debug & both & before & after & w1 & E & H)];
      [discriminate Herr|].
    assert (K : keeps later
                  (PlayButton.record_attempt attempt main_handle href debug
                     both before after)).
    { unfold PlayButton.record_attempt. cbv zeta. in_page. }
    apply K in H. unfold later in H. clear K.
    unfold PlayButton.click_and_observe in E. cbv zeta in E.
    peel E. destruct a as [button|exc]; [|discriminate E].
    do 10 (peel E; open_pairs).
    unfold ret in E. inversion E; subst. clear E.
    clock. lia.
Qed.

Lemma pauses_are_observed_witness :
  (now one_tab + 1000 + 5000
   <= now (snd (Monetag.simulate_view 1 Monetag.HOME_URL 5000%N
                  with_ads one_tab)))%N.
Proof.
  exact (proj1 (pauses_are_observed with_ads one_tab)
           1 Monetag.HOME_URL 5000%N
           (returned {| Monetag.number := 0; Monetag.ads_detected := false;
                        Monetag.error := None |}
              (Monetag.simulate_view 1 Monetag.HOME_URL 5000%N
                 with_ads one_tab))
           (snd (Monetag.simulate_view 1 Monetag.HOME_URL 5000%N
                   with_ads one_tab))
           ltac:(vm_compute; reflexivity)
           ltac:(vm_compute; reflexivity)).
Defined.

(* ================================================================= *)
(** ** Without a focused window *)

Lemma current_window_handle_gone env w :
  In_b (focus w) (window_handles w) = false ->
  exists e w1,
    current_window_handle env w = (Raise e, w1) /\
    is_webdriver e = true /\
    trace w1 = trace w ++ [Issued CmdCurrentWindowHandle (Some e)].
Proof.
  intros Hg. unfold current_window_handle, query, command. rewrite Hg.
  destruct (fault env (tick w)); eexists _, _;
    (split; [reflexivity|]); split; reflexivity.
Qed.

(** X19.  When the focused window is gone, so that the current handle
    cannot be read, [close_additional_windows] and
    [dismiss_initial_overlay] return at once: the failed read is their only
    call, no window is touched, nothing is printed and nothing is raised. *)
Theorem nothing_without_a_focused_window debug_label env w :
  In_b (focus w) (window_handles w) = false ->
  (exists e w',
      Monetag.close_additional_windows env w = (Normal tt, w') /\
      trace w' = trace w ++ [Issued CmdCurrentWindowHandle (Some e)]) /\
  (exists e w',
      Monetag.dismiss_initial_overlay debug_label env w = (Normal tt, w') /\
      trace w' = trace w ++ [Issued CmdCurrentWindowHandle (Some e)]).
Proof.
  intros Hg.
  destruct (current_window_handle_gone env w Hg) as (e & w1 & E & He & T).
  split; exists e, w1.
  - unfold Monetag.close_additional_windows, bind at 1, catch, bind at 1.
    rewrite E, He. split; [reflexivity | exact T].
  - unfold Monetag.dismiss_initial_overlay. cbv zeta.
    unfold bind at 1, catch, bind at 1.
    rewrite E, He. split; [reflexivity | exact T].
Qed.

Lemma nothing_without_a_focused_window_witness :
  exists e w',
    Monetag.dismiss_initial_overlay "view 1" calm (session ["main"] "gone")
    = (Normal tt, w') /\
    trace w' = trace (session ["main"] "gone")
               ++ [Issued CmdCurrentWindowHandle (Some e)].
Proof.
  exact (proj2 (@nothing_without_a_focused_window "view 1" calm
                  (session ["main"] "gone") eq_refl)).
Defined.

(* ================================================================= *)
(** ** The driver path *)

Lemma resolve_driver_loop_run resolve path_exists candidates env :
  forall w, exists r w' pre rest passed,
    Edge.resolve_driver_loop resolve path_exists candidates env w = (r, w') /\
    given candidates = pre ++ rest /\
    Forall2 (missing resolve path_exists) pre passed /\
    match r with
    | Normal (Some path) =>
        exists candidate rest',
          rest = candidate :: rest' /\
          resolve candidate = Normal path /\
          path_exists path = Normal true /\
          trace w'
          = trace w ++ not_found_warnings passed
            ++ [Logged INFO ("Using configured Edge driver at " ++ path)]
    | Normal None =>
        rest = [] /\
        trace w'
        = trace w ++ not_found_warnings passed
          ++ [Logged INFO
                "No explicit driver path provided; Selenium Manager will resolve the driver"]
    | Raise e =>
        exists candidate rest',
          rest = candidate :: rest' /\
          (resolve candidate = Raise e \/
           exists path,
             resolve candidate = Normal path /\ path_exists path = Raise e) /\
          trace w' = trace w ++ not_found_warnings passed
    end /\
    tick w' = tick w /\ window_handles w' = window_handles w /\
    focus w' = focus w.
Proof.
  induction candidates as [|candidate cs IH]; intros w;
    cbn [Edge.resolve_driver_loop given flat_map].
  - exists (Normal None), (snd (logger INFO "No explicit driver path provided; Selenium Manager will resolve the driver" env w)), [], [], [].
    split; [reflexivity|]. split; [reflexivity|]. split; [constructor|].
    cbn. auto.
  - fold (given cs). destruct (truthy candidate); cbn [negb app];
      [|apply IH].
    unfold bind at 1, of_outcome.
    destruct (resolve (or_else candidate "")) as [path|e] eqn:Er.
    2:{ exists (Raise e), w, [], (or_else candidate "" :: given cs), [].
        split; [reflexivity|]. split; [reflexivity|]. split; [constructor|].
        split; [|auto].
        exists (or_else candidate ""), (given cs). cbn.
        rewrite app_nil_r. auto. }
    unfold bind at 1.
    destruct (path_exists path) as [[|]|e] eqn:Ep.
    + eexists (Normal (Some path)), _, [], (or_else candidate "" :: given cs),
        [].
      split; [reflexivity|]. split; [reflexivity|]. split; [constructor|].
      split; [|cbn; auto].
      exists (or_else candidate ""), (given cs). cbn. auto.
    + unfold bind at 1, logger, emit.
      match goal with
      | |- context [Edge.resolve_driver_loop _ _ _ env ?w0] =>
          destruct (IH w0)
            as (r & w' & pre & rest & passed & E & Hg & Hm & Hr & Hk & Hw
                & Hf)
      end.
      exists r, w', (or_else candidate "" :: pre), rest, (path :: passed).
      split; [exact E|]. split; [cbn; now rewrite Hg|].
      split; [constructor; [split; assumption | exact Hm]|].
      cbn [trace tick window_handles focus] in *.
      split; [|auto].
      destruct r as [[found|]|e].
      * destruct Hr as (c & rest' & -> & Hc & He & Ht).
        exists c, rest'. rewrite Ht, <- app_assoc. cbn. auto.
      * destruct Hr as (-> & Ht). rewrite Ht, <- app_assoc. cbn. auto.
      * destruct Hr as (c & rest' & -> & Hc & Ht).
        exists c, rest'. rewrite Ht, <- app_assoc. cbn. auto.
    + exists (Raise e), w, [], (or_else candidate "" :: given cs), [].
      split; [reflexivity|]. split; [reflexivity|]. split; [constructor|].
      split; [|auto].
      exists (or_else candidate ""), (given cs). cbn.
      rewrite app_nil_r. split; [reflexivity|]. split; [|reflexivity].
      right. exists path. auto.
Qed.

(** X20.  [resolve_driver_path] goes through the values of the command
    line, [EDGE_WEBDRIVER], [EDGE_DRIVER_PATH] and [MS_EDGE_DRIVER_PATH]
    in this order, values that are unset or empty being skipped.  It
    passes over the values whose resolved path has no file, with a warning
    for each, and ends at the first value that is different: when the
    resolved path of that value has a file it returns the path, after a
    line that says so; when resolving the value or looking for the file
    raises, for instance because the home directory of a path with a
    tilde cannot be found, the exception leaves the function and nothing
    more is logged; when there is no such value it returns [None], after
    a line that says so.  It makes no driver call. *)
Theorem driver_path_is_first_existing environ resolve path_exists cli env w :
  exists r w' pre rest passed,
    Edge.resolve_driver_path environ resolve path_exists cli env w = (r, w') /\
    given [cli; environ "EDGE_WEBDRIVER"; environ "EDGE_DRIVER_PATH";
           environ "MS_EDGE_DRIVER_PATH"] = pre ++ rest /\
    Forall2 (missing resolve path_exists) pre passed /\
    match r with
    | Normal (Some path) =>
        exists candidate rest',
          rest = candidate :: rest' /\
          resolve candidate = Normal path /\
          path_exists path = Normal true /\
          trace w'
          = trace w ++ not_found_warnings passed
            ++ [Logged INFO ("Using configured Edge driver at " ++ path)]
    | Normal None =>
        rest = [] /\
        trace w'
        = trace w ++ not_found_warnings passed
          ++ [Logged INFO
                "No explicit driver path provided; Selenium Manager will resolve the driver"]
    | Raise e =>
        exists candidate rest',
          rest = candidate :: rest' /\
          (resolve candidate = Raise e \/
           exists path,
             resolve candidate = Normal path /\ path_exists path = Raise e) /\
          trace w' = trace w ++ not_found_warnings passed
    end /\
    tick w' = tick w /\ window_handles w' = window_handles w /\
    focus w' = focus w.
Proof. apply resolve_driver_loop_run. Qed.

(** A value with a tilde whose home directory cannot be found ends the
    search with a [RuntimeError], after the warning for the value before
    it. *)
Example driver_path_without_home :
  fst (Edge.resolve_driver_path
         (fun name =>
            if String.eqb name "EDGE_WEBDRIVER" then Some "~nobody/driver"
            else None)
         (fun p => if String.eqb p "~nobody/driver" then Raise RuntimeError
                   else Normal p)
         (fun _ => Normal false)
         (Some "/opt/msedgedriver") calm one_tab)
  = Raise RuntimeError /\
  trace (snd (Edge.resolve_driver_path
         (fun name =>
            if String.eqb name "EDGE_WEBDRIVER" then Some "~nobody/driver"
            else None)
         (fun p => if String.eqb p "~nobody/driver" then Raise RuntimeError
                   else Normal p)
         (fun _ => Normal false)
         (Some "/opt/msedgedriver") calm one_tab))
  = trace one_tab
    ++ [Logged WARNING
          "Configured driver path /opt/msedgedriver was not found"].
Proof. split; vm_compute; reflexivity. Qed.

(* ================================================================= *)
(** ** The two clicks of the Edge tester *)

Lemma close_unexpected_loop_wd main_handle hs :
  wd (Edge.close_unexpected_loop main_handle hs).
Proof.
  induction hs as [|h rest IH]; cbn [Edge.close_unexpected_loop]; wd_auto.
Qed.

(** What leaves [close_unexpected_windows], and what it returns: the handle
    it was given, or the one it has just promoted with a warning. *)
Lemma close_unexpected_windows_ends main_handle env w r w' :
  Edge.close_unexpected_windows main_handle env w = (r, w') ->
  match r with
  | Raise e => is_webdriver e = true \/ e = IndexError
  | Normal h =>
      h = main_handle \/
      exists t,
        trace w'
        = t ++ [Logged WARNING
                  ("Main window changed; switched control to handle " ++ h)]
  end.
Proof.
  intros H. unfold Edge.close_unexpected_windows in H.
  unfold bind at 1 in H.
  destruct (get_window_handles env w) as [[hs|e0] w0] eqn:E0.
  2:{ inversion H; subst. left. exact (@wd_get_window_handles _ _ _ _ E0). }
  unfold bind at 1 in H.
  destruct (Edge.close_unexpected_loop main_handle hs env w0)
    as [[[]|e1] w1] eqn:E1.
  2:{ inversion H; subst. left.
      exact (@close_unexpected_loop_wd _ _ _ _ _ _ E1). }
  unfold bind at 1 in H.
  destruct (get_window_handles env w1) as [[hs1|e2] w2] eqn:E2.
  2:{ inversion H; subst. left. exact (@wd_get_window_handles _ _ _ _ E2). }
  unfold bind at 1 in H.
  match type of H with
  | (let (_, _) := ?c env w2 in _) = _ =>
      assert (Hc : wd c) by wd_auto;
      destruct (c env w2) as [[changed|e3] w3] eqn:E3
  end.
  2:{ inversion H; subst. left. exact (Hc _ _ _ _ E3). }
  destruct changed.
  - unfold bind at 1 in H.
    destruct (get_window_handles env w3) as [[hs3|e4] w4] eqn:E4.
    2:{ inversion H; subst. left.
        exact (@wd_get_window_handles _ _ _ _ E4). }
    destruct hs3 as [|first hs3].
    + inversion H; subst. right. reflexivity.
    + unfold bind at 1 in H.
      destruct (switch_to_window first env w4) as [[[]|e5] w5] eqn:E5.
      2:{ inversion H; subst. left.
          exact (@wd_switch_to_window _ _ _ _ _ E5). }
      unfold bind, logger, emit, ret in H. inversion H; subst.
      right. eexists. reflexivity.
  - unfold bind at 1 in H.
    destruct (switch_to_window main_handle env w3) as [[[]|e5] w5] eqn:E5.
    2:{ inversion H; subst. left.
        exact (@wd_switch_to_window _ _ _ _ _ E5). }
    unfold ret in H. inversion H; subst. left. reflexivity.
Qed.

(** A guarded step of an iteration: a click, a pause, the popup dismisser
    and the reconciliation, under a handler that logs an error and goes
    on. *)
Lemma guarded_step (first : M unit) pause main_handle (h : Exn -> M Handle)
    env w r w' :
  wd first ->
  (forall e env0 w0,
      is_webdriver e = true ->
      exists msg,
        h e env0 w0
        = (Normal main_handle,
           {| window_handles := window_handles w0; focus := focus w0;
              tick := tick w0; now := now w0;
              trace := trace w0 ++ [Logged ERROR msg] |})) ->
  (forall env0 w0, h IndexError env0 w0 = (Raise IndexError, w0)) ->
  catch (first ;; sleep pause ;; Edge.close_ad_popup_if_present ;;
         Edge.close_unexpected_windows main_handle) h env w = (r, w') ->
  match r with
  | Raise e => e = IndexError
  | Normal handle =>
      handle = main_handle \/
      exists t,
        trace w'
        = t ++ [Logged WARNING
                  ("Main window changed; switched control to handle "
                   ++ handle)]
  end.
Proof.
  intros Hf Hh Hi H. unfold catch in H.
  match type of H with
  | (let (_, _) := ?c env w in _) = _ =>
      destruct (c env w) as [[handle|e] w1] eqn:E
  end.
  - inversion H; subst. clear H. do 3 (peel E).
    apply close_unexpected_windows_ends in E. exact E.
  - assert (He : is_webdriver e = true \/ e = IndexError).
    { unfold bind at 1 in E.
      destruct (first env w) as [[[]|e0] w0] eqn:E0.
      2:{ inversion E; subst. left. exact (Hf _ _ _ _ E0). }
      unfold bind at 1 in E. unfold sleep at 1 in E.
      unfold bind at 1 in E.
      match type of E with
      | (let (_, _) := Edge.close_ad_popup_if_present env ?w2 in _) = _ =>
          destruct (Edge.close_ad_popup_if_present env w2)
            as [[b|e2] w3] eqn:E2
      end.
      2:{ inversion E; subst. left.
          exact (@wd_close_ad_popup_if_present _ _ _ _ E2). }
      apply close_unexpected_windows_ends in E. exact E. }
    destruct He as [He| ->].
    + destruct (Hh e env w1 He) as (msg & Eh). rewrite Eh in H.
      inversion H; subst. left. reflexivity.
    + rewrite Hi in H. inversion H; subst. reflexivity.
Qed.

(** The popup dismisser never raises and logs no error. *)
Lemma close_ad_popup_if_present_quiet env w :
  exists b w',
    Edge.close_ad_popup_if_present env w = (Normal b, w') /\
    adds not_error w w'.
Proof.
  assert (K : keeps (adds not_error) Edge.close_ad_popup_if_present).
  { assert (L : forall ls, keeps (adds not_error)
                             (Edge.close_popup_by_locator ls)).
    { induction ls as [|locator rest IH];
        cbn [Edge.close_popup_by_locator]; adds_auto. }
    assert (C : forall bs, keeps (adds not_error)
                             (Edge.click_first_usable bs)).
    { induction bs as [|button rest IH];
        cbn [Edge.click_first_usable]; adds_auto. }
    unfold Edge.close_ad_popup_if_present. adds_auto. }
  unfold Edge.close_ad_popup_if_present, bind at 1.
  destruct (close_popup_by_locator_any Edge.popup_locators env w)
    as (closed & w1 & E1 & _).
  destruct (Edge.close_ad_popup_if_present env w) as [r w'] eqn:E.
  pose proof (K _ _ _ _ E) as A.
  unfold Edge.close_ad_popup_if_present, bind at 1 in E. rewrite E1 in E.
  rewrite E1. destruct closed.
  - unfold ret in *. inversion E; subst. eauto.
  - unfold catch in *.
    match type of E with
    | (let (_, _) := ?c env w1 in _) = _ =>
        assert (Hwd : wd c) by wd_auto;
        destruct (c env w1) as [[b|e] w2] eqn:E2
    end.
    + inversion E; subst. eauto.
    + rewrite (Hwd _ _ _ _ E2) in *. unfold bind, logger, emit, ret in *.
      inversion E; subst. eauto.
Qed.

(** The ways a guarded step ends. *)
Lemma guarded_step_ends (first : M unit) pause main_handle
    (line : Exn -> string) (h : Exn -> M Handle) env w r w' :
  wd first ->
  (forall e env0 w0,
      is_webdriver e = true ->
      h e env0 w0 = (Normal main_handle, logged ERROR (line e) w0)) ->
  (forall env0 w0, h IndexError env0 w0 = (Raise IndexError, w0)) ->
  catch (first ;; sleep pause ;; Edge.close_ad_popup_if_present ;;
         Edge.close_unexpected_windows main_handle) h env w = (r, w') ->
  step_ends first pause line main_handle env w r w'.
Proof.
  intros Hf Hh Hi H. unfold catch, bind at 1 in H.
  destruct (first env w) as [[[]|e0] w0] eqn:E0.
  - right. unfold bind at 1 in H.
    change (sleep pause env w0)
      with (Normal tt, snd (sleep pause env w0)) in H.
    cbv beta iota in H. unfold bind at 1 in H.
    destruct (close_ad_popup_if_present_quiet env (snd (sleep pause env w0)))
      as (b & w3 & E3 & _).
    rewrite E3 in H. exists w0, b, w3.
    split; [exact E0|]. split; [exact E3|].
    destruct (Edge.close_unexpected_windows main_handle env w3)
      as [[handle|e] w4] eqn:E4.
    + inversion H; subst. left. eauto.
    + pose proof (close_unexpected_windows_ends _ _ _ E4) as [He| ->].
      * rewrite (Hh e env w4 He) in H. inversion H; subst.
        right. left. exists e, w4. auto.
      * rewrite Hi in H. inversion H; subst. right. right. auto.
  - left. pose proof (Hf _ _ _ _ E0) as He.
    rewrite (Hh e0 env w0 He) in H. inversion H; subst.
    exists e0, w0. auto.
Qed.

(** X21.  The two guarded steps of an iteration of
    [run_ad_navigation_test], the click on the Sushi card and the click on
    the favourite button, never end the run on a [WebDriverException].
    The popup dismisser they call never raises and logs nothing as an
    error: what fails inside it is passed over, with a line at debug
    level or none.  A step ends in one of these ways.  The click, that
    is the wait for the element, the scroll or the click itself, failed:
    the step logs the failure as an error, the timeout line for a
    [TimeoutException] and the line with the text of the exception
    otherwise, does nothing else and goes on with the main handle it
    had.  Or the click went through; then, after the pause and the popup
    dismisser, the reconciliation of the windows returned the handle the
    step goes on with, nothing being logged as an error by the step; or
    the reconciliation failed, which the step logs as an error in the
    same way, going on with the main handle it had; or it found no window
    at all, and its [IndexError] leaves the step.  The handle changes
    only when the reconciliation promoted another window, with its
    warning.  When the wait for the card or for the favourite button
    fails, the step makes no other call. *)
Theorem sushi_steps_go_on main_handle env w :
  (exists b w1,
      Edge.close_ad_popup_if_present env w = (Normal b, w1) /\
      adds not_error w w1) /\
  (forall r w',
      Edge.visit_sushi_card main_handle env w = (r, w') ->
      step_ends (Edge.interact_with_sushi_card 20000%N) 2000%N
        sushi_card_error main_handle env w r w') /\
  (forall r w',
      Edge.mark_sushi_favourite main_handle env w = (r, w') ->
      step_ends (Edge.toggle_sushi_favourite 20000%N) 1000%N
        favourite_error main_handle env w r w') /\
  (forall r w',
      Edge.visit_sushi_card main_handle env w = (r, w')
      \/ Edge.mark_sushi_favourite main_handle env w = (r, w') ->
      match r with
      | Raise e => e = IndexError
      | Normal handle =>
          handle = main_handle \/
          exists t,
            trace w'
            = t ++ [Logged WARNING
                      ("Main window changed; switched control to handle "
                       ++ handle)]
      end) /\
  (forall l e w1,
      wait_until 20000%N (element_to_be_clickable l) env w = (Raise e, w1) ->
      (l = (CSS_SELECTOR, "div.row[role='option'][data-id='53065']") ->
       exists w',
         Edge.visit_sushi_card main_handle env w = (Normal main_handle, w') /\
         trace w'
         = trace w ++ [Issued (CmdWait (element_to_be_clickable l) 20000%N)
                              (Some e);
                       Logged ERROR (sushi_card_error e)]) /\
      (l = (CSS_SELECTOR,
            "div.row[role='option'][data-id='53065'] button.fav") ->
       exists w',
         Edge.mark_sushi_favourite main_handle env w
         = (Normal main_handle, w') /\
         trace w'
         = trace w ++ [Issued (CmdWait (element_to_be_clickable l) 20000%N)
                              (Some e);
                       Logged ERROR (favourite_error e)])).
Proof.
  split; [apply close_ad_popup_if_present_quiet|].
  split.
  { intros r w' H. unfold Edge.visit_sushi_card in H.
    eapply guarded_step_ends; [| | |exact H].
    - unfold Edge.interact_with_sushi_card. cbv zeta. wd_auto.
    - intros e env0 w0 He. cbv beta. unfold sushi_card_error.
      destruct (is_timeout e); [reflexivity | rewrite He; reflexivity].
    - reflexivity. }
  split.
  { intros r w' H. unfold Edge.mark_sushi_favourite in H.
    eapply guarded_step_ends; [| | |exact H].
    - unfold Edge.toggle_sushi_favourite. cbv zeta. wd_auto.
    - intros e env0 w0 He. cbv beta. unfold favourite_error.
      destruct (is_timeout e); [reflexivity | rewrite He; reflexivity].
    - reflexivity. }
  split.
  - intros r w' [H|H].
    + unfold Edge.visit_sushi_card in H.
      eapply guarded_step in H; [exact H | | |].
      * unfold Edge.interact_with_sushi_card. cbv zeta. wd_auto.
      * intros e env0 w0 He. rewrite He.
        destruct (is_timeout e); eexists; reflexivity.
      * reflexivity.
    + unfold Edge.mark_sushi_favourite in H.
      eapply guarded_step in H; [exact H | | |].
      * unfold Edge.toggle_sushi_favourite. cbv zeta. wd_auto.
      * intros e env0 w0 He. rewrite He.
        destruct (is_timeout e); eexists; reflexivity.
      * reflexivity.
  - intros l e w1 E. pose proof (command_trace _ _ _ _ E) as T.
    pose proof (@wd_wait_until _ _ _ _ _ _ E) as He.
    split; intros ->.
    + unfold Edge.visit_sushi_card, catch, bind at 1,
        Edge.interact_with_sushi_card. cbv zeta. unfold bind at 1.
      rewrite E, He. unfold sushi_card_error.
      destruct (is_timeout e); eexists; (split; [reflexivity|]);
        cbn [trace]; rewrite T, <- app_assoc; reflexivity.
    + unfold Edge.mark_sushi_favourite, catch, bind at 1,
        Edge.toggle_sushi_favourite. cbv zeta. unfold bind at 1.
      rewrite E, He. unfold favourite_error.
      destruct (is_timeout e); eexists; (split; [reflexivity|]);
        cbn [trace]; rewrite T, <- app_assoc; reflexivity.
Qed.

Lemma sushi_steps_go_on_witness :
  exists w',
    Edge.visit_sushi_card "main" calm one_tab = (Normal "main", w') /\
    trace w'
    = trace one_tab
      ++ [Issued (CmdWait (element_to_be_clickable
                             (CSS_SELECTOR,
                              "div.row[role='option'][data-id='53065']"))
                          20000%N)
                 (Some TimeoutException);
          Logged ERROR "Timed out waiting for Sushi recipe card; continuing"].
Proof.
  exact (proj1 (proj2 (proj2 (proj2 (proj2
                  (sushi_steps_go_on "main" calm one_tab))))
                  (CSS_SELECTOR, "div.row[role='option'][data-id='53065']")
                  TimeoutException
                  (snd (wait_until 20000%N
                          (element_to_be_clickable
                             (CSS_SELECTOR,
                              "div.row[role='option'][data-id='53065']"))
                          calm one_tab))
                  ltac:(vm_compute; reflexivity))
           eq_refl).
Defined.
